(** * ConnectFourGame: the robot controller (connect4game/robot/robot.py)

    A shallow embedding of the [Robot] class: the action executor, the
    gripper controller, the scoped slow mode, the belt lock and the
    load / grab bookkeeping, followed by the properties of the
    specification that concern them.

    Python's mutable object [self], the driver behind [pyniryo2] and the
    things the controller does to the outside (driver calls, log lines,
    console prompts, lock operations, thread starts) are threaded through
    a state-and-exception monad; [while] loops take fuel. *)

From Stdlib Require Import ZArith List String Bool Lia QArith.
Import ListNotations.
Open Scope Z_scope.

(** ** Data of the program *)

(** [pyniryo2.PoseObject]: six floats; the literals of the source are
    decimal fractions and the controller never computes with them. *)
Module PoseObject.
Record t := mk { x : Q; y : Q; z : Q; roll : Q; pitch : Q; yaw : Q }.
End PoseObject.

Inductive GripperAction := OPEN | CLOSE.

Inductive ConveyorDirection := FORWARD | BACKWARD.

(** The exception kinds the controller tells apart, and all the others. *)
Inductive exn :=
| TypeError
| RosTimeoutError
| IndexError
| OtherError (what : string).

(** What a driver capability hands back. *)
Inductive value := VNone | VInt (n : Z).

(** What a call into the outside gives: a value or a raised exception. *)
Inductive outcome (A : Type) :=
| Ret (a : A)
| Exc (e : exn).
Arguments Ret {A} a.
Arguments Exc {A} e.

(** The driver methods the controller passes to the executor, with the
    arguments it passes along. *)
Inductive capability :=
| update_tool
| release_with_tool
| grasp_with_tool
| run_conveyor (conveyor_id : value) (speed : Z) (direction : ConveyorDirection)
| stop_conveyor (conveyor_id : value)
| move_pose (pos : PoseObject.t)
| set_arm_max_velocity (percentage : Z).

Definition capability_name (c : capability) : string :=
  match c with
  | update_tool => "update_tool"
  | release_with_tool => "release_with_tool"
  | grasp_with_tool => "grasp_with_tool"
  | run_conveyor _ _ _ => "run_conveyor"
  | stop_conveyor _ => "stop_conveyor"
  | move_pose _ => "move_pose"
  | set_arm_max_velocity _ => "set_arm_max_velocity"
  end.

(** The object handed to [__execute_robot_action]: [act_name] is what
    [action.__name__] gives ([None] when the lookup raises
    [AttributeError]); [act_body] is the driver method behind it, or
    [None] for an object that is not callable, such as the value of a
    call evaluated too early. *)
Record action := { act_name : option string; act_body : option capability }.

Definition method (c : capability) : action :=
  {| act_name := Some (capability_name c); act_body := Some c |}.

Definition evaluated : action :=
  {| act_name := None; act_body := None |}.

Inductive level := info | warning | critical.

(** One constructor per log line of the source, with the values its
    f-string interpolates. *)
Inductive message :=
| MagazinePlacement
| PressEnterMagazine
| SettingUpPiece (piece : Z)
| PlacedOnPosition (position : Z)
| BeltLockedForPlacing
| StackFull
| BeltLockedByThread
| ConveyorMoving (log_dirct : string)
| BeltLockRemoved
| CodingError
| RetryingAction (name : string)
| MovedHome
| MovedToPosition (pos : PoseObject.t)
| GripperRestart
| SkippingStatus
| WaitingForBoard.

(** What the controller does that is visible outside the object, in the
    order it happens.  [StackCount old new] marks an assignment to
    [__current_stack_count]: it held [old] and now holds [new]. *)
Inductive event :=
| Invoke (c : capability) (o : outcome value)
| ReadStatus (o : outcome Z)
| Log (l : level) (m : message)
| Input
| Sleep
| Acquire
| Release
| Start (direction : ConveyorDirection)
| StackCount (old new : Z).

(** The fields of [self] that [__init__] sets after the hardware is up
    (lines 109-120), and the conveyor id it got from the driver. *)
Record Robot := {
  conveyor_id : value;
  belt_lock : bool;
  current_piece_count : Z;
  current_stack_count : Z;
  board_calibrated : bool;
  magazine_ready : bool
}.

Definition fresh (id : value) : Robot :=
  {| conveyor_id := id;
     belt_lock := false;
     current_piece_count := 0;
     current_stack_count := 0;
     board_calibrated := false;
     magazine_ready := false |}.

(** The class constants. *)
Definition better_home_pos : PoseObject.t :=
  PoseObject.mk 0.14 0 0.203 0 0.759 0.

Definition mag_pos_bef : PoseObject.t :=
  PoseObject.mk 0.107 (-0.248) 0.21 (-2.947) 1.242 (-2.934).

Definition mag_pos : PoseObject.t :=
  PoseObject.mk 0.091 (-0.254) 0.161 3.125 1.186 3.1.

Definition index0_pos : PoseObject.t :=
  PoseObject.mk 0.125 0.0 0.152 0.0 1.55 0.

Definition index1_pos : PoseObject.t :=
  PoseObject.mk 0.186 0.0 0.15 0.0 1.55 0.

Definition board_pos : list (PoseObject.t * PoseObject.t) :=
  [ (PoseObject.mk 0.168 0.314 0.223 (-0.06) (-0.016) 1.551,
     PoseObject.mk 0.164 0.316 0.208 0.063 (-0.006) 1.546) ].

(** ** The outside, and the monad of the controller *)

Inductive result (A : Type) :=
| Ok (a : A)
| Raise (e : exn)
| Diverge.
Arguments Ok {A} a.
Arguments Raise {A} e.
Arguments Diverge {A}.

(** The driver (or its simulation) with the operator at the console:
    [drv_call] is a call of a driver method, [drv_status] the read of
    [arm.hardware_status.value.hardware_errors[7]], [drv_input] the
    console's [input()]. *)
Record Driver (D : Type) := {
  drv_call : capability -> D -> outcome value * D;
  drv_status : D -> outcome Z * D;
  drv_input : D -> outcome unit * D
}.
Arguments drv_call {D} d c s.
Arguments drv_status {D} d s.
Arguments drv_input {D} d s.

(** The object, the driver behind it and what has happened so far. *)
Record World (D : Type) := {
  robot : Robot;
  driver : D;
  trace : list event
}.
Arguments robot {D} w.
Arguments driver {D} w.
Arguments trace {D} w.
Arguments Build_World {D} robot driver trace.

Section Controller.

Context {D : Type}.
Variable drv : Driver D.

Definition M (A : Type) : Type := World D -> result A * World D.

Definition ret {A} (a : A) : M A := fun w => (Ok a, w).

Definition raise {A} (e : exn) : M A := fun w => (Raise e, w).

Definition diverge {A} : M A := fun w => (Diverge, w).

Definition bind {A B} (m : M A) (k : A -> M B) : M B :=
  fun w =>
    match m w with
    | (Ok a, w') => k a w'
    | (Raise e, w') => (Raise e, w')
    | (Diverge, w') => (Diverge, w')
    end.

Notation "x <- m ;; k" := (bind m (fun x => k))
  (at level 61, m at next level, right associativity).
Notation "m ;; k" := (bind m (fun _ => k))
  (at level 61, right associativity).

(** [try: m except: h]. *)
Definition try_except {A} (m : M A) (h : exn -> M A) : M A :=
  fun w =>
    match m w with
    | (Raise e, w') => h e w'
    | r => r
    end.

(** [try: m finally: f]: [f] runs when [m] returns and when it raises;
    what [f] raises replaces what [m] did. *)
Definition try_finally {A} (m : M A) (f : M unit) : M A :=
  fun w =>
    match m w with
    | (Diverge, w') => (Diverge, w')
    | (r, w') =>
        match f w' with
        | (Ok _, w'') => (r, w'')
        | (Raise e, w'') => (Raise e, w'')
        | (Diverge, w'') => (Diverge, w'')
        end
    end.

Definition emit (e : event) : M unit :=
  fun w => (Ok tt, {| robot := robot w; driver := driver w;
                      trace := trace w ++ [e] |}).

Definition log (l : level) (m : message) : M unit := emit (Log l m).

Definition self : M Robot := fun w => (Ok (robot w), w).

Definition update (f : Robot -> Robot) : M unit :=
  fun w => (Ok tt, {| robot := f (robot w); driver := driver w;
                      trace := trace w |}).

(** A call into the outside: the driver moves on, the call is recorded,
    and its exception, if any, is raised here. *)
Definition outside {A} (f : D -> outcome A * D) (ev : outcome A -> event)
  : M A :=
  fun w =>
    let (o, d) := f (driver w) in
    let w' := {| robot := robot w; driver := d;
                 trace := trace w ++ [ev o] |} in
    match o with
    | Ret a => (Ok a, w')
    | Exc e => (Raise e, w')
    end.

(** The call of [action] on its arguments: calling what is not callable
    raises [TypeError] before anything reaches the driver. *)
Definition call (a : action) : M value :=
  match act_body a with
  | Some c => outside (drv_call drv c) (Invoke c)
  | None => raise TypeError
  end.

Definition input : M unit := outside (drv_input drv) (fun _ => Input).

Definition sleep : M unit := emit Sleep.

(** ** [Robot]'s fields *)

Definition set_belt_lock (b : bool) (r : Robot) : Robot :=
  {| conveyor_id := conveyor_id r; belt_lock := b;
     current_piece_count := current_piece_count r;
     current_stack_count := current_stack_count r;
     board_calibrated := board_calibrated r;
     magazine_ready := magazine_ready r |}.

Definition set_current_piece_count (n : Z) (r : Robot) : Robot :=
  {| conveyor_id := conveyor_id r; belt_lock := belt_lock r;
     current_piece_count := n;
     current_stack_count := current_stack_count r;
     board_calibrated := board_calibrated r;
     magazine_ready := magazine_ready r |}.

Definition set_current_stack_count (n : Z) (r : Robot) : Robot :=
  {| conveyor_id := conveyor_id r; belt_lock := belt_lock r;
     current_piece_count := current_piece_count r;
     current_stack_count := n;
     board_calibrated := board_calibrated r;
     magazine_ready := magazine_ready r |}.

Definition set_board_calibrated (b : bool) (r : Robot) : Robot :=
  {| conveyor_id := conveyor_id r; belt_lock := belt_lock r;
     current_piece_count := current_piece_count r;
     current_stack_count := current_stack_count r;
     board_calibrated := b;
     magazine_ready := magazine_ready r |}.

Definition set_magazine_ready (b : bool) (r : Robot) : Robot :=
  {| conveyor_id := conveyor_id r; belt_lock := belt_lock r;
     current_piece_count := current_piece_count r;
     current_stack_count := current_stack_count r;
     board_calibrated := board_calibrated r;
     magazine_ready := b |}.

(** An assignment to [self.__current_stack_count]. *)
Definition assign_stack_count (n : Z) : M unit :=
  r <- self ;;
  update (set_current_stack_count n) ;;
  emit (StackCount (current_stack_count r) n).

(** [threading.Lock]: acquiring a lock that is held blocks; in a run of
    one thread alone nobody will release it. *)
Definition acquire : M unit :=
  r <- self ;;
  if belt_lock r then diverge
  else update (set_belt_lock true) ;; emit Acquire.

Definition release : M unit :=
  update (set_belt_lock false) ;; emit Release.

(** [with self.__belt_lock: body]. *)
Definition with_belt_lock {A} (body : M A) : M A :=
  acquire ;; try_finally body release.

(** [threading.Thread(target=self.__move_pieces_on_belt,
    args=(direction,)).start()]: the thread is started and not joined;
    its body is [move_pieces_on_belt] below. *)
Definition start_belt_thread (direction : ConveyorDirection) : M unit :=
  emit (Start direction).

(** ** [__execute_robot_action] (lines 248-269) *)

Definition three_dot : string := "...".

Fixpoint retry_loop (fuel : nat) (name : option string) (a : action)
  : M value :=
  match fuel with
  | O => diverge
  | S fuel' =>
      try_except (call a)
        (fun e =>
           match e with
           | TypeError => log critical CodingError ;; raise TypeError
           | RosTimeoutError =>
               log warning
                 (RetryingAction
                    (match name with None => three_dot | Some n => n end)) ;;
               retry_loop fuel' name a
           | _ => raise e
           end)
  end.

Definition execute_robot_action (fuel : nat) (a : action) : M value :=
  retry_loop fuel (act_name a) a.

(** ** [__move_to_pos], [__move_to_home] (lines 272-281) *)

Definition move_to_pos (fuel : nat) (pos : PoseObject.t) : M unit :=
  execute_robot_action fuel (method (move_pose pos)) ;;
  log info (MovedToPosition pos).

Definition move_to_home (fuel : nat) : M unit :=
  move_to_pos fuel better_home_pos ;;
  log info MovedHome.

(** ** [__control_gripper] (lines 283-305) *)

Definition read_tool_state : M Z := outside (drv_status drv) ReadStatus.

Fixpoint tool_state_loop (fuel : nat) (inner : nat) (tool_state : Z)
  : M unit :=
  match fuel with
  | O => diverge
  | S fuel' =>
      if tool_state =? 0 then ret tt
      else
        log warning GripperRestart ;;
        execute_robot_action inner (method update_tool) ;;
        tool_state' <- read_tool_state ;;
        tool_state_loop fuel' inner tool_state'
  end.

Definition control_gripper (fuel : nat) (act : GripperAction) : M unit :=
  try_except
    (tool_state <- read_tool_state ;;
     tool_state_loop fuel fuel tool_state)
    (fun e =>
       match e with
       | IndexError => log info SkippingStatus
       | _ => raise e
       end) ;;
  match act with
  | OPEN => execute_robot_action fuel (method release_with_tool) ;; ret tt
  | CLOSE => execute_robot_action fuel (method grasp_with_tool) ;; ret tt
  end.

(** ** [__slow_arm_control] (lines 324-335)

    The context manager with the body of its [with] block. *)
Definition slow_arm_control {A} (fuel : nat) (slow_speed : Z) (body : M A)
  : M A :=
  execute_robot_action fuel (method (set_arm_max_velocity slow_speed)) ;;
  try_finally body
    (execute_robot_action fuel (method (set_arm_max_velocity 100)) ;; ret tt).

(** ** [__calibrate_board] (lines 308-322) *)

Fixpoint calibrate_rows (fuel : nat)
  (rows : list (PoseObject.t * PoseObject.t)) : M unit :=
  match rows with
  | [] => ret tt
  | board_row :: rows' =>
      move_to_pos fuel (fst board_row) ;;
      slow_arm_control fuel 30
        (move_to_pos fuel (snd board_row) ;;
         log info WaitingForBoard ;;
         input ;;
         move_to_pos fuel (fst board_row)) ;;
      calibrate_rows fuel rows'
  end.

Definition calibrate_board (fuel : nat) : M unit :=
  calibrate_rows fuel board_pos ;;
  move_to_home fuel ;;
  update (set_board_calibrated true).

(** ** [__move_pieces_on_belt] (lines 231-245): the body of a belt thread *)

Definition move_pieces_on_belt (fuel : nat) (direction : ConveyorDirection)
  : M unit :=
  with_belt_lock
    (log info BeltLockedByThread ;;
     log info (ConveyorMoving "left") ;;
     r <- self ;;
     execute_robot_action fuel
       (method (run_conveyor (conveyor_id r) 25 direction)) ;;
     sleep ;;
     r <- self ;;
     execute_robot_action fuel (method (stop_conveyor (conveyor_id r))) ;;
     log info BeltLockRemoved).

(** ** [set_up_game] (lines 141-194) *)

Definition load_slot_pos (stack_count : Z) : PoseObject.t :=
  if stack_count =? 0 then index0_pos else index1_pos.

(** The body of the [with self.__belt_lock] block (lines 180-187). *)
Definition place_piece (fuel : nat) : M unit :=
  log info BeltLockedForPlacing ;;
  r <- self ;;
  move_to_pos fuel (load_slot_pos (current_stack_count r)) ;;
  r <- self ;;
  assign_stack_count (current_stack_count r + 1) ;;
  control_gripper fuel OPEN ;;
  move_to_home fuel.

(** What follows the block (lines 190-194). *)
Definition advance_when_full (piece_count : Z) : M unit :=
  r <- self ;;
  if (current_stack_count r =? 2)
     && negb (current_piece_count r =? piece_count)
  then
    log info StackFull ;;
    assign_stack_count 0 ;;
    start_belt_thread BACKWARD
  else ret tt.

(** One turn of the [while] loop (lines 156-194). *)
Definition set_up_piece (fuel : nat) (piece_count : Z) : M unit :=
  r <- self ;;
  log info (SettingUpPiece (current_piece_count r)) ;;
  log info (PlacedOnPosition (current_stack_count r + 1)) ;;
  update (set_current_piece_count (current_piece_count r + 1)) ;;
  move_to_pos fuel mag_pos_bef ;;
  slow_arm_control fuel 30
    (move_to_pos fuel mag_pos ;;
     control_gripper fuel CLOSE ;;
     move_to_pos fuel mag_pos_bef) ;;
  move_to_home fuel ;;
  r <- self ;;
  (if board_calibrated r then ret tt else calibrate_board fuel) ;;
  with_belt_lock (place_piece fuel) ;;
  advance_when_full piece_count.

Fixpoint set_up_loop (fuel : nat) (inner : nat) (piece_count : Z) : M unit :=
  match fuel with
  | O => diverge
  | S fuel' =>
      r <- self ;;
      if current_piece_count r =? piece_count then ret tt
      else set_up_piece inner piece_count ;;
           set_up_loop fuel' inner piece_count
  end.

Definition set_up_game (fuel : nat) (piece_count : Z) : M unit :=
  r <- self ;;
  (if magazine_ready r then ret tt
   else
     move_to_pos fuel mag_pos_bef ;;
     move_to_pos fuel mag_pos ;;
     log info MagazinePlacement ;;
     log info PressEnterMagazine ;;
     input ;;
     move_to_home fuel ;;
     update (set_magazine_ready true)) ;;
  set_up_loop fuel fuel piece_count.

(** ** [grab_piece] (lines 197-214) *)

Definition grab_slot_pos (stack_count : Z) : PoseObject.t :=
  if stack_count =? 1 then index0_pos else index1_pos.

(** The body of the [with self.__belt_lock] block (lines 204-208). *)
Definition take_piece (fuel : nat) : M unit :=
  r <- self ;;
  move_to_pos fuel (grab_slot_pos (current_stack_count r)) ;;
  control_gripper fuel CLOSE ;;
  move_to_home fuel ;;
  r <- self ;;
  assign_stack_count (current_stack_count r - 1) ;;
  r <- self ;;
  update (set_current_piece_count (current_piece_count r - 1)).

(** What follows the block (lines 211-214). *)
Definition advance_when_empty : M unit :=
  r <- self ;;
  if (current_stack_count r =? 0) && negb (current_piece_count r =? 0)
  then
    assign_stack_count 2 ;;
    start_belt_thread FORWARD
  else ret tt.

Definition grab_piece (fuel : nat) : M unit :=
  r <- self ;;
  if current_piece_count r =? 0 then ret tt
  else
    with_belt_lock (take_piece fuel) ;;
    advance_when_empty.

(** ** [drop_piece_to_board] (lines 217-224) *)

(** [t[index]] on a tuple: a negative index counts from the end. *)
Definition tuple_get {A} (t : list A) (index : Z) : option A :=
  let i := if index <? 0 then index + Z.of_nat (List.length t) else index in
  if (0 <=? i) && (i <? Z.of_nat (List.length t))
  then nth_error t (Z.to_nat i)
  else None.

Definition subscript {A} (t : list A) (index : Z) : M A :=
  match tuple_get t index with
  | Some a => ret a
  | None => raise IndexError
  end.

Definition drop_piece_to_board (fuel : nat) (index : Z) : M unit :=
  board_row <- subscript board_pos index ;;
  move_to_pos fuel (fst board_row) ;;
  board_row <- subscript board_pos index ;;
  move_to_pos fuel (snd board_row) ;;
  control_gripper fuel OPEN ;;
  board_row <- subscript board_pos index ;;
  move_to_pos fuel (fst board_row) ;;
  move_to_home fuel.

(** ** Sessions: sequences of load and grab calls *)

Inductive operation :=
| Load (piece_count : Z)
| Grab.

Definition run_operation (fuel : nat) (o : operation) : M unit :=
  match o with
  | Load piece_count => set_up_game fuel piece_count
  | Grab => grab_piece fuel
  end.

Fixpoint run_operations (fuel : nat) (os : list operation) : M unit :=
  match os with
  | [] => ret tt
  | o :: os' => run_operation fuel o ;; run_operations fuel os'
  end.

End Controller.

(** ** A simulated driver

    [faults] are raised, one per call of a driver method, before the
    calls start to succeed with [answer]; [statuses] are what the reads
    of the hardware status slot give, one per read, and [idle_status]
    once they are used up.  The operator always presses enter. *)
Module Fake.

Record t := {
  faults : list exn;
  answer : value;
  statuses : list (outcome Z);
  idle_status : outcome Z;
  max_velocity : Z;
  conveyor_running : bool
}.

Definition effect (c : capability) (s : t) : t :=
  match c with
  | set_arm_max_velocity v =>
      {| faults := faults s; answer := answer s; statuses := statuses s;
         idle_status := idle_status s; max_velocity := v;
         conveyor_running := conveyor_running s |}
  | run_conveyor _ _ _ =>
      {| faults := faults s; answer := answer s; statuses := statuses s;
         idle_status := idle_status s; max_velocity := max_velocity s;
         conveyor_running := true |}
  | stop_conveyor _ =>
      {| faults := faults s; answer := answer s; statuses := statuses s;
         idle_status := idle_status s; max_velocity := max_velocity s;
         conveyor_running := false |}
  | _ => s
  end.

Definition call (c : capability) (s : t) : outcome value * t :=
  match faults s with
  | e :: rest =>
      (Exc e,
       {| faults := rest; answer := answer s; statuses := statuses s;
          idle_status := idle_status s; max_velocity := max_velocity s;
          conveyor_running := conveyor_running s |})
  | [] => (Ret (answer s), effect c s)
  end.

Definition status (s : t) : outcome Z * t :=
  match statuses s with
  | o :: rest =>
      (o,
       {| faults := faults s; answer := answer s; statuses := rest;
          idle_status := idle_status s; max_velocity := max_velocity s;
          conveyor_running := conveyor_running s |})
  | [] => (idle_status s, s)
  end.

Definition input (s : t) : outcome unit * t := (Ret tt, s).

(** A driver that always succeeds and whose status slot reads zero. *)
Definition healthy : t :=
  {| faults := []; answer := VNone; statuses := []; idle_status := Ret 0;
     max_velocity := 100; conveyor_running := false |}.

(** A session right after [__init__], on driver state [d]. *)
Definition session (d : t) : World t :=
  {| robot := fresh (VInt 1); driver := d; trace := [] |}.

Definition driver : Driver t :=
  {| drv_call := call; drv_status := status; drv_input := input |}.

End Fake.

(** ** The simulator

    Niryo's simulation as the controller sees it: every method returns,
    there is no status slot, the operator presses enter.  Its state is
    the number of calls made so far. *)
Module Simulator.

Definition call (c : capability) (calls : nat) : outcome value * nat :=
  (Ret VNone, S calls).

Definition status (calls : nat) : outcome Z * nat :=
  (Exc IndexError, calls).

Definition input (calls : nat) : outcome unit * nat := (Ret tt, calls).

Definition session : World nat :=
  {| robot := fresh (VInt 1); driver := 0%nat; trace := [] |}.

Definition driver : Driver nat :=
  {| drv_call := call; drv_status := status; drv_input := input |}.

End Simulator.

(** ** Vocabulary of the properties *)

(** Events that neither touch the belt nor the lock nor the staged
    count: arm and gripper calls, status reads, log lines, prompts. *)
Definition neutral (e : event) : bool :=
  match e with
  | Invoke (run_conveyor _ _ _) _ => false
  | Invoke (stop_conveyor _) _ => false
  | Invoke _ _ => true
  | ReadStatus _ => true
  | Log _ _ => true
  | Input => true
  | Sleep => false
  | Acquire => false
  | Release => false
  | Start _ => false
  | StackCount _ _ => false
  end.

(** Driver methods other than the conveyor's leave only neutral events. *)
Definition off_belt (c : capability) : bool :=
  match c with
  | run_conveyor _ _ _ | stop_conveyor _ => false
  | _ => true
  end.

(** The events that touch the belt, the lock or the staged count. *)
Definition belt_events (t : list event) : list event :=
  filter (fun e => negb (neutral e)) t.

(** The part of the object the belt bookkeeping lives in. *)
Definition belt_fields (r : Robot) : value * bool * Z * Z :=
  (conveyor_id r, belt_lock r, current_piece_count r, current_stack_count r).

Definition same_belt (r r' : Robot) : Prop := belt_fields r' = belt_fields r.

(** [w'] comes after [w] by neutral events only, with the belt
    bookkeeping untouched. *)
Definition quiet_after {D} (w w' : World D) : Prop :=
  same_belt (robot w) (robot w') /\
  exists t, trace w' = trace w ++ t /\ forallb neutral t = true.

(** A computation is quiet when every run of it, whatever its result,
    is. *)
Definition quiet {D A} (m : @M D A) : Prop :=
  forall w, quiet_after w (snd (m w)).

(** A driver that never fails: every driver method returns, the status
    slot reads zero or is not there, and the operator confirms. *)
Definition fault_free {D} (drv : Driver D) : Prop :=
  (forall c s, exists v, fst (drv_call drv c s) = Ret v) /\
  (forall s, fst (drv_status drv s) = Ret 0 \/
             fst (drv_status drv s) = Exc IndexError) /\
  (forall s, fst (drv_input drv s) = Ret tt).

(** A computation is calm when every run of it returns and is quiet. *)
Definition calm {D A} (m : @M D A) : Prop :=
  forall w, exists a w', m w = (Ok a, w') /\ quiet_after w w'.

(** The staged count and the belt events a load turn and a grab leave. *)
Definition full_after_load (piece_count c s : Z) : bool :=
  (s + 1 =? 2) && negb (c + 1 =? piece_count).

Definition empty_after_grab (c s : Z) : bool :=
  (s - 1 =? 0) && negb (c - 1 =? 0).

(** The belt events of [k] turns of the loading loop with target
    [piece_count], begun with [c] pieces of which [s] are staged, and
    the staged count after them. *)
Fixpoint load_events (k : nat) (piece_count c s : Z) : list event :=
  match k with
  | O => []
  | S k' =>
      [Acquire; StackCount s (s + 1); Release] ++
      (if full_after_load piece_count c s
       then [StackCount (s + 1) 0; Start BACKWARD]
       else []) ++
      load_events k' piece_count (c + 1)
        (if full_after_load piece_count c s then 0 else s + 1)
  end.

Fixpoint load_stack (k : nat) (piece_count c s : Z) : Z :=
  match k with
  | O => s
  | S k' =>
      load_stack k' piece_count (c + 1)
        (if full_after_load piece_count c s then 0 else s + 1)
  end.

Definition is_placement (e : event) : bool :=
  match e with
  | StackCount old new => new =? old + 1
  | _ => false
  end.

Definition is_start (e : event) : bool :=
  match e with Start _ => true | _ => false end.

(** Pieces put on the belt, and belt threads started. *)
Definition placements (t : list event) : nat :=
  List.length (filter is_placement t).

Definition belt_advances (t : list event) : nat :=
  List.length (filter is_start t).

(** The staged count that goes with [c] pieces after one load from an
    empty belt: pairs behind, and the last pair or single piece in
    front. *)
Definition settled (c s : Z) : Prop :=
  (c = 0 /\ s = 0) \/
  exists q, 0 <= q /\ ((c = 2 * q + 2 /\ s = 2) \/ (c = 2 * q + 1 /\ s = 1)).

(** A slot holds a piece, in the data model of the specification: the
    staged pieces take slot 0 first, then slot 1. *)
Definition slot_occupied (stack_count : Z) (pos : PoseObject.t) : Prop :=
  (pos = index0_pos /\ 1 <= stack_count) \/
  (pos = index1_pos /\ 2 <= stack_count).

(** What every returned load and grab keeps. *)
Definition supplied (c s : Z) : Prop :=
  0 <= c /\ 0 <= s /\ (c <> 0 -> 1 <= s).

(** The driver state after [n] calls of [c] in a row that each raised
    the transient timeout, when that is what the driver does. *)
Fixpoint after_timeouts {D} (drv : Driver D) (c : capability) (n : nat)
  (d : D) : option D :=
  match n with
  | O => Some d
  | S n' =>
      match drv_call drv c d with
      | (Exc RosTimeoutError, d') => after_timeouts drv c n' d'
      | _ => None
      end
  end.

(** What [n] timed-out attempts leave in the trace. *)
Fixpoint retries (name : string) (c : capability) (n : nat) : list event :=
  match n with
  | O => []
  | S n' =>
      Invoke c (Exc RosTimeoutError) :: Log warning (RetryingAction name)
        :: retries name c n'
  end.

Definition is_invoke (e : event) : bool :=
  match e with Invoke _ _ => true | _ => false end.

(** How often the driver was called. *)
Definition invocations (t : list event) : nat :=
  List.length (filter is_invoke t).

Definition result_of {A} (o : outcome A) : result A :=
  match o with
  | Ret a => Ok a
  | Exc e => Raise e
  end.

(** The critical log line of the [except TypeError] branch. *)
Definition reported (o : outcome value) : list event :=
  match o with
  | Exc TypeError => [Log critical CodingError]
  | _ => []
  end.

Definition shown_name (a : action) : string :=
  match act_name a with
  | None => three_dot
  | Some n => n
  end.

(** The driver method behind a gripper action (lines 298-305). *)
Definition grip_method (act : GripperAction) : capability :=
  match act with
  | OPEN => release_with_tool
  | CLOSE => grasp_with_tool
  end.

(** [n] reads of the status slot in a row that give a non-zero code,
    each answered by an [update_tool] that returns: the codes read with
    the values returned, and the driver state after them. *)
Fixpoint recovering {D} (drv : Driver D) (n : nat) (d : D)
  : option (list (Z * value) * D) :=
  match n with
  | O => Some ([], d)
  | S n' =>
      match drv_status drv d with
      | (Ret code, d1) =>
          if code =? 0 then None
          else
            match drv_call drv update_tool d1 with
            | (Ret v, d2) =>
                match recovering drv n' d2 with
                | Some (l, d') => Some ((code, v) :: l, d')
                | None => None
                end
            | _ => None
            end
      | _ => None
      end
  end.

(** What the recovery loop leaves in the trace for these reads. *)
Fixpoint recovery_events (l : list (Z * value)) : list event :=
  match l with
  | [] => []
  | (code, v) :: l' =>
      ReadStatus (Ret code) :: Log warning GripperRestart
        :: Invoke update_tool (Ret v) :: recovery_events l'
  end.

(** The last read, and the log line when the slot is not there. *)
Definition status_settled (final : outcome Z) : list event :=
  match final with
  | Exc IndexError => [ReadStatus final; Log info SkippingStatus]
  | _ => [ReadStatus final]
  end.

Definition is_reinitialize (e : event) : bool :=
  match e with Invoke update_tool _ => true | _ => false end.

Definition reinitializations (t : list event) : nat :=
  List.length (filter is_reinitialize t).

Definition is_grip (e : event) : bool :=
  match e with
  | Invoke release_with_tool _ | Invoke grasp_with_tool _ => true
  | _ => false
  end.

(** The lock as one thread sees it after an event of its own. *)
Definition lock_after (held : bool) (e : event) : bool :=
  match e with
  | Acquire => true
  | Release => false
  | _ => held
  end.

(** The lock discipline as the specification states it: the conveyor
    calls, the settle wait and every assignment to the staged count
    happen with the lock held. *)
Definition spec_guard (held : bool) (e : event) : bool :=
  match e with
  | Invoke (run_conveyor _ _ _) _ => held
  | Invoke (stop_conveyor _) _ => held
  | Sleep => held
  | StackCount _ _ => held
  | Acquire => negb held
  | Release => held
  | _ => true
  end.

(** The lock discipline the code follows: the conveyor calls, the settle
    wait and the counting of a placed or taken piece (one up, one down)
    happen with the lock held; the resets of the staged count, from 2 to
    0 and from 0 to 2, happen with the lock not held. *)
Definition code_guard (held : bool) (e : event) : bool :=
  match e with
  | Invoke (run_conveyor _ _ _) _ => held
  | Invoke (stop_conveyor _) _ => held
  | Sleep => held
  | StackCount old new =>
      if held then (new =? old + 1) || (new =? old - 1)
      else ((old =? 2) && (new =? 0)) || ((old =? 0) && (new =? 2))
  | Acquire => negb held
  | Release => held
  | _ => true
  end.

(** Conveyor motion and slot bookkeeping. *)
Definition touches_belt (e : event) : bool :=
  match e with
  | Invoke (run_conveyor _ _ _) _ => true
  | Invoke (stop_conveyor _) _ => true
  | Sleep => true
  | StackCount old new => (new =? old + 1) || (new =? old - 1)
  | _ => false
  end.

(** A thread's events checked against a discipline, from lock state
    [held]: the lock state at the end, or [None] when an event breaks
    the discipline. *)
Fixpoint discipline (guard : bool -> event -> bool) (held : bool)
  (t : list event) : option bool :=
  match t with
  | [] => Some held
  | e :: t' =>
      if guard held e then discipline guard (lock_after held e) t'
      else None
  end.

(** What a thread runs: the foreground thread a session of loads and
    grabs, a started belt thread [__move_pieces_on_belt]. *)
Inductive thread_body :=
| Foreground (os : list operation)
| BeltThread (direction : ConveyorDirection).

Definition run_thread {D} (drv : Driver D) (fuel : nat) (b : thread_body)
  : M unit :=
  match b with
  | Foreground os => run_operations drv fuel os
  | BeltThread direction => move_pieces_on_belt drv fuel direction
  end.

(** Threads running together: the events of all of them in the order
    they happen, each with the thread it belongs to. *)
Definition schedule := list (nat * event).

Definition thread_events (i : nat) (s : schedule) : list event :=
  map snd (filter (fun x => Nat.eqb (fst x) i) s).

(** [threading.Lock] across threads: thread [i] acquires a free lock or
    releases the lock it holds; [None] when it would acquire a lock that
    is held or release one it does not hold. *)
Definition lock_step (h : option nat) (i : nat) (e : event)
  : option (option nat) :=
  match e with
  | Acquire =>
      match h with
      | None => Some (Some i)
      | Some _ => None
      end
  | Release =>
      match h with
      | Some j => if Nat.eqb i j then Some None else None
      | None => None
      end
  | _ => Some h
  end.

(** Who holds the lock after the schedule, or [None] when the schedule
    is not one the lock allows. *)
Fixpoint holder (h : option nat) (s : schedule) : option (option nat) :=
  match s with
  | [] => Some h
  | (i, e) :: s' =>
      match lock_step h i e with
      | Some h' => holder h' s'
      | None => None
      end
  end.

(** Since the world [w0] a thread started in, its events follow the
    discipline and leave the lock as the object has it. *)
Definition in_order {D} (w0 w : World D) : Prop :=
  exists t, trace w = trace w0 ++ t /\
            discipline code_guard false t = Some (belt_lock (robot w)).

Definition in_order_with {D} (w0 : World D) (held : bool) (w : World D)
  : Prop :=
  in_order w0 w /\ belt_lock (robot w) = held.

(** [m] keeps the discipline and the lock state [held]. *)
Definition keeps {D A} (w0 : World D) (held : bool) (m : @M D A) : Prop :=
  forall w, in_order_with w0 held w -> in_order_with w0 held (snd (m w)).

(** [m], begun without the lock, keeps the discipline and ends without
    the lock, unless it does not end. *)
Definition tidy {D A} (w0 : World D) (m : @M D A) : Prop :=
  forall w, in_order_with w0 false w ->
            in_order w0 (snd (m w)) /\
            (fst (m w) <> Diverge -> belt_lock (robot (snd (m w))) = false).

(** ** One holding for a whole critical section

    Where a thread stands with respect to the lock and the conveyor:
    outside every [with self.__belt_lock] block; inside one, the
    conveyor not started; with the conveyor running, once
    [run_conveyor] has returned; settling, once the wait is over;
    finished, once [stop_conveyor] has returned or raised anything but
    the transient timeout. *)
Inductive phase := Outside | Inside | Running | Settling | Finished.

Definition holds_lock (p : phase) : bool :=
  match p with
  | Outside => false
  | _ => true
  end.

(** What an event of the thread does to its phase, [None] when the
    event has no place there.  The lock is taken outside and released
    from inside or when finished, never between the start of the
    conveyor and the attempt to stop it; the conveyor is started inside,
    the wait follows the start, the stop follows the wait; a piece is
    counted inside, the staged count reset outside. *)
Definition section_step (p : phase) (e : event) : option phase :=
  match e with
  | Acquire =>
      match p with Outside => Some Inside | _ => None end
  | Release =>
      match p with Inside | Finished => Some Outside | _ => None end
  | Invoke (run_conveyor _ _ _) o =>
      match p, o with
      | Inside, Ret _ => Some Running
      | Inside, Exc _ => Some Inside
      | _, _ => None
      end
  | Sleep =>
      match p with Running => Some Settling | _ => None end
  | Invoke (stop_conveyor _) o =>
      match p, o with
      | Settling, Exc RosTimeoutError => Some Settling
      | Settling, _ => Some Finished
      | _, _ => None
      end
  | StackCount old new =>
      match p with
      | Inside =>
          if (new =? old + 1) || (new =? old - 1) then Some Inside else None
      | Outside =>
          if ((old =? 2) && (new =? 0)) || ((old =? 0) && (new =? 2))
          then Some Outside else None
      | _ => None
      end
  | _ => Some p
  end.

(** The phase a thread is in after its events [t], begun in phase [p];
    [None] when some event had no place. *)
Fixpoint unbroken (p : phase) (t : list event) : option phase :=
  match t with
  | [] => Some p
  | e :: t' =>
      match section_step p e with
      | Some q => unbroken q t'
      | None => None
      end
  end.

Definition is_lock_event (e : event) : bool :=
  match e with
  | Acquire | Release => true
  | _ => false
  end.

(** The conveyor's calls and the settle wait. *)
Definition on_conveyor (e : event) : bool :=
  match e with
  | Invoke (run_conveyor _ _ _) _ => true
  | Invoke (stop_conveyor _) _ => true
  | Sleep => true
  | _ => false
  end.

(** A computation that never runs the conveyor. *)
Definition off_conveyor {D A} (m : @M D A) : Prop :=
  forall w, exists t,
    trace (snd (m w)) = trace w ++ t /\
    forallb (fun e => negb (on_conveyor e)) t = true.

(** ** Drivers that do not recover

    [timing_out] raises the transient timeout on every call;
    [overheated] answers every call but its status slot never clears.
    The state of both is the number of calls made so far. *)
Module Stubborn.

Definition timing_out : Driver nat :=
  {| drv_call := fun _ calls => (Exc RosTimeoutError, S calls);
     drv_status := fun calls => (Ret 0, calls);
     drv_input := fun calls => (Ret tt, calls) |}.

Definition overheated : Driver nat :=
  {| drv_call := fun _ calls => (Ret VNone, S calls);
     drv_status := fun calls => (Ret 7, calls);
     drv_input := fun calls => (Ret tt, calls) |}.

End Stubborn.

(** A relation [R] on the object kept by a run: [w'] comes after [w]
    when the object is related and the trace has grown; a computation
    is framed by [R] when every run of it, whatever its result, ends
    after where it began. *)
Definition after {D} (R : Robot -> Robot -> Prop) (w w' : World D) : Prop :=
  R (robot w) (robot w') /\ exists t, trace w' = trace w ++ t.

Definition framed {D} (R : Robot -> Robot -> Prop) {A} (m : @M D A) : Prop :=
  forall w, after R w (snd (m w)).

(** What no operation undoes: the conveyor id stays, and a flag that
    is set stays set. *)
Definition steady (r r' : Robot) : Prop :=
  conveyor_id r' = conveyor_id r /\
  (magazine_ready r = true -> magazine_ready r' = true) /\
  (board_calibrated r = true -> board_calibrated r' = true).

(** The belt events of [k] calls of [grab_piece] in a row, begun with
    [c] pieces of which [s] are staged, and the counts after them. *)
Fixpoint grab_events (k : nat) (c s : Z) : list event :=
  match k with
  | O => []
  | S k' =>
      if c =? 0 then grab_events k' c s
      else
        [Acquire; StackCount s (s - 1); Release] ++
        (if empty_after_grab c s
         then [StackCount (s - 1) 2; Start FORWARD]
         else []) ++
        grab_events k' (c - 1) (if empty_after_grab c s then 2 else s - 1)
  end.

Fixpoint grab_counts (k : nat) (c s : Z) : Z * Z :=
  match k with
  | O => (c, s)
  | S k' =>
      if c =? 0 then grab_counts k' c s
      else grab_counts k' (c - 1) (if empty_after_grab c s then 2 else s - 1)
  end.

Definition is_start_of (direction : ConveyorDirection) (e : event) : bool :=
  match e, direction with
  | Start FORWARD, FORWARD => true
  | Start BACKWARD, BACKWARD => true
  | _, _ => false
  end.

(** Belt threads started in one direction. *)
Definition belt_advances_to (direction : ConveyorDirection)
  (t : list event) : nat :=
  List.length (filter (is_start_of direction) t).

(** Every assignment to the staged count in the trace gives it a value
    from 0 to 2. *)
Definition stack_count_in_range (e : event) : bool :=
  match e with
  | StackCount _ new => (0 <=? new) && (new <=? 2)
  | _ => true
  end.

(** ** The session around the object: [__init__], [end_robot],
    [__robotTest] (lines 65-120, 227-228, 339-360) *)

(** The driver calls of [__init__] and [end_robot]; they are not among
    the methods the operations hand to the executor. *)
Inductive setup_call :=
| NiryoRobot (robot_ip : string)
| calibrate_auto
| get_current_tool_id
| set_conveyor
| robot_end.

(** [action.__name__] of a setup call handed to the executor:
    [calibrate_auto] and [set_conveyor] are bound methods;
    [get_current_tool_id] is a callable object of the driver that has
    no [__name__], so the executor finds none. *)
Definition setup_call_name (c : setup_call) : option string :=
  match c with
  | NiryoRobot _ => Some "NiryoRobot"%string
  | calibrate_auto => Some "calibrate_auto"%string
  | get_current_tool_id => None
  | set_conveyor => Some "set_conveyor"%string
  | robot_end => Some "end"%string
  end.

(** The log lines of [__init__] and [__robotTest]. *)
Inductive session_message :=
| ConnectionFailed
| ArmCalibrated
| GripperNotDetected
| GripperReady
| ConveyorReady
| RobotInitFailed
| EndedWithKeyboardInterrupt.

Inductive session_level := on_info | on_error | on_critical | on_exception.

(** What happens in a session: what the operations do ([Core]), the
    setup calls, the session's own log lines, and the exit status handed
    to [sys.exit]. *)
Inductive session_event :=
| Core (e : event)
| Setup (c : setup_call) (o : outcome value)
| SessionLog (l : session_level) (m : session_message)
| ExitStatus (status : Z).

(** The driver with its setup calls and with [pyniryo2]'s table of the
    tool ids that are grippers ([ToolID.GRIPPER_1] to [GRIPPER_4]). *)
Record SessionDriver (D : Type) := {
  core_driver : Driver D;
  drv_setup : setup_call -> D -> outcome value * D;
  gripper_ids : list value
}.
Arguments core_driver {D} s.
Arguments drv_setup {D} s c d.
Arguments gripper_ids {D} s.

(** The object under construction or in use, the driver, the history. *)
Record Session (D : Type) := {
  object : Robot;
  sdriver : D;
  strace : list session_event
}.
Arguments object {D} s.
Arguments sdriver {D} s.
Arguments strace {D} s.
Arguments Build_Session {D} object sdriver strace.

Definition value_eqb (a b : value) : bool :=
  match a, b with
  | VNone, VNone => true
  | VInt m, VInt n => m =? n
  | _, _ => false
  end.

(** [KeyboardInterrupt] and [SystemExit] among the other exceptions. *)
Definition KeyboardInterrupt : exn := OtherError "KeyboardInterrupt".

Definition SystemExit : exn := OtherError "SystemExit".

Definition is_keyboard_interrupt (e : exn) : bool :=
  match e with
  | OtherError what => String.eqb what "KeyboardInterrupt"
  | _ => false
  end.

Definition set_conveyor_id (id : value) (r : Robot) : Robot :=
  {| conveyor_id := id; belt_lock := belt_lock r;
     current_piece_count := current_piece_count r;
     current_stack_count := current_stack_count r;
     board_calibrated := board_calibrated r;
     magazine_ready := magazine_ready r |}.

Section SessionLayer.

Context {D : Type}.
Variable sdrv : SessionDriver D.

Definition SM (A : Type) : Type := Session D -> result A * Session D.

Definition sret {A} (a : A) : SM A := fun s => (Ok a, s).

Definition sraise {A} (e : exn) : SM A := fun s => (Raise e, s).

Definition sdiverge {A} : SM A := fun s => (Diverge, s).

Definition sbind {A B} (m : SM A) (k : A -> SM B) : SM B :=
  fun s =>
    match m s with
    | (Ok a, s') => k a s'
    | (Raise e, s') => (Raise e, s')
    | (Diverge, s') => (Diverge, s')
    end.

Notation "x <- m ;; k" := (sbind m (fun x => k))
  (at level 61, m at next level, right associativity).
Notation "m ;; k" := (sbind m (fun _ => k))
  (at level 61, right associativity).

Definition stry_except {A} (m : SM A) (h : exn -> SM A) : SM A :=
  fun s =>
    match m s with
    | (Raise e, s') => h e s'
    | r => r
    end.

Definition stry_finally {A} (m : SM A) (f : SM unit) : SM A :=
  fun s =>
    match m s with
    | (Diverge, s') => (Diverge, s')
    | (r, s') =>
        match f s' with
        | (Ok _, s'') => (r, s'')
        | (Raise e, s'') => (Raise e, s'')
        | (Diverge, s'') => (Diverge, s'')
        end
    end.

Definition semit (e : session_event) : SM unit :=
  fun s => (Ok tt, {| object := object s; sdriver := sdriver s;
                      strace := strace s ++ [e] |}).

Definition slog (l : session_level) (m : session_message) : SM unit :=
  semit (SessionLog l m).

Definition supdate (f : Robot -> Robot) : SM unit :=
  fun s => (Ok tt, {| object := f (object s); sdriver := sdriver s;
                      strace := strace s |}).

(** A method of the object, run on the object of the session: what it
    does joins the history. *)
Definition lift {A} (m : M A) : SM A :=
  fun s =>
    let (r, w) := m {| robot := object s; driver := sdriver s;
                       trace := [] |} in
    (r, {| object := robot w; sdriver := driver w;
           strace := strace s ++ map Core (trace w) |}).

(** A setup call made directly. *)
Definition setup (c : setup_call) : SM value :=
  fun s =>
    let (o, d) := drv_setup sdrv c (sdriver s) in
    let s' := {| object := object s; sdriver := d;
                 strace := strace s ++ [Setup c o] |} in
    match o with
    | Ret v => (Ok v, s')
    | Exc e => (Raise e, s')
    end.

(** [__execute_robot_action] on a setup call (lines 76, 86, 97). *)
Fixpoint session_execute (fuel : nat) (c : setup_call) : SM value :=
  match fuel with
  | O => sdiverge
  | S fuel' =>
      stry_except (setup c)
        (fun e =>
           match e with
           | TypeError =>
               semit (Core (Log critical CodingError)) ;; sraise TypeError
           | RosTimeoutError =>
               semit (Core (Log warning
                              (RetryingAction
                                 (match setup_call_name c with
                                  | None => three_dot
                                  | Some n => n
                                  end)))) ;;
               session_execute fuel' c
           | _ => sraise e
           end)
  end.

(** [end_robot] (lines 227-228). *)
Definition end_robot : SM unit := setup robot_end ;; sret tt.

(** [__init__] (lines 65-120): the connection (lines 67-71), the body
    of the second [try] (lines 74-103), and the whole. *)
Definition connect (robot_ip : string) : SM unit :=
  stry_except (setup (NiryoRobot robot_ip) ;; sret tt)
    (fun e => slog on_critical ConnectionFailed ;; sraise e).

Definition bring_up (fuel : nat) : SM unit :=
  session_execute fuel calibrate_auto ;;
  slog on_info ArmCalibrated ;;
  lift (execute_robot_action (core_driver sdrv) fuel
          (method update_tool)) ;;
  current_tool_id <- session_execute fuel get_current_tool_id ;;
  (if existsb (value_eqb current_tool_id) (gripper_ids sdrv)
   then sret tt
   else slog on_error GripperNotDetected) ;;
  lift (control_gripper (core_driver sdrv) fuel OPEN) ;;
  slog on_info GripperReady ;;
  id <- session_execute fuel set_conveyor ;;
  supdate (set_conveyor_id id) ;;
  slog on_info ConveyorReady ;;
  lift (move_to_home (core_driver sdrv) fuel).

Definition init (fuel : nat) (robot_ip : string) : SM unit :=
  connect robot_ip ;;
  stry_except (bring_up fuel) (fun e => end_robot ;; sraise e) ;;
  supdate (fun r => fresh (conveyor_id r)).

(** The [while original_piece] loop of [__robotTest] (lines 351-354). *)
Fixpoint test_loop (fuel : nat) (inner : nat) (original_piece : Z)
  : SM unit :=
  match fuel with
  | O => sdiverge
  | S fuel' =>
      if original_piece =? 0 then sret tt
      else
        lift (grab_piece (core_driver sdrv) inner) ;;
        lift (drop_piece_to_board (core_driver sdrv) inner 0) ;;
        test_loop fuel' inner (original_piece - 1)
  end.

(** [__robotTest] (lines 339-360), with [args.ip] and [args.piece]:
    the body of its second [try] (lines 349-354) and the whole. *)
Definition test_body (fuel : nat) (piece : Z) : SM unit :=
  lift (set_up_game (core_driver sdrv) fuel piece) ;;
  test_loop fuel fuel piece.

Definition robot_test (fuel : nat) (ip : string) (piece : Z) : SM unit :=
  stry_except (init fuel ip)
    (fun e => slog on_exception RobotInitFailed ;; sraise e) ;;
  stry_finally
    (stry_except (test_body fuel piece)
       (fun e =>
          if is_keyboard_interrupt e
          then slog on_info EndedWithKeyboardInterrupt ;;
               semit (ExitStatus 130) ;;
               sraise SystemExit
          else sraise e))
    end_robot.

End SessionLayer.

(** The setup calls made, in order, and the calls of [end] among
    them. *)
Fixpoint setup_calls (t : list session_event) : list setup_call :=
  match t with
  | [] => []
  | Setup c _ :: t' => c :: setup_calls t'
  | _ :: t' => setup_calls t'
  end.

Definition is_end (c : setup_call) : bool :=
  match c with robot_end => true | _ => false end.

Definition teardowns (t : list session_event) : nat :=
  List.length (filter is_end (setup_calls t)).

(** The simulator with its setup calls: the connection and every call
    return, no gripper is attached (tool id 0), the conveyor handed out
    has id 1. *)
Module SimulatorSession.

Definition setup (c : setup_call) (calls : nat) : outcome value * nat :=
  match c with
  | get_current_tool_id => (Ret (VInt 0), S calls)
  | set_conveyor => (Ret (VInt 1), S calls)
  | _ => (Ret VNone, S calls)
  end.

Definition driver : SessionDriver nat :=
  {| core_driver := Simulator.driver;
     drv_setup := setup;
     gripper_ids := [VInt 11; VInt 12; VInt 13; VInt 14] |}.

(** Before [__init__]: the fields of the object hold nothing yet. *)
Definition start (r : Robot) : Session nat :=
  {| object := r; sdriver := 0%nat; strace := [] |}.

End SimulatorSession.

(** ** Vocabulary of the session's properties *)

(** The object and the driver of a session as a method of the object
    finds them. *)
Definition view {D} (s : Session D) : World D :=
  {| robot := object s; driver := sdriver s; trace := [] |}.

(** What a session has got done: the setup calls that returned, its own
    log lines and its exit status.  What the methods of the object did
    and the setup calls that raised are left out. *)
Definition is_milestone (e : session_event) : bool :=
  match e with
  | Core _ => false
  | Setup _ (Exc _) => false
  | _ => true
  end.

Definition milestones (t : list session_event) : list session_event :=
  filter is_milestone t.

(** The milestones of an [__init__] that returned: the connection, the
    calibration, the tool id read, the complaint when it is not a
    gripper's, the conveyor handed out. *)
Definition init_milestones {D} (sdrv : SessionDriver D) (robot_ip : string)
  (v0 v1 current_tool_id id : value) : list session_event :=
  [Setup (NiryoRobot robot_ip) (Ret v0);
   Setup calibrate_auto (Ret v1);
   SessionLog on_info ArmCalibrated;
   Setup get_current_tool_id (Ret current_tool_id)] ++
  (if existsb (value_eqb current_tool_id) (gripper_ids sdrv)
   then []
   else [SessionLog on_error GripperNotDetected]) ++
  [SessionLog on_info GripperReady;
   Setup set_conveyor (Ret id);
   SessionLog on_info ConveyorReady].

(** A computation of the session that never calls [end]. *)
Definition unended {D A} (m : @SM D A) : Prop :=
  forall s, exists t,
    strace (snd (m s)) = strace s ++ t /\ teardowns t = 0%nat.

(** A computation of the session that returns from every state. *)
Definition sreturns {D A} (m : @SM D A) : Prop :=
  forall s, exists a s', m s = (Ok a, s').

(** A driver whose setup calls return, and one that never fails at
    all. *)
Definition setup_returns {D} (sdrv : SessionDriver D) : Prop :=
  forall c d, exists v, fst (drv_setup sdrv c d) = Ret v.

Definition session_fault_free {D} (sdrv : SessionDriver D) : Prop :=
  fault_free (core_driver sdrv) /\ setup_returns sdrv.

(** The same driver with an operator who presses enter. *)
Definition confirming {D} (drv : Driver D) : Driver D :=
  {| drv_call := drv_call drv;
     drv_status := drv_status drv;
     drv_input := fun d => (Ret tt, d) |}.

(** No robot at the address: the connection times out. *)
Module Unreachable.

Definition setup (c : setup_call) (calls : nat) : outcome value * nat :=
  match c with
  | NiryoRobot _ => (Exc RosTimeoutError, S calls)
  | _ => SimulatorSession.setup c calls
  end.

Definition driver : SessionDriver nat :=
  {| core_driver := Simulator.driver;
     drv_setup := setup;
     gripper_ids := gripper_ids SimulatorSession.driver |}.

End Unreachable.

(** The simulator with an operator who answers every prompt with
    ctrl-C. *)
Module Interrupted.

Definition input (calls : nat) : outcome unit * nat :=
  (Exc KeyboardInterrupt, calls).

Definition driver : SessionDriver nat :=
  {| core_driver :=
       {| drv_call := Simulator.call;
          drv_status := Simulator.status;
          drv_input := input |};
     drv_setup := SimulatorSession.setup;
     gripper_ids := gripper_ids SimulatorSession.driver |}.

End Interrupted.

(** The fake driver in a session: its setup calls return, the tool
    attached is gripper 1, the conveyor handed out has id 1. *)
Module FakeSession.

Definition setup (c : setup_call) (s : Fake.t) : outcome value * Fake.t :=
  match c with
  | get_current_tool_id => (Ret (VInt 11), s)
  | set_conveyor => (Ret (VInt 1), s)
  | _ => (Ret VNone, s)
  end.

Definition driver : SessionDriver Fake.t :=
  {| core_driver := Fake.driver;
     drv_setup := setup;
     gripper_ids := gripper_ids SimulatorSession.driver |}.

(** Before [__init__], on driver state [d]. *)
Definition start (d : Fake.t) : Session Fake.t :=
  {| object := fresh VNone; sdriver := d; strace := [] |}.

(** A driver state in which the next call of an arm, tool or conveyor
    method raises [e] and the calls after it return. *)
Definition failing (e : exn) : Fake.t :=
  {| Fake.faults := [e]; Fake.answer := VNone; Fake.statuses := [];
     Fake.idle_status := Ret 0; Fake.max_velocity := 100;
     Fake.conveyor_running := false |}.

End FakeSession.

(** ** Prompts, flags and the calibration of the board *)

(** The operator is asked to press enter. *)
Definition is_prompt (e : event) : bool :=
  match e with
  | Input => true
  | _ => false
  end.

Definition prompts (t : list event) : nat :=
  List.length (filter is_prompt t).

(** The magazine has been put in place and the board adjusted. *)
Definition ready (r : Robot) : Prop :=
  magazine_ready r = true /\ board_calibrated r = true.

(** [w'] comes after [w] with the object ready and nothing asked of
    the operator; a computation is unprompted when every run of it that
    begins ready ends so, whatever its result. *)
Definition unasked {D} (w w' : World D) : Prop :=
  ready (robot w') /\
  exists t, trace w' = trace w ++ t /\ prompts t = 0%nat.

Definition unprompted {D A} (m : @M D A) : Prop :=
  forall w, ready (robot w) -> unasked w (snd (m w)).

(** What calibrating one lane leaves in the trace when every call
    returns, with the values the five calls returned; and the same for
    the lanes in a row. *)
Definition lane_calibration (board_row : PoseObject.t * PoseObject.t)
  (v : value * value * value * value * value) : list event :=
  let '(v1, v2, v3, v4, v5) := v in
  [Invoke (move_pose (fst board_row)) (Ret v1);
   Log info (MovedToPosition (fst board_row));
   Invoke (set_arm_max_velocity 30) (Ret v2);
   Invoke (move_pose (snd board_row)) (Ret v3);
   Log info (MovedToPosition (snd board_row));
   Log info WaitingForBoard;
   Input;
   Invoke (move_pose (fst board_row)) (Ret v4);
   Log info (MovedToPosition (fst board_row));
   Invoke (set_arm_max_velocity 100) (Ret v5)].

Fixpoint lanes_calibration (rows : list (PoseObject.t * PoseObject.t))
  (vs : list (value * value * value * value * value)) : list event :=
  match rows, vs with
  | board_row :: rows', v :: vs' =>
      lane_calibration board_row v ++ lanes_calibration rows' vs'
  | _, _ => []
  end.

(** What is in the trace when the operator interrupts the calibration
    of a lane at its prompt. *)
Definition lane_interrupted (board_row : PoseObject.t * PoseObject.t)
  (v1 v2 v3 v5 : value) : list event :=
  [Invoke (move_pose (fst board_row)) (Ret v1);
   Log info (MovedToPosition (fst board_row));
   Invoke (set_arm_max_velocity 30) (Ret v2);
   Invoke (move_pose (snd board_row)) (Ret v3);
   Log info (MovedToPosition (snd board_row));
   Log info WaitingForBoard;
   Input;
   Invoke (set_arm_max_velocity 100) (Ret v5)].

(** ** Reasoning about runs *)

Lemma same_belt_refl r : same_belt r r.
Proof. reflexivity. Qed.

Lemma same_belt_trans r1 r2 r3 :
  same_belt r1 r2 -> same_belt r2 r3 -> same_belt r1 r3.
Proof. unfold same_belt. congruence. Qed.

Section Runs.

Context {D : Type}.
Variable drv : Driver D.

#[local] Abbreviation M := (@M D).
#[local] Abbreviation quiet_after := (@quiet_after D).
#[local] Abbreviation quiet := (@quiet D).
#[local] Abbreviation calm := (@calm D).

Lemma quiet_after_refl (w : World D) : quiet_after w w.
Proof.
  split; [apply same_belt_refl|].
  exists []. now rewrite app_nil_r.
Qed.

Lemma quiet_after_trans (w1 w2 w3 : World D) :
  quiet_after w1 w2 -> quiet_after w2 w3 -> quiet_after w1 w3.
Proof.
  intros [B1 [t1 [E1 N1]]] [B2 [t2 [E2 N2]]].
  split; [eapply same_belt_trans; eassumption|].
  exists (t1 ++ t2). split.
  - now rewrite E2, E1, app_assoc.
  - now rewrite forallb_app, N1, N2.
Qed.

Lemma quiet_ret {A} (a : A) : quiet (ret a).
Proof. intro w. apply quiet_after_refl. Qed.

Lemma quiet_raise {A} e : quiet (@raise D A e).
Proof. intro w. apply quiet_after_refl. Qed.

Lemma quiet_diverge {A} : quiet (@diverge D A).
Proof. intro w. apply quiet_after_refl. Qed.

Lemma quiet_self : quiet self.
Proof. intro w. apply quiet_after_refl. Qed.

Lemma quiet_bind {A B} (m : M A) (k : A -> M B) :
  quiet m -> (forall a, quiet (k a)) -> quiet (bind m k).
Proof.
  intros Hm Hk w. unfold bind. specialize (Hm w).
  destruct (m w) as [[a|e|] w1]; simpl in *; try assumption.
  eapply quiet_after_trans; [eassumption|apply Hk].
Qed.

Lemma quiet_try_except {A} (m : M A) (h : exn -> M A) :
  quiet m -> (forall e, quiet (h e)) -> quiet (try_except m h).
Proof.
  intros Hm Hh w. unfold try_except. specialize (Hm w).
  destruct (m w) as [[a|e|] w1]; simpl in *; try assumption.
  eapply quiet_after_trans; [eassumption|apply Hh].
Qed.

Lemma quiet_try_finally {A} (m : M A) (f : M unit) :
  quiet m -> quiet f -> quiet (try_finally m f).
Proof.
  intros Hm Hf w. unfold try_finally. specialize (Hm w).
  destruct (m w) as [[a|e|] w1]; simpl in *; try assumption;
    specialize (Hf w1); destruct (f w1) as [[[]|e'|] w2]; simpl in *;
    eapply quiet_after_trans; eassumption.
Qed.

Lemma quiet_emit e : neutral e = true -> quiet (emit e).
Proof.
  intros He w. split; [apply same_belt_refl|].
  exists [e]. simpl. now rewrite He.
Qed.

Lemma quiet_log l m : quiet (log l m).
Proof. now apply quiet_emit. Qed.

Lemma quiet_outside {A} (f : D -> outcome A * D) (ev : outcome A -> event) :
  (forall o, neutral (ev o) = true) -> quiet (outside f ev).
Proof.
  intros He w. unfold outside.
  destruct (f (driver w)) as [o d] eqn:E.
  assert (Q : quiet_after w
                {| robot := robot w; driver := d;
                   trace := trace w ++ [ev o] |}).
  { split; [apply same_belt_refl|]. exists [ev o]. simpl. now rewrite He. }
  destruct o; exact Q.
Qed.

Lemma quiet_input : quiet (input drv).
Proof. now apply quiet_outside. Qed.

Lemma quiet_read_tool_state : quiet (read_tool_state drv).
Proof. now apply quiet_outside. Qed.

Lemma quiet_update (f : Robot -> Robot) :
  (forall r, same_belt r (f r)) -> quiet (update f).
Proof.
  intros Hf w. split; [apply Hf|].
  exists []. simpl. now rewrite app_nil_r.
Qed.

Lemma quiet_call a :
  match act_body a with Some c => off_belt c = true | None => True end ->
  quiet (call drv a).
Proof.
  unfold call. destruct (act_body a) as [c|]; intro H.
  - apply quiet_outside. intro o. destruct c; simpl in *; congruence.
  - apply quiet_raise.
Qed.

Lemma quiet_retry_loop fuel name a :
  match act_body a with Some c => off_belt c = true | None => True end ->
  quiet (retry_loop drv fuel name a).
Proof.
  intro H. induction fuel as [|fuel IH]; simpl.
  - apply quiet_diverge.
  - apply quiet_try_except; [now apply quiet_call|].
    intros []; try apply quiet_raise.
    + apply quiet_bind; [apply quiet_log|intro; apply quiet_raise].
    + apply quiet_bind; [apply quiet_log|intro; exact IH].
Qed.

Lemma quiet_execute fuel c :
  off_belt c = true -> quiet (execute_robot_action drv fuel (method c)).
Proof. intro H. now apply quiet_retry_loop. Qed.

Lemma quiet_move_to_pos fuel pos : quiet (move_to_pos drv fuel pos).
Proof.
  apply quiet_bind; [now apply quiet_execute|intro; apply quiet_log].
Qed.

Lemma quiet_move_to_home fuel : quiet (move_to_home drv fuel).
Proof.
  apply quiet_bind; [apply quiet_move_to_pos|intro; apply quiet_log].
Qed.

Lemma quiet_tool_state_loop fuel inner st :
  quiet (tool_state_loop drv fuel inner st).
Proof.
  revert st. induction fuel as [|fuel IH]; intro st; simpl.
  - apply quiet_diverge.
  - destruct (st =? 0); [apply quiet_ret|].
    apply quiet_bind; [apply quiet_log|intros _].
    apply quiet_bind; [now apply quiet_execute|intros _].
    apply quiet_bind; [apply quiet_read_tool_state|intro; apply IH].
Qed.

Lemma quiet_control_gripper fuel act : quiet (control_gripper drv fuel act).
Proof.
  apply quiet_bind.
  - apply quiet_try_except.
    + apply quiet_bind; [apply quiet_read_tool_state|].
      intro; apply quiet_tool_state_loop.
    + intros []; try apply quiet_raise. apply quiet_log.
  - intros _. destruct act;
      (apply quiet_bind; [now apply quiet_execute|intro; apply quiet_ret]).
Qed.

Lemma quiet_slow_arm_control {A} fuel slow (body : M A) :
  quiet body -> quiet (slow_arm_control drv fuel slow body).
Proof.
  intro Hb. apply quiet_bind; [now apply quiet_execute|intros _].
  apply quiet_try_finally; [exact Hb|].
  apply quiet_bind; [now apply quiet_execute|intro; apply quiet_ret].
Qed.

Lemma quiet_calibrate_rows fuel rows : quiet (calibrate_rows drv fuel rows).
Proof.
  induction rows as [|row rows IH]; simpl; [apply quiet_ret|].
  apply quiet_bind; [apply quiet_move_to_pos|intros _].
  apply quiet_bind; [|intros _; exact IH].
  apply quiet_slow_arm_control.
  apply quiet_bind; [apply quiet_move_to_pos|intros _].
  apply quiet_bind; [apply quiet_log|intros _].
  apply quiet_bind; [apply quiet_input|intros _].
  apply quiet_move_to_pos.
Qed.

Lemma quiet_calibrate_board fuel : quiet (calibrate_board drv fuel).
Proof.
  apply quiet_bind; [apply quiet_calibrate_rows|intros _].
  apply quiet_bind; [apply quiet_move_to_home|intros _].
  apply quiet_update. intro r. reflexivity.
Qed.

Lemma calm_intro {A} (m : M A) :
  quiet m -> (forall w, exists a, fst (m w) = Ok a) -> calm m.
Proof.
  intros Q S w. destruct (S w) as [a Ha]. specialize (Q w).
  destruct (m w) as [r w']; simpl in *. subst r. now exists a, w'.
Qed.

Lemma calm_bind {A B} (m : M A) (k : A -> M B) :
  calm m -> (forall a, calm (k a)) -> calm (bind m k).
Proof.
  intros Hm Hk w. destruct (Hm w) as (a & w1 & E1 & Q1).
  destruct (Hk a w1) as (b & w2 & E2 & Q2).
  exists b, w2. unfold bind. rewrite E1. split; [exact E2|].
  eapply quiet_after_trans; eassumption.
Qed.

Lemma calm_ret {A} (a : A) : calm (ret a).
Proof. intro w. exists a, w. split; [reflexivity|apply quiet_after_refl]. Qed.

Lemma calm_log l m : calm (log l m).
Proof.
  apply calm_intro; [apply quiet_log|]. intro w. now exists tt.
Qed.

Lemma calm_try_finally {A} (m : M A) (f : M unit) :
  calm m -> calm f -> calm (try_finally m f).
Proof.
  intros Hm Hf w. destruct (Hm w) as (a & w1 & E1 & Q1).
  destruct (Hf w1) as ([] & w2 & E2 & Q2).
  exists a, w2. unfold try_finally. rewrite E1, E2. split; [reflexivity|].
  eapply quiet_after_trans; eassumption.
Qed.

(** With no piece counted, [grab_piece] stops at its first test. *)
Lemma grab_piece_at_zero fuel w :
  current_piece_count (robot w) = 0 -> grab_piece drv fuel w = (Ok tt, w).
Proof.
  intro H. unfold grab_piece, bind, self. rewrite H. reflexivity.
Qed.

(** What one successful call of a method leaves behind. *)
Lemma execute_returns fuel c w v d :
  drv_call drv c (driver w) = (Ret v, d) ->
  execute_robot_action drv (S fuel) (method c) w =
    (Ok v, {| robot := robot w; driver := d;
              trace := trace w ++ [Invoke c (Ret v)] |}).
Proof.
  intro E. unfold execute_robot_action. simpl.
  unfold try_except, call, outside. simpl. now rewrite E.
Qed.

Section FaultFree.

Hypothesis healthy : fault_free drv.

Lemma call_returns c s : exists v d, drv_call drv c s = (Ret v, d).
Proof.
  destruct healthy as [H _]. destruct (H c s) as [v Hv].
  destruct (drv_call drv c s) as [o d]. simpl in Hv. subst o. now exists v, d.
Qed.

Lemma calm_execute fuel c :
  off_belt c = true -> calm (execute_robot_action drv (S fuel) (method c)).
Proof.
  intro Hc. apply calm_intro; [now apply quiet_execute|].
  intro w. destruct (call_returns c (driver w)) as (v & d & E).
  exists v. now rewrite (execute_returns fuel c w v d E).
Qed.

Lemma calm_input : calm (input drv).
Proof.
  apply calm_intro; [apply quiet_input|].
  intro w. destruct healthy as (_ & _ & H). specialize (H (driver w)).
  unfold input, outside. destruct (drv_input drv (driver w)) as [o d].
  simpl in H. subst o. now exists tt.
Qed.

Lemma calm_move_to_pos fuel pos : calm (move_to_pos drv (S fuel) pos).
Proof.
  apply calm_bind; [now apply calm_execute|intro; apply calm_log].
Qed.

Lemma calm_move_to_home fuel : calm (move_to_home drv (S fuel)).
Proof.
  apply calm_bind; [apply calm_move_to_pos|intro; apply calm_log].
Qed.

Lemma calm_control_gripper fuel act : calm (control_gripper drv (S fuel) act).
Proof.
  apply calm_bind.
  - apply calm_intro.
    + apply quiet_try_except.
      * apply quiet_bind; [apply quiet_read_tool_state|].
        intro; apply quiet_tool_state_loop.
      * intros []; try apply quiet_raise. apply quiet_log.
    + intro w. destruct healthy as (_ & H & _). specialize (H (driver w)).
      unfold try_except, bind, read_tool_state, outside.
      destruct (drv_status drv (driver w)) as [o d]. simpl in H.
      destruct H as [-> | ->]; simpl; now exists tt.
  - intros _. destruct act;
      (apply calm_bind; [now apply calm_execute|intro; apply calm_ret]).
Qed.

Lemma calm_slow_arm_control {A} fuel slow (body : M A) :
  calm body -> calm (slow_arm_control drv (S fuel) slow body).
Proof.
  intro Hb. apply calm_bind; [now apply calm_execute|intros _].
  apply calm_try_finally; [exact Hb|].
  apply calm_bind; [now apply calm_execute|intro; apply calm_ret].
Qed.

Lemma calm_calibrate_rows fuel rows :
  calm (calibrate_rows drv (S fuel) rows).
Proof.
  induction rows as [|row rows IH]; simpl; [apply calm_ret|].
  apply calm_bind; [apply calm_move_to_pos|intros _].
  apply calm_bind; [|intros _; exact IH].
  apply calm_slow_arm_control.
  apply calm_bind; [apply calm_move_to_pos|intros _].
  apply calm_bind; [apply calm_log|intros _].
  apply calm_bind; [apply calm_input|intros _].
  apply calm_move_to_pos.
Qed.

Lemma calm_calibrate_board fuel : calm (calibrate_board drv (S fuel)).
Proof.
  apply calm_bind; [apply calm_calibrate_rows|intros _].
  apply calm_bind; [apply calm_move_to_home|intros _].
  apply calm_intro.
  - apply quiet_update. intro r. reflexivity.
  - intro w. now exists tt.
Qed.

(** Stepping through a run: a calm step, then the rest. *)
Lemma step_calm {A B} (m : M A) (k : A -> M B) (w : World D)
  (P : result B * World D -> Prop) :
  calm m ->
  (forall a w1, quiet_after w w1 -> P (k a w1)) ->
  P (bind m k w).
Proof.
  intros Hm HP. destruct (Hm w) as (a & w1 & E & Q).
  unfold bind. rewrite E. now apply HP.
Qed.

Lemma step_eq {A B} (m : M A) (k : A -> M B) w a w1 :
  m w = (Ok a, w1) -> bind m k w = k a w1.
Proof. intro E. unfold bind. now rewrite E. Qed.

Ltac calm_step tac :=
  match goal with
  | |- context [bind ?m ?k ?w0] =>
      pattern (bind m k w0); apply step_calm; [tac|]
  end.

Lemma move_to_pos_returns fuel pos w :
  exists v d,
    move_to_pos drv (S fuel) pos w =
      (Ok tt, {| robot := robot w; driver := d;
                 trace := trace w ++ [Invoke (move_pose pos) (Ret v);
                                      Log info (MovedToPosition pos)] |}).
Proof.
  destruct (call_returns (move_pose pos) (driver w)) as (v & d & E).
  exists v, d. unfold move_to_pos, bind.
  rewrite (execute_returns fuel _ w v d E). unfold log, emit. simpl.
  now rewrite <- app_assoc.
Qed.

Lemma place_piece_run fuel w :
  exists w' v t,
    place_piece drv (S fuel) w = (Ok tt, w') /\
    belt_fields (robot w') =
      (conveyor_id (robot w), belt_lock (robot w),
       current_piece_count (robot w), current_stack_count (robot w) + 1) /\
    trace w' =
      trace w ++
      [Log info BeltLockedForPlacing;
       Invoke (move_pose (load_slot_pos (current_stack_count (robot w))))
         (Ret v);
       Log info (MovedToPosition
                   (load_slot_pos (current_stack_count (robot w))));
       StackCount (current_stack_count (robot w))
         (current_stack_count (robot w) + 1)] ++ t /\
    forallb neutral t = true.
Proof.
  unfold place_piece.
  unfold bind at 1, log at 1, emit at 1, bind at 1, self at 1. simpl.
  match goal with |- context [bind (move_to_pos drv _ ?p) ?k ?w1] =>
    destruct (move_to_pos_returns fuel p w1) as (v & d & E);
    rewrite (step_eq _ k _ _ _ E) end.
  unfold bind at 1, self at 1, assign_stack_count, bind at 1, self at 1,
    bind at 1, update at 1, bind at 1, emit at 1. simpl.
  calm_step ltac:(apply calm_control_gripper); intros [] w2 (F2 & t2 & T2 & N2).
  destruct (calm_move_to_home fuel w2) as ([] & w3 & E3 & F3 & t3 & T3 & N3).
  exists w3, v, (t2 ++ t3). split; [exact E3|]. split; [|split].
  - rewrite F3. unfold same_belt in F2. rewrite F2. reflexivity.
  - rewrite T3, T2. simpl. rewrite <- !app_assoc. reflexivity.
  - now rewrite forallb_app, N2, N3.
Qed.

Lemma take_piece_run fuel w :
  exists w' v t,
    take_piece drv (S fuel) w = (Ok tt, w') /\
    belt_fields (robot w') =
      (conveyor_id (robot w), belt_lock (robot w),
       current_piece_count (robot w) - 1,
       current_stack_count (robot w) - 1) /\
    trace w' =
      trace w ++
      [Invoke (move_pose (grab_slot_pos (current_stack_count (robot w))))
         (Ret v);
       Log info (MovedToPosition
                   (grab_slot_pos (current_stack_count (robot w))))] ++
      t ++
      [StackCount (current_stack_count (robot w))
         (current_stack_count (robot w) - 1)] /\
    forallb neutral t = true.
Proof.
  unfold take_piece. unfold bind at 1, self at 1.
  match goal with |- context [bind (move_to_pos drv _ ?p) ?k ?w1] =>
    destruct (move_to_pos_returns fuel p w1) as (v & d & E);
    rewrite (step_eq _ k _ _ _ E) end.
  calm_step ltac:(apply calm_control_gripper); intros [] w2 (F2 & t2 & T2 & N2).
  calm_step ltac:(apply calm_move_to_home); intros [] w3 (F3 & t3 & T3 & N3).
  unfold same_belt in F2, F3. rewrite F2 in F3. simpl in F3, T2.
  unfold belt_fields in F3. injection F3 as Fi Fl Fc Fs.
  eexists. exists v, (t2 ++ t3). split; [reflexivity|]. simpl.
  unfold belt_fields. simpl. rewrite Fi, Fl, Fc, Fs, T3, T2.
  split; [reflexivity|]. split.
  - rewrite <- !app_assoc. reflexivity.
  - now rewrite forallb_app, N2, N3.
Qed.

(** [with self.__belt_lock] around a body that returns. *)
Lemma with_belt_lock_returns {A} (body : M A) w a w' :
  belt_lock (robot w) = false ->
  body {| robot := set_belt_lock true (robot w); driver := driver w;
          trace := trace w ++ [Acquire] |} = (Ok a, w') ->
  with_belt_lock body w =
    (Ok a, {| robot := set_belt_lock false (robot w'); driver := driver w';
              trace := trace w' ++ [Release] |}).
Proof.
  intros L E. unfold with_belt_lock, acquire, bind, self, try_finally.
  rewrite L. unfold update, emit. simpl. rewrite E. reflexivity.
Qed.

Lemma set_up_piece_run fuel piece_count w :
  belt_lock (robot w) = false ->
  let c := current_piece_count (robot w) in
  let s := current_stack_count (robot w) in
  exists w' v t1 t2,
    set_up_piece drv (S fuel) piece_count w = (Ok tt, w') /\
    belt_fields (robot w') =
      (conveyor_id (robot w), false, c + 1,
       if full_after_load piece_count c s then 0 else s + 1) /\
    trace w' =
      trace w ++ t1 ++
      [Acquire; Log info BeltLockedForPlacing;
       Invoke (move_pose (load_slot_pos s)) (Ret v);
       Log info (MovedToPosition (load_slot_pos s));
       StackCount s (s + 1)] ++ t2 ++
      Release ::
      (if full_after_load piece_count c s
       then [Log info StackFull; StackCount (s + 1) 0; Start BACKWARD]
       else []) /\
    forallb neutral t1 = true /\ forallb neutral t2 = true.
Proof.
  intros L c s. unfold set_up_piece.
  unfold bind at 1, self at 1, bind at 1, log at 1, emit at 1,
    bind at 1, log at 1, emit at 1, bind at 1, update at 1. simpl.
  calm_step ltac:(apply calm_move_to_pos); intros [] w1 (F1 & t1 & T1 & N1).
  calm_step idtac; [|intros [] w2 (F2 & t2 & T2 & N2)].
  { apply calm_slow_arm_control.
    apply calm_bind; [apply calm_move_to_pos|intros _].
    apply calm_bind; [apply calm_control_gripper|intros _].
    apply calm_move_to_pos. }
  calm_step ltac:(apply calm_move_to_home); intros [] w3 (F3 & t3 & T3 & N3).
  unfold bind at 1, self at 1.
  calm_step idtac; [|intros [] w4 (F4 & t4 & T4 & N4)].
  { destruct (board_calibrated (robot w3));
      [apply calm_ret|apply calm_calibrate_board]. }
  unfold same_belt in F1, F2, F3, F4.
  rewrite F3, F2, F1 in F4. simpl in F4, T1.
  unfold belt_fields in F4. injection F4 as Fi Fl Fc Fs.
  fold c in Fc. fold s in Fs.
  match goal with |- context [place_piece drv _] =>
    destruct (place_piece_run fuel
                {| robot := set_belt_lock true (robot w4);
                   driver := driver w4;
                   trace := trace w4 ++ [Acquire] |})
      as (w5 & v & t5 & E5 & F5 & T5 & N5) end.
  simpl in F5, T5. rewrite Fi, Fc, Fs in F5. rewrite Fs in T5.
  unfold belt_fields in F5. injection F5 as Gi Gl Gc Gs.
  assert (L4 : belt_lock (robot w4) = false) by congruence.
  rewrite (step_eq _ _ _ _ _ (with_belt_lock_returns _ _ _ _ L4 E5)).
  unfold advance_when_full, bind at 1, self at 1. simpl.
  rewrite Gc, Gs. fold (full_after_load piece_count c s).
  assert (T : trace w5 ++ [Release] =
              trace w ++
              ([Log info (SettingUpPiece c); Log info (PlacedOnPosition (s + 1))]
                 ++ t1 ++ t2 ++ t3 ++ t4) ++
              [Acquire; Log info BeltLockedForPlacing;
               Invoke (move_pose (load_slot_pos s)) (Ret v);
               Log info (MovedToPosition (load_slot_pos s));
               StackCount s (s + 1)] ++ t5 ++ [Release]).
  { rewrite T5, T4, T3, T2, T1. subst c s. simpl.
    repeat (rewrite <- ?app_assoc; simpl). reflexivity. }
  assert (N : forallb neutral
                ([Log info (SettingUpPiece c);
                  Log info (PlacedOnPosition (s + 1))]
                   ++ t1 ++ t2 ++ t3 ++ t4) = true).
  { simpl. now rewrite !forallb_app, N1, N2, N3, N4. }
  destruct (full_after_load piece_count c s).
  - eexists. exists v. eexists. exists t5.
    split; [reflexivity|]. simpl. unfold belt_fields. simpl.
    rewrite Gi, Gc, Gs, T. split; [reflexivity|].
    split; [|split; [exact N|exact N5]].
    repeat (rewrite <- ?app_assoc; simpl). reflexivity.
  - eexists. exists v. eexists. exists t5.
    split; [reflexivity|]. simpl. unfold belt_fields. simpl.
    rewrite Gi, Gc, Gs, T. split; [reflexivity|].
    split; [|split; [exact N|exact N5]].
    repeat (rewrite <- ?app_assoc; simpl). reflexivity.
Qed.

Lemma grab_piece_run fuel w :
  belt_lock (robot w) = false ->
  current_piece_count (robot w) <> 0 ->
  let c := current_piece_count (robot w) in
  let s := current_stack_count (robot w) in
  exists w' v t,
    grab_piece drv (S fuel) w = (Ok tt, w') /\
    belt_fields (robot w') =
      (conveyor_id (robot w), false, c - 1,
       if empty_after_grab c s then 2 else s - 1) /\
    trace w' =
      trace w ++
      [Acquire;
       Invoke (move_pose (grab_slot_pos s)) (Ret v);
       Log info (MovedToPosition (grab_slot_pos s))] ++ t ++
      [StackCount s (s - 1); Release] ++
      (if empty_after_grab c s
       then [StackCount (s - 1) 2; Start FORWARD]
       else []) /\
    forallb neutral t = true.
Proof.
  intros L C c s. unfold grab_piece. unfold bind at 1, self at 1.
  apply Z.eqb_neq in C. rewrite C.
  destruct (take_piece_run fuel
              {| robot := set_belt_lock true (robot w);
                 driver := driver w;
                 trace := trace w ++ [Acquire] |})
    as (w1 & v & t & E1 & F1 & T1 & N1).
  simpl in F1, T1. fold c s in F1, T1.
  unfold belt_fields in F1. injection F1 as Fi Fl Fc Fs.
  rewrite (step_eq _ _ _ _ _ (with_belt_lock_returns _ _ _ _ L E1)).
  unfold advance_when_empty, bind at 1, self at 1. simpl.
  rewrite Fc, Fs. fold (empty_after_grab c s).
  assert (T : trace w1 ++ [Release] =
              trace w ++
              [Acquire;
               Invoke (move_pose (grab_slot_pos s)) (Ret v);
               Log info (MovedToPosition (grab_slot_pos s))] ++ t ++
              [StackCount s (s - 1); Release]).
  { rewrite T1. repeat (rewrite <- ?app_assoc; simpl). reflexivity. }
  destruct (empty_after_grab c s).
  - eexists. exists v, t. split; [reflexivity|]. simpl.
    unfold belt_fields. simpl. rewrite Fi, Fc, Fs, T.
    split; [reflexivity|]. split; [|exact N1].
    repeat (rewrite <- ?app_assoc; simpl). reflexivity.
  - eexists. exists v, t. split; [reflexivity|]. simpl.
    unfold belt_fields. simpl. rewrite Fi, Fc, Fs, T.
    split; [reflexivity|]. split; [|exact N1].
    repeat (rewrite <- ?app_assoc; simpl). reflexivity.
Qed.

(** The magazine part of [set_up_game] is calm; the loop follows. *)
Lemma set_up_game_enters_loop fuel piece_count w :
  exists w1,
    quiet_after w w1 /\
    set_up_game drv (S fuel) piece_count w =
      set_up_loop drv (S fuel) (S fuel) piece_count w1.
Proof.
  unfold set_up_game. unfold bind at 1, self at 1.
  calm_step idtac.
  - destruct (magazine_ready (robot w)); [apply calm_ret|].
    apply calm_bind; [apply calm_move_to_pos|intros _].
    apply calm_bind; [apply calm_move_to_pos|intros _].
    apply calm_bind; [apply calm_log|intros _].
    apply calm_bind; [apply calm_log|intros _].
    apply calm_bind; [apply calm_input|intros _].
    apply calm_bind; [apply calm_move_to_home|intros _].
    apply calm_intro.
    + apply quiet_update. intro r. reflexivity.
    + intro w0. now exists tt.
  - intros [] w1 Q1. now exists w1.
Qed.

(** The loop of [set_up_game]: what it keeps, when it returns, when it
    does not. *)
Lemma set_up_loop_keeps (J : Z -> Z -> Prop) piece_count :
  (forall c s, J c s -> c <> piece_count ->
     J (c + 1) (if full_after_load piece_count c s then 0 else s + 1)) ->
  forall fuel inner w w',
    belt_lock (robot w) = false ->
    J (current_piece_count (robot w)) (current_stack_count (robot w)) ->
    set_up_loop drv fuel (S inner) piece_count w = (Ok tt, w') ->
    conveyor_id (robot w') = conveyor_id (robot w) /\
    belt_lock (robot w') = false /\
    current_piece_count (robot w') = piece_count /\
    J piece_count (current_stack_count (robot w')).
Proof.
  intros Step. induction fuel as [|fuel IH]; intros inner w w' L HJ E.
  - discriminate.
  - simpl in E. unfold bind at 1, self at 1 in E.
    destruct (current_piece_count (robot w) =? piece_count) eqn:C.
    + apply Z.eqb_eq in C. injection E as <-. subst piece_count. auto.
    + apply Z.eqb_neq in C.
      destruct (set_up_piece_run inner piece_count w L)
        as (w1 & v & t1 & t2 & E1 & F1 & _).
      rewrite (step_eq _ _ _ _ _ E1) in E.
      unfold belt_fields in F1. injection F1 as Fi Fl Fc Fs.
      destruct (IH inner w1 w' Fl) as (Gi & Gl & Gc & Gs).
      * rewrite Fc, Fs. now apply Step.
      * exact E.
      * rewrite Gi, Fi. auto.
Qed.

Lemma set_up_loop_returns piece_count k :
  forall fuel inner w,
    belt_lock (robot w) = false ->
    piece_count = current_piece_count (robot w) + Z.of_nat k ->
    (k < fuel)%nat ->
    exists w', set_up_loop drv fuel (S inner) piece_count w = (Ok tt, w').
Proof.
  induction k as [|k IH]; intros fuel inner w L C Hf;
    (destruct fuel as [|fuel]; [lia|]); simpl;
    unfold bind at 1, self at 1.
  - replace (current_piece_count (robot w) =? piece_count) with true
      by (symmetry; apply Z.eqb_eq; lia).
    now exists w.
  - replace (current_piece_count (robot w) =? piece_count) with false
      by (symmetry; apply Z.eqb_neq; lia).
    destruct (set_up_piece_run inner piece_count w L)
      as (w1 & v & t1 & t2 & E1 & F1 & _).
    rewrite (step_eq _ _ _ _ _ E1).
    unfold belt_fields in F1. injection F1 as Fi Fl Fc Fs.
    apply IH; [exact Fl|lia|lia].
Qed.

Lemma set_up_loop_diverges piece_count :
  forall fuel inner w,
    belt_lock (robot w) = false ->
    piece_count < current_piece_count (robot w) ->
    fst (set_up_loop drv fuel inner piece_count w) = Diverge.
Proof.
  induction fuel as [|fuel IH]; intros inner w L C; [reflexivity|].
  simpl. unfold bind at 1, self at 1.
  replace (current_piece_count (robot w) =? piece_count) with false
    by (symmetry; apply Z.eqb_neq; lia).
  destruct inner as [|inner]; [reflexivity|].
  destruct (set_up_piece_run inner piece_count w L)
    as (w1 & v & t1 & t2 & E1 & F1 & _).
  rewrite (step_eq _ _ _ _ _ E1).
  unfold belt_fields in F1. injection F1 as Fi Fl Fc Fs.
  apply IH; [exact Fl|lia].
Qed.

End FaultFree.

End Runs.

(** ** The action executor *)

Lemma invocations_retries name c n :
  forall rest, invocations (retries name c n ++ rest) = (n + invocations rest)%nat.
Proof.
  induction n as [|n IH]; intro rest; [reflexivity|].
  simpl. unfold invocations in *. simpl. now rewrite IH.
Qed.

Lemma retry_loop_not_callable {D} (drv : Driver D) (fuel : nat)
  (name : option string) (a : action) (w : World D) :
  act_body a = None ->
  retry_loop drv (S fuel) name a w =
    (Raise TypeError,
     {| robot := robot w; driver := driver w;
        trace := trace w ++ [Log critical CodingError] |}).
Proof.
  intro H. simpl. unfold try_except, call. rewrite H. reflexivity.
Qed.

Lemma retry_loop_script {D} (drv : Driver D) (a : action) (c : capability)
  (o : outcome value) (d' : D) :
  act_body a = Some c ->
  o <> Exc RosTimeoutError ->
  forall n fuel w d,
    after_timeouts drv c n (driver w) = Some d ->
    drv_call drv c d = (o, d') ->
    (n < fuel)%nat ->
    retry_loop drv fuel (act_name a) a w =
      (result_of o,
       {| robot := robot w; driver := d';
          trace := trace w ++ retries (shown_name a) c n ++
                   [Invoke c o] ++ reported o |}).
Proof.
  intros Hc Ho. induction n as [|n IH]; intros fuel w d Hn Hd Hf;
    (destruct fuel as [|fuel]; [lia|]); simpl in *.
  - injection Hn as <-. unfold try_except, call. rewrite Hc.
    unfold outside. rewrite Hd.
    destruct o as [v|[]]; simpl; try reflexivity.
    + unfold bind, log, emit, raise. simpl. now rewrite <- app_assoc.
    + congruence.
  - unfold try_except, call. rewrite Hc. unfold outside.
    destruct (drv_call drv c (driver w)) as [[v|[]] d1] eqn:E1;
      try discriminate.
    unfold bind at 1, log at 1, emit at 1. simpl.
    fold (shown_name a).
    rewrite (IH fuel _ d); [|exact Hn|exact Hd|lia].
    simpl. rewrite <- !app_assoc. reflexivity.
Qed.

(** C2 (action executor): a capability that raises the transient
    timeout [n] times and then gives outcome [o] that is no timeout is
    invoked exactly [n + 1] times.  If [o] is a value, that value is
    returned; if [o] is a [TypeError], it is logged critical and
    propagates with no further attempt; any other exception propagates
    with no further attempt and no log line.  An object that is not
    callable raises [TypeError] before the driver is reached, which is
    logged critical and propagates. *)
Theorem execute_robot_action_retries_timeouts_only
  {D} (drv : Driver D) (a : action) (c : capability) (n fuel : nat)
  (w : World D) (d d' : D) (o : outcome value) :
  act_body a = Some c ->
  after_timeouts drv c n (driver w) = Some d ->
  drv_call drv c d = (o, d') ->
  o <> Exc RosTimeoutError ->
  (n < fuel)%nat ->
  execute_robot_action drv fuel a w =
    (result_of o,
     {| robot := robot w; driver := d';
        trace := trace w ++ retries (shown_name a) c n ++
                 [Invoke c o] ++ reported o |}) /\
  invocations (retries (shown_name a) c n ++ [Invoke c o] ++ reported o)
    = S n /\
  execute_robot_action drv fuel evaluated w =
    (Raise TypeError,
     {| robot := robot w; driver := driver w;
        trace := trace w ++ [Log critical CodingError] |}).
Proof.
  intros Hc Hn Hd Ho Hf. split; [|split].
  - unfold execute_robot_action.
    now apply (retry_loop_script drv a c o d' Hc Ho n fuel w d).
  - rewrite invocations_retries. unfold invocations.
    destruct o as [v|[]]; simpl; lia.
  - destruct fuel as [|fuel]; [lia|].
    now apply retry_loop_not_callable.
Qed.

(** Two timeouts, then the value 7: three invocations, 7 returned. *)
Lemma execute_robot_action_retries_timeouts_only_witness :
  let d0 := {| Fake.faults := [RosTimeoutError; RosTimeoutError];
               Fake.answer := VInt 7; Fake.statuses := [];
               Fake.idle_status := Ret 0; Fake.max_velocity := 100;
               Fake.conveyor_running := false |} in
  fst (execute_robot_action Fake.driver 3 (method update_tool)
         (Fake.session d0)) = Ok (VInt 7) /\
  invocations
    (trace (snd (execute_robot_action Fake.driver 3 (method update_tool)
                   (Fake.session d0)))) = 3%nat.
Proof.
  intro d0.
  destruct (execute_robot_action_retries_timeouts_only
              Fake.driver (method update_tool) update_tool 2 3
              (Fake.session d0)
              {| Fake.faults := []; Fake.answer := VInt 7;
                 Fake.statuses := []; Fake.idle_status := Ret 0;
                 Fake.max_velocity := 100;
                 Fake.conveyor_running := false |}
              {| Fake.faults := []; Fake.answer := VInt 7;
                 Fake.statuses := []; Fake.idle_status := Ret 0;
                 Fake.max_velocity := 100;
                 Fake.conveyor_running := false |}
              (Ret (VInt 7)))
    as (E & I & _);
    [reflexivity|reflexivity|reflexivity|discriminate|lia|].
  rewrite E. split; [reflexivity|exact I].
Defined.

(** ** The gripper controller *)

Lemma recovering_length {D} (drv : Driver D) n :
  forall d l d', recovering drv n d = Some (l, d') -> List.length l = n.
Proof.
  induction n as [|n IH]; intros d l d' H; simpl in H.
  - now injection H as <- _.
  - destruct (drv_status drv d) as [[code|e] d1]; [|discriminate].
    destruct (code =? 0); [discriminate|].
    destruct (drv_call drv update_tool d1) as [[v|e] d2]; [|discriminate].
    destruct (recovering drv n d2) as [[l0 d0]|] eqn:R; [|discriminate].
    injection H as <- _. simpl. f_equal. eapply IH; eassumption.
Qed.

Lemma reinitializations_recovery l rest :
  reinitializations (recovery_events l ++ rest) =
    (List.length l + reinitializations rest)%nat.
Proof.
  induction l as [|[code v] l IH]; [reflexivity|].
  unfold reinitializations in *. simpl. now rewrite IH.
Qed.

Lemma forallb_recovery_no_grip l :
  forallb (fun e => negb (is_grip e)) (recovery_events l) = true.
Proof. induction l as [|[code v] l IH]; [reflexivity|exact IH]. Qed.

Lemma tool_state_loop_script {D} (drv : Driver D) (inner : nat) :
  forall n fuel w code v d1 d2 l d final d',
    code <> 0 ->
    drv_call drv update_tool d1 = (Ret v, d2) ->
    recovering drv n d2 = Some (l, d) ->
    drv_status drv d = (final, d') ->
    final = Ret 0 \/ final = Exc IndexError ->
    (S n < fuel)%nat ->
    driver w = d1 ->
    tool_state_loop drv fuel (S inner) code w =
      ((match final with Ret _ => Ok tt | Exc e => Raise e end),
       {| robot := robot w; driver := d';
          trace := trace w ++
                   Log warning GripperRestart :: Invoke update_tool (Ret v)
                   :: recovery_events l ++ [ReadStatus final] |}).
Proof.
  induction n as [|n IH];
    intros fuel w code v d1 d2 l d final d' Hc Hu Hr Hs Hf Hfuel Hw;
    (destruct fuel as [|fuel]; [lia|]); simpl in Hr |- *;
    (replace (code =? 0) with false by (symmetry; now apply Z.eqb_neq));
    unfold bind at 1, log at 1, emit at 1; simpl;
    subst d1;
    match goal with |- context [bind (execute_robot_action drv _ ?m) ?k ?w1] =>
      rewrite (step_eq _ k w1 _ _
                 (execute_returns drv inner update_tool w1 v d2 Hu)) end.
  - injection Hr as <- <-. destruct fuel as [|fuel]; [lia|].
    unfold bind, read_tool_state, outside. simpl. rewrite Hs.
    destruct Hf as [-> | ->]; simpl; rewrite <- !app_assoc; reflexivity.
  - destruct (drv_status drv d2) as [[code1|e] d3] eqn:S1; [|discriminate].
    destruct (code1 =? 0) eqn:C1; [discriminate|]. apply Z.eqb_neq in C1.
    destruct (drv_call drv update_tool d3) as [[v1|e] d4] eqn:U1;
      [|discriminate].
    destruct (recovering drv n d4) as [[l0 d0]|] eqn:R; [|discriminate].
    injection Hr as <- <-.
    unfold bind at 1, read_tool_state at 1, outside at 1. simpl.
    rewrite S1.
    rewrite (IH fuel _ code1 v1 d3 d4 l0 d0 final d' C1 U1 R Hs Hf);
      [|lia|reflexivity].
    simpl. rewrite <- !app_assoc. reflexivity.
Qed.

(** C8 (gripper controller): when the status slot reads non-zero [n]
    times in a row, each time answered by a tool reinitialization that
    returns, and then reads zero or turns out not to be there, the
    controller has issued exactly [n] reinitializations, one per
    non-zero read, and no open or close yet; it then goes on to the
    requested open or close through the executor.  With [n = 0] and no
    slot the check is skipped with an info line and nothing else. *)
Theorem control_gripper_reinitializes_per_nonzero_read
  {D} (drv : Driver D) (act : GripperAction) (n fuel : nat) (w : World D)
  (l : list (Z * value)) (d d' : D) (final : outcome Z) :
  recovering drv n (driver w) = Some (l, d) ->
  drv_status drv d = (final, d') ->
  final = Ret 0 \/ final = Exc IndexError ->
  (n < fuel)%nat ->
  control_gripper drv fuel act w =
    bind (execute_robot_action drv fuel (method (grip_method act)))
         (fun _ => ret tt)
      {| robot := robot w; driver := d';
         trace := trace w ++ recovery_events l ++ status_settled final |} /\
  reinitializations (recovery_events l ++ status_settled final) = n /\
  forallb (fun e => negb (is_grip e))
    (recovery_events l ++ status_settled final) = true.
Proof.
  intros Hr Hs Hf Hfuel. split; [|split].
  - assert (G : forall w1,
               (match act with
                | OPEN =>
                    bind (execute_robot_action drv fuel
                            (method release_with_tool)) (fun _ => ret tt)
                | CLOSE =>
                    bind (execute_robot_action drv fuel
                            (method grasp_with_tool)) (fun _ => ret tt)
                end) w1 =
               bind (execute_robot_action drv fuel
                       (method (grip_method act))) (fun _ => ret tt) w1)
      by (intro; now destruct act).
    unfold control_gripper. unfold bind at 1, try_except.
    unfold bind at 1, read_tool_state at 1, outside at 1.
    destruct n as [|n]; simpl in Hr.
    + injection Hr as <- <-. rewrite Hs.
      destruct fuel as [|fuel]; [lia|].
      destruct Hf as [-> | ->]; simpl; rewrite G; simpl;
        repeat (rewrite <- ?app_assoc; simpl); reflexivity.
    + destruct (drv_status drv (driver w)) as [[code|e] d1] eqn:S1;
        [|discriminate].
      destruct (code =? 0) eqn:C; [discriminate|]. apply Z.eqb_neq in C.
      destruct (drv_call drv update_tool d1) as [[v|e] d2] eqn:U;
        [|discriminate].
      destruct (recovering drv n d2) as [[l0 d0]|] eqn:R; [|discriminate].
      injection Hr as <- <-.
      destruct fuel as [|fuel]; [lia|].
      rewrite (tool_state_loop_script drv fuel n (S fuel) _ code v d1 d2
                 l0 d0 final d' C U R Hs Hf); [|lia|reflexivity].
      destruct Hf as [-> | ->]; simpl; rewrite G; simpl;
        repeat (rewrite <- ?app_assoc; simpl); reflexivity.
  - rewrite reinitializations_recovery.
    rewrite (recovering_length drv n _ _ _ Hr).
    destruct Hf as [-> | ->]; unfold reinitializations; simpl; lia.
  - rewrite forallb_app, forallb_recovery_no_grip.
    destruct Hf as [-> | ->]; reflexivity.
Qed.

(** The scenario of the specification: non-zero twice, then zero. *)
Lemma control_gripper_reinitializes_per_nonzero_read_witness :
  let d0 := {| Fake.faults := []; Fake.answer := VNone;
               Fake.statuses := [Ret 4; Ret 4; Ret 0];
               Fake.idle_status := Ret 0; Fake.max_velocity := 100;
               Fake.conveyor_running := false |} in
  trace (snd (control_gripper Fake.driver 3 CLOSE (Fake.session d0))) =
    [ReadStatus (Ret 4); Log warning GripperRestart;
     Invoke update_tool (Ret VNone);
     ReadStatus (Ret 4); Log warning GripperRestart;
     Invoke update_tool (Ret VNone);
     ReadStatus (Ret 0);
     Invoke grasp_with_tool (Ret VNone)].
Proof.
  intro d0.
  destruct (control_gripper_reinitializes_per_nonzero_read
              Fake.driver CLOSE 2 3 (Fake.session d0)
              [(4, VNone); (4, VNone)]
              {| Fake.faults := []; Fake.answer := VNone;
                 Fake.statuses := [Ret 0];
                 Fake.idle_status := Ret 0; Fake.max_velocity := 100;
                 Fake.conveyor_running := false |}
              Fake.healthy (Ret 0))
    as (E & _); [reflexivity|reflexivity|now left|lia|].
  rewrite E. reflexivity.
Defined.

(** ** The scoped slow mode *)

(** C9 (slow mode): once the entry call has set the slow velocity, the
    body runs, and on every way out of it, a normal return or any raised
    exception, a contract fault ([TypeError]) included, the next and
    last thing the scope does is to set the velocity to 100; what the
    body returned or raised is what the scope returns or raises. *)
Theorem slow_arm_control_restores_on_every_exit
  {D} {A} (drv : Driver D) (fuel : nat) (slow_speed : Z) (body : M A)
  (w w2 : World D) (v1 v2 : value) (d1 d3 : D) (r : result A) :
  drv_call drv (set_arm_max_velocity slow_speed) (driver w) = (Ret v1, d1) ->
  body {| robot := robot w; driver := d1;
          trace := trace w ++
                   [Invoke (set_arm_max_velocity slow_speed) (Ret v1)] |}
    = (r, w2) ->
  r <> Diverge ->
  drv_call drv (set_arm_max_velocity 100) (driver w2) = (Ret v2, d3) ->
  slow_arm_control drv (S fuel) slow_speed body w =
    (r, {| robot := robot w2; driver := d3;
           trace := trace w2 ++
                    [Invoke (set_arm_max_velocity 100) (Ret v2)] |}).
Proof.
  intros Hin Hbody Hr Hout. unfold slow_arm_control.
  rewrite (step_eq _ _ _ _ _
             (execute_returns drv fuel _ w v1 d1 Hin)).
  unfold try_finally. rewrite Hbody.
  rewrite (step_eq _ _ _ _ _
             (execute_returns drv fuel _ w2 v2 d3 Hout)).
  destruct r; [reflexivity|reflexivity|congruence].
Qed.

(** A body that raises a contract fault under the simulated driver: the
    fault comes out of the scope and the velocity is back at 100. *)
Lemma slow_arm_control_restores_on_every_exit_witness :
  let run := slow_arm_control Fake.driver 1 30
               (execute_robot_action Fake.driver 1 evaluated)
               (Fake.session Fake.healthy) in
  fst run = Raise TypeError /\
  Fake.max_velocity (driver (snd run)) = 100 /\
  trace (snd run) =
    [Invoke (set_arm_max_velocity 30) (Ret VNone);
     Log critical CodingError;
     Invoke (set_arm_max_velocity 100) (Ret VNone)].
Proof.
  intro run. unfold run.
  rewrite (slow_arm_control_restores_on_every_exit
             Fake.driver 0 30 (execute_robot_action Fake.driver 1 evaluated)
             (Fake.session Fake.healthy)
             (snd (execute_robot_action Fake.driver 1 evaluated
                     {| robot := fresh (VInt 1);
                        driver := Fake.effect (set_arm_max_velocity 30)
                                    Fake.healthy;
                        trace := [Invoke (set_arm_max_velocity 30)
                                    (Ret VNone)] |}))
             VNone VNone
             (Fake.effect (set_arm_max_velocity 30) Fake.healthy)
             Fake.healthy (Raise TypeError));
    [repeat split|reflexivity|reflexivity|discriminate|reflexivity].
Defined.

(** ** Grabbing from an empty belt *)

(** C7 (grab with nothing left): when [__current_piece_count] is zero,
    [grab_piece] returns at once; the object, the driver and the trace
    are what they were, so no driver call was made and nothing was
    changed. *)
Theorem grab_piece_without_pieces_is_noop
  {D} (drv : Driver D) (fuel : nat) (w : World D) :
  current_piece_count (robot w) = 0 ->
  grab_piece drv fuel w = (Ok tt, w).
Proof. apply grab_piece_at_zero. Qed.

Lemma grab_piece_without_pieces_is_noop_witness :
  grab_piece Fake.driver 5 (Fake.session Fake.healthy) =
    (Ok tt, Fake.session Fake.healthy).
Proof.
  apply (grab_piece_without_pieces_is_noop Fake.driver 5
           (Fake.session Fake.healthy)).
  reflexivity.
Defined.

(** ** Loading and grabbing: the bookkeeping *)

Lemma belt_events_app t1 t2 :
  belt_events (t1 ++ t2) = belt_events t1 ++ belt_events t2.
Proof. apply filter_app. Qed.

Lemma belt_events_neutral t :
  forallb neutral t = true -> belt_events t = [].
Proof.
  induction t as [|e t IH]; [reflexivity|]. simpl.
  intro H. apply andb_prop in H as [He Ht]. rewrite He. simpl. auto.
Qed.

Section Sessions.

Context {D : Type}.
Variable drv : Driver D.
Hypothesis healthy : fault_free drv.

Lemma set_up_piece_belt_events fuel piece_count w :
  belt_lock (robot w) = false ->
  let c := current_piece_count (robot w) in
  let s := current_stack_count (robot w) in
  exists w',
    set_up_piece drv (S fuel) piece_count w = (Ok tt, w') /\
    belt_fields (robot w') =
      (conveyor_id (robot w), false, c + 1,
       if full_after_load piece_count c s then 0 else s + 1) /\
    belt_events (trace w') =
      belt_events (trace w) ++
      [Acquire; StackCount s (s + 1); Release] ++
      (if full_after_load piece_count c s
       then [StackCount (s + 1) 0; Start BACKWARD]
       else []).
Proof.
  intros L c s.
  destruct (set_up_piece_run drv healthy fuel piece_count w L)
    as (w' & v & t1 & t2 & E & F & T & N1 & N2).
  exists w'. split; [exact E|]. split; [exact F|].
  rewrite T. fold c s.
  rewrite !belt_events_app, (belt_events_neutral t1 N1),
    (belt_events_neutral t2 N2).
  destruct (full_after_load piece_count c s); reflexivity.
Qed.

Lemma set_up_loop_belt_events piece_count k :
  forall fuel inner w,
    belt_lock (robot w) = false ->
    piece_count = current_piece_count (robot w) + Z.of_nat k ->
    (k < fuel)%nat ->
    exists w',
      set_up_loop drv fuel (S inner) piece_count w = (Ok tt, w') /\
      belt_fields (robot w') =
        (conveyor_id (robot w), false, piece_count,
         load_stack k piece_count (current_piece_count (robot w))
           (current_stack_count (robot w))) /\
      belt_events (trace w') =
        belt_events (trace w) ++
        load_events k piece_count (current_piece_count (robot w))
          (current_stack_count (robot w)).
Proof.
  induction k as [|k IH]; intros fuel inner w L C Hf;
    (destruct fuel as [|fuel]; [lia|]); simpl;
    unfold bind at 1, self at 1.
  - replace (current_piece_count (robot w) =? piece_count) with true
      by (symmetry; apply Z.eqb_eq; lia).
    exists w. split; [reflexivity|]. split.
    + unfold belt_fields. rewrite L. repeat f_equal. lia.
    + now rewrite app_nil_r.
  - replace (current_piece_count (robot w) =? piece_count) with false
      by (symmetry; apply Z.eqb_neq; lia).
    destruct (set_up_piece_belt_events inner piece_count w L)
      as (w1 & E1 & F1 & T1).
    rewrite (step_eq _ _ _ _ _ E1).
    unfold belt_fields in F1. injection F1 as Fi Fl Fc Fs.
    destruct (IH fuel inner w1 Fl) as (w' & E & F & T); [lia|lia|].
    exists w'. split; [exact E|]. split.
    + rewrite F, Fi, Fc, Fs. reflexivity.
    + rewrite T, T1, Fc, Fs. rewrite <- !app_assoc. reflexivity.
Qed.

(** One load from any state with the lock free. *)
Lemma set_up_game_belt_events piece_count fuel w :
  belt_lock (robot w) = false ->
  current_piece_count (robot w) <= piece_count ->
  (Z.to_nat (piece_count - current_piece_count (robot w)) < fuel)%nat ->
  exists w',
    set_up_game drv fuel piece_count w = (Ok tt, w') /\
    belt_fields (robot w') =
      (conveyor_id (robot w), false, piece_count,
       load_stack (Z.to_nat (piece_count - current_piece_count (robot w)))
         piece_count (current_piece_count (robot w))
         (current_stack_count (robot w))) /\
    belt_events (trace w') =
      belt_events (trace w) ++
      load_events (Z.to_nat (piece_count - current_piece_count (robot w)))
        piece_count (current_piece_count (robot w))
        (current_stack_count (robot w)).
Proof.
  intros L C Hf. destruct fuel as [|fuel]; [lia|].
  destruct (set_up_game_enters_loop drv healthy fuel piece_count w)
    as (w1 & (F1 & t1 & T1 & N1) & ->).
  unfold same_belt, belt_fields in F1. injection F1 as Fi Fl Fc Fs.
  destruct (set_up_loop_belt_events piece_count
              (Z.to_nat (piece_count - current_piece_count (robot w)))
              (S fuel) fuel w1) as (w' & E & F & T);
    [congruence|lia|lia|].
  exists w'. split; [exact E|].
  rewrite F, T, Fi, Fc, Fs, T1, belt_events_app,
    (belt_events_neutral t1 N1), app_nil_r.
  split; reflexivity.
Qed.

Lemma settled_after_load piece_count k :
  forall c s,
    0 <= c -> piece_count = c + Z.of_nat k ->
    (exists q, 0 <= q /\ ((c = 2 * q /\ s = 0) \/ (c = 2 * q + 1 /\ s = 1))) ->
    (k = 0%nat -> c = 0) ->
    settled piece_count (load_stack k piece_count c s).
Proof.
  induction k as [|k IH]; intros c s Hc Hn (q & Hq & Hp) H0.
  - simpl. left. split; [lia|]. specialize (H0 eq_refl). lia.
  - simpl. unfold full_after_load.
    destruct k as [|k].
    + replace (c + 1 =? piece_count) with true
        by (symmetry; apply Z.eqb_eq; lia).
      rewrite andb_false_r. simpl. right.
      destruct Hp as [[-> ->] | [-> ->]].
      * exists q. split; [lia|]. right. lia.
      * exists q. split; [lia|]. left. lia.
    + replace (c + 1 =? piece_count) with false
        by (symmetry; apply Z.eqb_neq; lia).
      rewrite andb_true_r.
      apply IH; [lia|lia| |discriminate].
      destruct Hp as [[-> ->] | [-> ->]].
      * change (if 0 + 1 =? 2 then 0 else 0 + 1) with 1.
        exists q. split; [lia|]. right. lia.
      * change (if 1 + 1 =? 2 then 0 else 1 + 1) with 0.
        exists (q + 1). split; [lia|]. left. lia.
Qed.

Lemma settled_after_grab c s :
  settled c s -> c <> 0 ->
  settled (c - 1) (if empty_after_grab c s then 2 else s - 1).
Proof.
  intros [[-> ->] | (q & Hq & [[-> ->] | [-> ->]])] Hc; [lia| |].
  - replace (empty_after_grab (2 * q + 2) 2) with false by reflexivity.
    right. exists q. split; [lia|]. right. lia.
  - unfold empty_after_grab. change (1 - 1 =? 0) with true. cbn [andb].
    destruct (2 * q + 1 - 1 =? 0) eqn:E; cbn [negb].
    + apply Z.eqb_eq in E. left. lia.
    + apply Z.eqb_neq in E. right. exists (q - 1). split; [lia|].
      left. lia.
Qed.

Lemma grabs_empty_the_belt fuel k :
  forall w,
    belt_lock (robot w) = false ->
    settled (current_piece_count (robot w)) (current_stack_count (robot w)) ->
    current_piece_count (robot w) = Z.of_nat k ->
    exists w',
      run_operations drv (S fuel) (repeat Grab k) w = (Ok tt, w') /\
      current_piece_count (robot w') = 0 /\
      current_stack_count (robot w') = 0.
Proof.
  induction k as [|k IH]; intros w L HS C; simpl.
  - exists w. split; [reflexivity|].
    destruct HS as [[? ?] | (q & ? & [[? ?] | [? ?]])]; lia.
  - destruct (grab_piece_run drv healthy fuel w L) as (w1 & v & t & E & F & _);
      [lia|].
    rewrite (step_eq _ _ _ _ _ E).
    unfold belt_fields in F. injection F as Fi Fl Fc Fs.
    apply IH; [exact Fl| |lia].
    rewrite Fc, Fs. apply settled_after_grab; [exact HS|lia].
Qed.

Lemma supplied_after_grab c s :
  supplied c s -> c <> 0 ->
  supplied (c - 1) (if empty_after_grab c s then 2 else s - 1).
Proof.
  unfold supplied, empty_after_grab. intros (Hc & Hs & H) C.
  specialize (H C).
  destruct (Z.eqb_spec (s - 1) 0); destruct (Z.eqb_spec (c - 1) 0);
    cbn [andb negb]; lia.
Qed.

Lemma run_operation_keeps_supplied fuel o w w' :
  belt_lock (robot w) = false ->
  supplied (current_piece_count (robot w)) (current_stack_count (robot w)) ->
  run_operation drv fuel o w = (Ok tt, w') ->
  belt_lock (robot w') = false /\
  supplied (current_piece_count (robot w')) (current_stack_count (robot w')).
Proof.
  intros L HS E. destruct o as [piece_count|]; simpl in E.
  - destruct fuel as [|fuel].
    { unfold set_up_game, bind, self in E.
      destruct (magazine_ready (robot w)); discriminate. }
    destruct (set_up_game_enters_loop drv healthy fuel piece_count w)
      as (w1 & (F1 & _) & E1).
    rewrite E1 in E.
    unfold same_belt, belt_fields in F1. injection F1 as Fi Fl Fc Fs.
    assert (Step : forall c s,
               0 <= c /\ 0 <= s /\ (c = piece_count -> c <> 0 -> 1 <= s) ->
               c <> piece_count ->
               0 <= c + 1 /\
               0 <= (if full_after_load piece_count c s then 0 else s + 1) /\
               (c + 1 = piece_count -> c + 1 <> 0 ->
                1 <= (if full_after_load piece_count c s then 0 else s + 1))).
    { intros c s (Hc & Hs & _) Hn. unfold full_after_load.
      destruct (Z.eqb_spec (s + 1) 2);
        destruct (Z.eqb_spec (c + 1) piece_count); cbn [andb negb]; lia. }
    destruct (set_up_loop_keeps drv healthy
                (fun c s => 0 <= c /\ 0 <= s /\
                            (c = piece_count -> c <> 0 -> 1 <= s))
                piece_count Step (S fuel) fuel w1 w')
      as (_ & Gl & Gc & Gs).
    + congruence.
    + rewrite Fc, Fs. unfold supplied in HS. intuition.
    + exact E.
    + split; [exact Gl|]. rewrite Gc. unfold supplied. intuition.
  - destruct (Z.eq_dec (current_piece_count (robot w)) 0) as [C|C].
    + rewrite (grab_piece_at_zero drv fuel w C) in E.
      injection E as <-. auto.
    + destruct fuel as [|fuel].
      { unfold grab_piece, bind, self in E. apply Z.eqb_neq in C.
        rewrite C in E. unfold with_belt_lock, acquire, bind, self in E.
        rewrite L in E. discriminate. }
      destruct (grab_piece_run drv healthy fuel w L C)
        as (w1 & v & t & E1 & F & _).
      rewrite E1 in E. injection E as <-.
      unfold belt_fields in F. injection F as Fi Fl Fc Fs.
      split; [exact Fl|]. rewrite Fc, Fs. now apply supplied_after_grab.
Qed.

Lemma run_operations_keep_supplied fuel os :
  forall w w',
    belt_lock (robot w) = false ->
    supplied (current_piece_count (robot w)) (current_stack_count (robot w)) ->
    run_operations drv fuel os w = (Ok tt, w') ->
    belt_lock (robot w') = false /\
    supplied (current_piece_count (robot w')) (current_stack_count (robot w')).
Proof.
  induction os as [|o os IH]; intros w w' L HS E; simpl in E.
  - injection E as <-. auto.
  - unfold bind in E.
    destruct (run_operation drv fuel o w) as [[[]|e|] w1] eqn:E1;
      try discriminate.
    destruct (run_operation_keeps_supplied fuel o w w1 L HS E1) as [L1 S1].
    eapply IH; eassumption.
Qed.

End Sessions.

Lemma simulator_fault_free : fault_free Simulator.driver.
Proof.
  split; [|split].
  - intros c s. now exists VNone.
  - intro s. now right.
  - intro s. reflexivity.
Qed.

Lemma placements_belt_events t :
  placements (belt_events t) = placements t.
Proof.
  unfold placements, belt_events. f_equal.
  induction t as [|e t IH]; [reflexivity|].
  simpl. destruct e as [c o| | | | | | | |old new];
    try destruct c; simpl; rewrite ?IH; reflexivity.
Qed.

Lemma belt_advances_belt_events t :
  belt_advances (belt_events t) = belt_advances t.
Proof.
  unfold belt_advances, belt_events. f_equal.
  induction t as [|e t IH]; [reflexivity|].
  simpl. destruct e as [c o| | | | | | | |old new];
    try destruct c; simpl; rewrite ?IH; reflexivity.
Qed.

(** C3 (load, then grab everything): from a fresh session and under a
    driver that never fails, [set_up_game N] followed by [N] calls of
    [grab_piece] returns, with both counts at zero, for every
    [N >= 0]. *)
Theorem load_then_grab_all_returns_to_empty
  {D} (drv : Driver D) (N : Z) (fuel : nat) (w : World D) (id : value) :
  fault_free drv ->
  robot w = fresh id ->
  0 <= N ->
  (Z.to_nat N < fuel)%nat ->
  exists w',
    run_operations drv fuel (Load N :: repeat Grab (Z.to_nat N)) w
      = (Ok tt, w') /\
    current_piece_count (robot w') = 0 /\
    current_stack_count (robot w') = 0.
Proof.
  intros healthy Hw HN Hf. simpl.
  destruct (set_up_game_belt_events drv healthy N fuel w)
    as (w1 & E1 & F1 & _).
  - now rewrite Hw.
  - rewrite Hw. exact HN.
  - rewrite Hw. simpl. now rewrite Z.sub_0_r.
  - rewrite (step_eq _ _ _ _ _ E1).
    rewrite Hw in F1. simpl in F1. rewrite Z.sub_0_r in F1.
    unfold belt_fields in F1. injection F1 as Fi Fl Fc Fs.
    destruct fuel as [|fuel]; [lia|].
    apply (grabs_empty_the_belt drv healthy); [exact Fl| |lia].
    rewrite Fc, Fs.
    apply settled_after_load; [lia|lia| |lia].
    exists 0. split; [lia|]. left. lia.
Qed.

Lemma load_then_grab_all_returns_to_empty_witness :
  exists w',
    run_operations Simulator.driver 4 [Load 3; Grab; Grab; Grab]
      Simulator.session = (Ok tt, w') /\
    current_piece_count (robot w') = 0 /\
    current_stack_count (robot w') = 0.
Proof.
  apply (load_then_grab_all_returns_to_empty
           Simulator.driver 3 4 Simulator.session (VInt 1)).
  - exact simulator_fault_free.
  - reflexivity.
  - lia.
  - simpl. lia.
Defined.

(** C5, as the specification has it, fails on the simulated driver that
    always succeeds: [set_up_game 4] starts one belt thread, not two,
    and leaves two pieces staged, not none. *)
Lemma set_up_game_four_counterexample :
  let w' := snd (set_up_game Fake.driver 5 4 (Fake.session Fake.healthy)) in
  ~ (placements (trace w') = 4%nat /\
     belt_advances (trace w') = 2%nat /\
     current_piece_count (robot w') = 4 /\
     current_stack_count (robot w') = 0).
Proof.
  intros w' (_ & H & _). vm_compute in H. discriminate.
Qed.

(** C5, amended: under a driver that never fails, [set_up_game 4] from
    a fresh session returns after exactly four placement cycles and one
    belt advance, started after the second piece and not after the
    fourth; 4 pieces are then counted, 2 of them staged. *)
Theorem set_up_game_four_places_four_advances_once
  {D} (drv : Driver D) (fuel : nat) (w : World D) (id : value) :
  fault_free drv ->
  robot w = fresh id ->
  trace w = [] ->
  (4 < fuel)%nat ->
  exists w',
    set_up_game drv fuel 4 w = (Ok tt, w') /\
    belt_events (trace w') =
      [Acquire; StackCount 0 1; Release;
       Acquire; StackCount 1 2; Release;
       StackCount 2 0; Start BACKWARD;
       Acquire; StackCount 0 1; Release;
       Acquire; StackCount 1 2; Release] /\
    placements (trace w') = 4%nat /\
    belt_advances (trace w') = 1%nat /\
    current_piece_count (robot w') = 4 /\
    current_stack_count (robot w') = 2.
Proof.
  intros healthy Hw Ht Hf.
  destruct (set_up_game_belt_events drv healthy 4 fuel w)
    as (w' & E & F & T).
  - now rewrite Hw.
  - rewrite Hw. simpl. lia.
  - rewrite Hw. simpl. exact Hf.
  - rewrite Hw, ?Ht in *. simpl in F, T.
    change (Z.to_nat (4 - 0)) with 4%nat in F, T.
    unfold belt_fields in F. injection F as Fi Fl Fc Fs.
    exists w'. split; [exact E|]. split; [exact T|].
    rewrite <- placements_belt_events, <- belt_advances_belt_events, T.
    repeat split; assumption.
Qed.

Lemma set_up_game_four_places_four_advances_once_witness :
  exists w',
    set_up_game Simulator.driver 5 4 Simulator.session = (Ok tt, w') /\
    belt_events (trace w') =
      [Acquire; StackCount 0 1; Release;
       Acquire; StackCount 1 2; Release;
       StackCount 2 0; Start BACKWARD;
       Acquire; StackCount 0 1; Release;
       Acquire; StackCount 1 2; Release] /\
    placements (trace w') = 4%nat /\
    belt_advances (trace w') = 1%nat /\
    current_piece_count (robot w') = 4 /\
    current_stack_count (robot w') = 2.
Proof.
  apply (set_up_game_four_places_four_advances_once
           Simulator.driver 5 Simulator.session (VInt 1)).
  - exact simulator_fault_free.
  - reflexivity.
  - reflexivity.
  - lia.
Defined.

(** C1 at the input that breaks it: after [set_up_game 2] and then
    [set_up_game 3] on a driver that always succeeds, three pieces are
    counted as staged on a belt with two slots. *)
Theorem second_load_overfills_stack_count :
  let run := run_operations Fake.driver 4 [Load 2; Load 3]
               (Fake.session Fake.healthy) in
  fst run = Ok tt /\
  current_piece_count (robot (snd run)) = 3 /\
  current_stack_count (robot (snd run)) = 3.
Proof. vm_compute. repeat split. Qed.

(** ** When [set_up_game] returns *)

(** C10 (termination of the load): under a driver that never fails,
    with the lock free, [set_up_game piece_count] returns exactly when
    [piece_count] is at least the current piece count; below it the
    loop never ends, whatever the fuel. *)
Theorem set_up_game_terminates_iff_target_not_below
  {D} (drv : Driver D) (piece_count : Z) (w : World D) :
  fault_free drv ->
  belt_lock (robot w) = false ->
  ((exists fuel, fst (set_up_game drv fuel piece_count w) = Ok tt) <->
   current_piece_count (robot w) <= piece_count) /\
  (piece_count < current_piece_count (robot w) ->
   forall fuel, fst (set_up_game drv fuel piece_count w) = Diverge).
Proof.
  intros healthy L.
  assert (Div : piece_count < current_piece_count (robot w) ->
                forall fuel,
                  fst (set_up_game drv fuel piece_count w) = Diverge).
  { intros C [|fuel].
    - unfold set_up_game, bind, self.
      destruct (magazine_ready (robot w)); reflexivity.
    - destruct (set_up_game_enters_loop drv healthy fuel piece_count w)
        as (w1 & (F1 & _) & ->).
      unfold same_belt, belt_fields in F1. injection F1 as Fi Fl Fc Fs.
      apply (set_up_loop_diverges drv healthy); [congruence|lia]. }
  split; [split|exact Div].
  - intros [fuel E].
    destruct (Z_le_gt_dec (current_piece_count (robot w)) piece_count)
      as [C|C]; [exact C|].
    rewrite Div in E; [discriminate|lia].
  - intro C.
    exists (S (Z.to_nat (piece_count - current_piece_count (robot w)))).
    destruct (set_up_game_belt_events drv healthy piece_count
                (S (Z.to_nat (piece_count - current_piece_count (robot w))))
                w L C) as (w' & E & _); [lia|].
    now rewrite E.
Qed.

(** From a fresh session a target of 3 is reached, a target of -1
    never. *)
Lemma set_up_game_terminates_iff_target_not_below_witness :
  (exists fuel,
     fst (set_up_game Simulator.driver fuel 3 Simulator.session) = Ok tt) /\
  (forall fuel,
     fst (set_up_game Simulator.driver fuel (-1) Simulator.session)
       = Diverge).
Proof.
  split.
  - apply (set_up_game_terminates_iff_target_not_below
             Simulator.driver 3 Simulator.session
             simulator_fault_free eq_refl).
    simpl. lia.
  - apply (set_up_game_terminates_iff_target_not_below
             Simulator.driver (-1) Simulator.session
             simulator_fault_free eq_refl).
    simpl. lia.
Defined.

(** ** Which slot *)

Lemma index_positions_differ : index0_pos <> index1_pos.
Proof. discriminate. Qed.

(** C6 (slot selection): under a driver that never fails, a load turn
    takes the lock and moves to slot 0 when no piece is staged and to
    slot 1 otherwise, then counts the piece; a grab in a state that a
    session of loads and grabs has reached takes the lock and moves
    first to slot 0 when exactly one piece is staged and to slot 1
    otherwise, and that slot holds a piece. *)
Theorem slot_selection_follows_occupancy
  {D} (drv : Driver D) (fuel : nat) (piece_count : Z)
  (os : list operation) (w0 w wl : World D) (id : value) :
  fault_free drv ->
  belt_lock (robot wl) = false ->
  robot w0 = fresh id ->
  run_operations drv (S fuel) os w0 = (Ok tt, w) ->
  (let s := current_stack_count (robot wl) in
   let slot := if s =? 0 then index0_pos else index1_pos in
   exists w' v t1 rest,
     set_up_piece drv (S fuel) piece_count wl = (Ok tt, w') /\
     forallb neutral t1 = true /\
     trace w' =
       trace wl ++ t1 ++
       [Acquire; Log info BeltLockedForPlacing;
        Invoke (move_pose slot) (Ret v);
        Log info (MovedToPosition slot);
        StackCount s (s + 1)] ++ rest) /\
  (current_piece_count (robot w) <> 0 ->
   let s := current_stack_count (robot w) in
   let slot := if s =? 1 then index0_pos else index1_pos in
   slot_occupied s slot /\
   exists w' v rest,
     grab_piece drv (S fuel) w = (Ok tt, w') /\
     trace w' =
       trace w ++
       [Acquire; Invoke (move_pose slot) (Ret v);
        Log info (MovedToPosition slot)] ++ rest) /\
  index0_pos <> index1_pos.
Proof.
  intros healthy Ll Hw0 Hrun. split; [|split].
  - intros s slot.
    destruct (set_up_piece_run drv healthy fuel piece_count wl Ll)
      as (w' & v & t1 & t2 & E & _ & T & N1 & _).
    exists w', v, t1. eexists. split; [exact E|]. split; [exact N1|].
    exact T.
  - intros C s slot.
    destruct (run_operations_keep_supplied drv healthy (S fuel) os w0 w)
      as (L & Hc & Hs & Hcs); [now rewrite Hw0| |exact Hrun|].
    { rewrite Hw0. unfold supplied. simpl. lia. }
    split.
    + specialize (Hcs C). fold s in Hcs. unfold slot_occupied, slot.
      destruct (Z.eqb_spec s 1); [left|right]; split; (reflexivity || lia).
    + destruct (grab_piece_run drv healthy fuel w L C)
        as (w' & v & t & E & _ & T & _).
      exists w', v. eexists. split; [exact E|exact T].
  - exact index_positions_differ.
Qed.

(** Three pieces loaded, one grabbed: the next grab goes to slot 1. *)
Lemma slot_selection_follows_occupancy_witness :
  let w := snd (run_operations Simulator.driver 5 [Load 3; Grab]
                  Simulator.session) in
  slot_occupied (current_stack_count (robot w)) index1_pos /\
  exists w' v rest,
    grab_piece Simulator.driver 5 w = (Ok tt, w') /\
    trace w' =
      trace w ++
      [Acquire; Invoke (move_pose index1_pos) (Ret v);
       Log info (MovedToPosition index1_pos)] ++ rest.
Proof.
  intro w.
  assert (E : run_operations Simulator.driver 5 [Load 3; Grab]
                Simulator.session = (Ok tt, w))
    by (vm_compute; reflexivity).
  assert (S2 : current_stack_count (robot w) = 2)
    by (vm_compute; reflexivity).
  assert (C : current_piece_count (robot w) <> 0)
    by (vm_compute; discriminate).
  destruct (slot_selection_follows_occupancy
              Simulator.driver 4 3 [Load 3; Grab]
              Simulator.session w Simulator.session (VInt 1)
              simulator_fault_free eq_refl eq_refl E)
    as (_ & G & _).
  specialize (G C). rewrite S2 in G. rewrite S2. exact G.
Defined.

(** ** The belt lock *)

Lemma discipline_app guard t1 :
  forall held t2,
    discipline guard held (t1 ++ t2) =
      match discipline guard held t1 with
      | Some held' => discipline guard held' t2
      | None => None
      end.
Proof.
  induction t1 as [|e t1 IH]; intros held t2; [reflexivity|].
  simpl. destruct (guard held e); [apply IH|reflexivity].
Qed.

Lemma code_guard_neutral held e :
  neutral e = true -> code_guard held e = true /\ lock_after held e = held.
Proof.
  destruct e as [c o| | | | | | | |old new]; try discriminate;
    try (intros _; split; reflexivity).
  destruct c; try discriminate; intros _; split; reflexivity.
Qed.

Lemma discipline_neutral t :
  forall held, forallb neutral t = true ->
               discipline code_guard held t = Some held.
Proof.
  induction t as [|e t IH]; intros held H; [reflexivity|].
  simpl in H. apply andb_prop in H as [He Ht].
  destruct (code_guard_neutral held e He) as [G L].
  simpl. rewrite G, L. now apply IH.
Qed.

Section Discipline.

Context {D : Type}.
Variable drv : Driver D.

(** The world the thread started in. *)
Variable w0 : World D.

#[local] Abbreviation M := (@M D).
#[local] Abbreviation in_order := (in_order w0).
#[local] Abbreviation in_order_with := (in_order_with w0).
#[local] Abbreviation keeps := (keeps w0).
#[local] Abbreviation tidy := (tidy w0).

Lemma in_order_quiet held w w' :
  in_order_with held w -> quiet_after w w' -> in_order_with held w'.
Proof.
  intros [(t & T & H) L] (F & t' & T' & N).
  unfold same_belt, belt_fields in F. injection F as Fi Fl Fc Fs.
  split; [|congruence].
  exists (t ++ t'). split.
  - now rewrite T', T, app_assoc.
  - rewrite discipline_app, H, Fl. now apply discipline_neutral.
Qed.

Lemma in_order_step held w w' e :
  in_order_with held w ->
  trace w' = trace w ++ [e] ->
  belt_lock (robot w') = lock_after held e ->
  code_guard held e = true ->
  in_order_with (lock_after held e) w'.
Proof.
  intros [(t & T & H) L] T' L' G. split; [|exact L'].
  exists (t ++ [e]). split.
  - now rewrite T', T, app_assoc.
  - rewrite discipline_app, H, L. simpl. rewrite G. now rewrite L'.
Qed.

Lemma keeps_quiet {A} held (m : M A) : quiet m -> keeps held m.
Proof. intros Q w H. eapply in_order_quiet; [exact H|apply Q]. Qed.

Lemma keeps_bind {A B} held (m : M A) (k : A -> M B) :
  keeps held m -> (forall a, keeps held (k a)) -> keeps held (bind m k).
Proof.
  intros Hm Hk w H. specialize (Hm w H). unfold bind.
  destruct (m w) as [[a|e|] w1]; simpl in *; try exact Hm.
  now apply Hk.
Qed.

Lemma keeps_try_except {A} held (m : M A) (h : exn -> M A) :
  keeps held m -> (forall e, keeps held (h e)) ->
  keeps held (try_except m h).
Proof.
  intros Hm Hh w H. specialize (Hm w H). unfold try_except.
  destruct (m w) as [[a|e|] w1]; simpl in *; try exact Hm.
  now apply Hh.
Qed.

Lemma keeps_emit held e :
  code_guard held e = true -> lock_after held e = held ->
  keeps held (emit e).
Proof.
  intros G L w H. rewrite <- L.
  apply (in_order_step held w _ e H); [reflexivity| |exact G].
  simpl. rewrite L. apply H.
Qed.

(** With the lock held every driver call is in order. *)
Lemma keeps_call a : keeps true (call drv a).
Proof.
  intros w H. unfold call. destruct (act_body a) as [c|]; [|exact H].
  unfold outside. destruct (drv_call drv c (driver w)) as [o d] eqn:E.
  assert (J : in_order_with true
                {| robot := robot w; driver := d;
                   trace := trace w ++ [Invoke c o] |}).
  { change true with (lock_after true (Invoke c o)).
    apply (in_order_step true w _ _ H); [reflexivity|apply H|].
    now destruct c. }
  destruct o; exact J.
Qed.

Lemma keeps_retry_loop fuel name a : keeps true (retry_loop drv fuel name a).
Proof.
  induction fuel as [|fuel IH]; simpl; [intros w H; exact H|].
  apply keeps_try_except; [apply keeps_call|].
  intros []; try (intros w H; exact H).
  - apply keeps_bind; [apply keeps_quiet, quiet_log|].
    intros _ w H; exact H.
  - apply keeps_bind; [apply keeps_quiet, quiet_log|intros _; exact IH].
Qed.

Lemma keeps_assign_stack_count held n w :
  in_order_with held w ->
  code_guard held (StackCount (current_stack_count (robot w)) n) = true ->
  in_order_with held (snd (assign_stack_count n w)).
Proof.
  intros H G.
  change held with (lock_after held
                      (StackCount (current_stack_count (robot w)) n)).
  apply (in_order_step held w _ _ H); [reflexivity|apply H|exact G].
Qed.

Lemma keeps_place_piece fuel : keeps true (place_piece drv fuel).
Proof.
  unfold place_piece.
  apply keeps_bind; [apply keeps_quiet, quiet_log|intros _].
  apply keeps_bind; [apply keeps_quiet, quiet_self|intros r].
  apply keeps_bind; [apply keeps_quiet, quiet_move_to_pos|intros _].
  intros w H. unfold bind at 1, self at 1.
  assert (H1 : in_order_with true
                 (snd (assign_stack_count
                         (current_stack_count (robot w) + 1) w))).
  { apply keeps_assign_stack_count; [exact H|].
    simpl. now rewrite Z.eqb_refl. }
  unfold bind at 1.
  destruct (assign_stack_count (current_stack_count (robot w) + 1) w)
    as [[[]|e|] w1] eqn:E; try exact H1.
  revert H1. simpl.
  apply (keeps_bind true (control_gripper drv fuel OPEN)
           (fun _ => move_to_home drv fuel)).
  - apply keeps_quiet, quiet_control_gripper.
  - intros _. apply keeps_quiet, quiet_move_to_home.
Qed.

Lemma keeps_take_piece fuel : keeps true (take_piece drv fuel).
Proof.
  unfold take_piece.
  apply keeps_bind; [apply keeps_quiet, quiet_self|intros r].
  apply keeps_bind; [apply keeps_quiet, quiet_move_to_pos|intros _].
  apply keeps_bind; [apply keeps_quiet, quiet_control_gripper|intros _].
  apply keeps_bind; [apply keeps_quiet, quiet_move_to_home|intros _].
  intros w H. unfold bind at 1, self at 1.
  assert (H1 : in_order_with true
                 (snd (assign_stack_count
                         (current_stack_count (robot w) - 1) w))).
  { apply keeps_assign_stack_count; [exact H|].
    simpl. rewrite Z.eqb_refl. apply orb_true_r. }
  unfold bind at 1.
  destruct (assign_stack_count (current_stack_count (robot w) - 1) w)
    as [[[]|e|] w1] eqn:E; exact H1.
Qed.

Lemma in_order_steps held held' w w' es :
  in_order_with held w ->
  trace w' = trace w ++ es ->
  belt_lock (robot w') = held' ->
  discipline code_guard held es = Some held' ->
  in_order_with held' w'.
Proof.
  intros [(t & T & H) L] T' L' G. split; [|exact L'].
  exists (t ++ es). split.
  - now rewrite T', T, app_assoc.
  - rewrite discipline_app, H, L, G. now rewrite L'.
Qed.

Lemma keeps_advance_when_full piece_count :
  keeps false (advance_when_full piece_count).
Proof.
  intros w H. unfold advance_when_full, bind at 1, self at 1.
  destruct (Z.eqb_spec (current_stack_count (robot w)) 2) as [S2|S2];
    [|exact H].
  destruct (negb (current_piece_count (robot w) =? piece_count));
    [|exact H].
  apply (in_order_steps false false w _
           [Log info StackFull;
            StackCount (current_stack_count (robot w)) 0;
            Start BACKWARD] H).
  - simpl. now rewrite <- !app_assoc.
  - apply H.
  - rewrite S2. reflexivity.
Qed.

Lemma keeps_advance_when_empty : keeps false advance_when_empty.
Proof.
  intros w H. unfold advance_when_empty, bind at 1, self at 1.
  destruct (Z.eqb_spec (current_stack_count (robot w)) 0) as [S0|S0];
    [|exact H].
  destruct (negb (current_piece_count (robot w) =? 0)); [|exact H].
  apply (in_order_steps false false w _
           [StackCount (current_stack_count (robot w)) 2;
            Start FORWARD] H).
  - simpl. now rewrite <- !app_assoc.
  - apply H.
  - rewrite S0. reflexivity.
Qed.

Lemma tidy_keeps {A} (m : M A) : keeps false m -> tidy m.
Proof.
  intros K w H. destruct (K w H) as [I L]. split; [exact I|]. now intros _.
Qed.

Lemma tidy_bind {A B} (m : M A) (k : A -> M B) :
  tidy m -> (forall a, tidy (k a)) -> tidy (bind m k).
Proof.
  intros Hm Hk w H. destruct (Hm w H) as [I L]. unfold bind.
  destruct (m w) as [[a|e|] w1]; simpl in *.
  - apply Hk. split; [exact I|]. now apply L.
  - split; [exact I|]. intros _. now apply L.
  - split; [exact I|]. intro C. now contradiction C.
Qed.

Lemma tidy_with_belt_lock {A} (body : M A) :
  keeps true body -> tidy (with_belt_lock body).
Proof.
  intros K w H. destruct H as [I L].
  unfold with_belt_lock, acquire, bind, self. rewrite L.
  unfold update, emit. simpl.
  assert (H1 : in_order_with true
                 {| robot := set_belt_lock true (robot w);
                    driver := driver w;
                    trace := trace w ++ [Acquire] |}).
  { apply (in_order_steps false true w _ [Acquire] (conj I L));
      reflexivity. }
  specialize (K _ H1). unfold try_finally.
  destruct (body _) as [[a|e|] w1]; simpl in K.
  - assert (H2 : in_order_with false
                   {| robot := set_belt_lock false (robot w1);
                      driver := driver w1;
                      trace := trace w1 ++ [Release] |})
      by (apply (in_order_steps true false w1 _ [Release] K); reflexivity).
    simpl. split; [apply H2|]. intros _. reflexivity.
  - assert (H2 : in_order_with false
                   {| robot := set_belt_lock false (robot w1);
                      driver := driver w1;
                      trace := trace w1 ++ [Release] |})
      by (apply (in_order_steps true false w1 _ [Release] K); reflexivity).
    simpl. split; [apply H2|]. intros _. reflexivity.
  - simpl. split; [apply K|]. intro C. now contradiction C.
Qed.

Lemma tidy_set_up_piece fuel piece_count :
  tidy (set_up_piece drv fuel piece_count).
Proof.
  unfold set_up_piece.
  apply tidy_bind; [apply tidy_keeps, keeps_quiet, quiet_self|intros r].
  apply tidy_bind; [apply tidy_keeps, keeps_quiet, quiet_log|intros _].
  apply tidy_bind; [apply tidy_keeps, keeps_quiet, quiet_log|intros _].
  apply tidy_bind; [apply tidy_keeps|intros _].
  { intros w [(t & T & H) L]. split; [|exact L]. now exists t. }
  apply tidy_bind;
    [apply tidy_keeps, keeps_quiet, quiet_move_to_pos|intros _].
  apply tidy_bind; [apply tidy_keeps, keeps_quiet|intros _].
  { apply quiet_slow_arm_control.
    apply quiet_bind; [apply quiet_move_to_pos|intros _].
    apply quiet_bind; [apply quiet_control_gripper|intros _].
    apply quiet_move_to_pos. }
  apply tidy_bind;
    [apply tidy_keeps, keeps_quiet, quiet_move_to_home|intros _].
  apply tidy_bind; [apply tidy_keeps, keeps_quiet, quiet_self|intros r'].
  apply tidy_bind; [apply tidy_keeps, keeps_quiet|intros _].
  { destruct (board_calibrated r');
      [apply quiet_ret|apply quiet_calibrate_board]. }
  apply tidy_bind; [apply tidy_with_belt_lock, keeps_place_piece|intros _].
  apply tidy_keeps, keeps_advance_when_full.
Qed.

Lemma tidy_set_up_loop fuel inner piece_count :
  tidy (set_up_loop drv fuel inner piece_count).
Proof.
  induction fuel as [|fuel IH]; simpl.
  - apply tidy_keeps. intros w H. exact H.
  - apply tidy_bind; [apply tidy_keeps, keeps_quiet, quiet_self|intros r].
    destruct (current_piece_count r =? piece_count).
    + apply tidy_keeps, keeps_quiet, quiet_ret.
    + apply tidy_bind; [apply tidy_set_up_piece|intros _; exact IH].
Qed.

Lemma tidy_set_up_game fuel piece_count :
  tidy (set_up_game drv fuel piece_count).
Proof.
  unfold set_up_game.
  apply tidy_bind; [apply tidy_keeps, keeps_quiet, quiet_self|intros r].
  apply tidy_bind; [apply tidy_keeps, keeps_quiet|intros _].
  - destruct (magazine_ready r); [apply quiet_ret|].
    apply quiet_bind; [apply quiet_move_to_pos|intros _].
    apply quiet_bind; [apply quiet_move_to_pos|intros _].
    apply quiet_bind; [apply quiet_log|intros _].
    apply quiet_bind; [apply quiet_log|intros _].
    apply quiet_bind; [apply quiet_input|intros _].
    apply quiet_bind; [apply quiet_move_to_home|intros _].
    apply quiet_update. intro r0. reflexivity.
  - apply tidy_set_up_loop.
Qed.

Lemma tidy_grab_piece fuel : tidy (grab_piece drv fuel).
Proof.
  unfold grab_piece.
  apply tidy_bind; [apply tidy_keeps, keeps_quiet, quiet_self|intros r].
  destruct (current_piece_count r =? 0).
  - apply tidy_keeps, keeps_quiet, quiet_ret.
  - apply tidy_bind; [apply tidy_with_belt_lock, keeps_take_piece|intros _].
    apply tidy_keeps, keeps_advance_when_empty.
Qed.

Lemma tidy_move_pieces_on_belt fuel direction :
  tidy (move_pieces_on_belt drv fuel direction).
Proof.
  unfold move_pieces_on_belt. apply tidy_with_belt_lock.
  apply keeps_bind; [apply keeps_quiet, quiet_log|intros _].
  apply keeps_bind; [apply keeps_quiet, quiet_log|intros _].
  apply keeps_bind; [apply keeps_quiet, quiet_self|intros r].
  apply keeps_bind; [apply keeps_retry_loop|intros _].
  apply keeps_bind; [now apply keeps_emit|intros _].
  apply keeps_bind; [apply keeps_quiet, quiet_self|intros r'].
  apply keeps_bind; [apply keeps_retry_loop|intros _].
  apply keeps_quiet, quiet_log.
Qed.

Lemma tidy_run_operations fuel os : tidy (run_operations drv fuel os).
Proof.
  induction os as [|o os IH]; simpl.
  - apply tidy_keeps, keeps_quiet, quiet_ret.
  - apply tidy_bind; [|intros _; exact IH].
    destruct o; [apply tidy_set_up_game|apply tidy_grab_piece].
Qed.

Lemma tidy_run_thread fuel b : tidy (run_thread drv fuel b).
Proof.
  destruct b; [apply tidy_run_operations|apply tidy_move_pieces_on_belt].
Qed.

End Discipline.

(** *** Threads together *)

Lemma touches_belt_needs_lock held e :
  touches_belt e = true -> code_guard held e = true -> held = true.
Proof.
  destruct held; [reflexivity|].
  destruct e as [c o| | | | | | | |old new]; try discriminate.
  - destruct c; discriminate.
  - simpl. intros T G.
    destruct (Z.eqb_spec new (old + 1)); destruct (Z.eqb_spec new (old - 1));
      destruct (Z.eqb_spec old 2); destruct (Z.eqb_spec new 0);
      destruct (Z.eqb_spec old 0); destruct (Z.eqb_spec new 2);
      simpl in *; try discriminate; lia.
Qed.

Lemma lock_step_agrees h (b : nat -> bool) j e h' :
  (forall k, b k = true <-> h = Some k) ->
  lock_step h j e = Some h' ->
  code_guard (b j) e = true ->
  forall k,
    (if Nat.eqb k j then lock_after (b j) e else b k) = true <->
    h' = Some k.
Proof.
  intros Hb Hs Hg k.
  assert (Hj : b j = true <-> h = Some j) by apply Hb.
  destruct (Nat.eqb_spec k j) as [->|Hk].
  - destruct e as [c o| | | | | | | |old new]; simpl in *;
      try (injection Hs as <-; exact Hj).
    + destruct h as [i|]; [discriminate|]. injection Hs as <-. tauto.
    + destruct h as [i|]; [|discriminate].
      destruct (Nat.eqb j i); [|discriminate]. injection Hs as <-.
      split; discriminate.
  - specialize (Hb k).
    destruct e as [c o| | | | | | | |old new]; simpl in *;
      try (injection Hs as <-; exact Hb).
    + destruct h as [i|]; [discriminate|]. injection Hs as <-.
      split; [intro B; apply Hb in B; discriminate|].
      intro E. injection E as ->. now contradiction Hk.
    + destruct h as [i|]; [|discriminate].
      destruct (Nat.eqb_spec j i) as [->|]; [|discriminate].
      injection Hs as <-.
      split; [intro B; apply Hb in B; injection B as ->;
              now contradiction Hk|discriminate].
Qed.

Lemma thread_events_cons j e k s :
  thread_events k ((j, e) :: s) =
    if Nat.eqb k j then e :: thread_events k s else thread_events k s.
Proof.
  unfold thread_events. simpl. rewrite (Nat.eqb_sym j k).
  now destruct (Nat.eqb k j).
Qed.

(** Whoever touches the belt holds the lock. *)
Lemma belt_event_by_holder (s1 : schedule) :
  forall (h : option nat) (b : nat -> bool) i e s2,
    (forall k, b k = true <-> h = Some k) ->
    holder h (s1 ++ (i, e) :: s2) <> None ->
    (forall k, discipline code_guard (b k)
                 (thread_events k (s1 ++ (i, e) :: s2)) <> None) ->
    touches_belt e = true ->
    holder h s1 = Some (Some i).
Proof.
  induction s1 as [|[j e0] s1 IH]; intros h b i e s2 Hb Hh Hd Ht.
  - simpl. f_equal. apply Hb.
    specialize (Hd i). simpl app in Hd.
    rewrite thread_events_cons, Nat.eqb_refl in Hd. simpl in Hd.
    destruct (code_guard (b i) e) eqn:G; [|now contradiction Hd].
    now apply (touches_belt_needs_lock (b i) e).
  - simpl in Hh |- *.
    destruct (lock_step h j e0) as [h'|] eqn:Hs; [|now contradiction Hh].
    assert (G : code_guard (b j) e0 = true).
    { specialize (Hd j). simpl app in Hd.
      rewrite thread_events_cons, Nat.eqb_refl in Hd. simpl in Hd.
      destruct (code_guard (b j) e0); [reflexivity|now contradiction Hd]. }
    apply (IH h' (fun k => if Nat.eqb k j then lock_after (b j) e0 else b k)
             i e s2).
    + now apply lock_step_agrees with (h := h).
    + exact Hh.
    + intro k. specialize (Hd k). simpl app in Hd.
      rewrite thread_events_cons in Hd. cbv beta.
      destruct (Nat.eqb_spec k j) as [E|E]; [|exact Hd].
      rewrite E in Hd |- *. simpl in Hd. now rewrite G in Hd.
    + exact Ht.
Qed.

(** *** One holding for a whole critical section *)

Lemma unbroken_app (a b : list event) :
  forall p,
    unbroken p (a ++ b) =
      match unbroken p a with
      | Some q => unbroken q b
      | None => None
      end.
Proof.
  induction a as [|e a IH]; intro p; [reflexivity|].
  simpl. destruct (section_step p e); [apply IH|reflexivity].
Qed.

(** An event that has its place keeps the discipline of the code. *)
Lemma section_step_guard p e q :
  section_step p e = Some q ->
  code_guard (holds_lock p) e = true /\
  lock_after (holds_lock p) e = holds_lock q.
Proof.
  destruct e as [c o| | | | | | | |old new]; simpl.
  - destruct c; try (intro H; injection H as <-; now split).
    + destruct p, o; try discriminate; intro H; injection H as <-;
        now split.
    + destruct p; try discriminate.
      destruct o as [v|[| | |what]]; intro H; injection H as <-;
        now split.
  - intro H. injection H as <-. now split.
  - intro H. injection H as <-. now split.
  - intro H. injection H as <-. now split.
  - destruct p; try discriminate. intro H. injection H as <-. now split.
  - destruct p; try discriminate. intro H. injection H as <-. now split.
  - destruct p; try discriminate; intro H; injection H as <-; now split.
  - intro H. injection H as <-. now split.
  - destruct p; try discriminate; simpl.
    + destruct (((old =? 2) && (new =? 0)) || ((old =? 0) && (new =? 2)));
        [|discriminate].
      intro H. injection H as <-. now split.
    + destruct ((new =? old + 1) || (new =? old - 1)); [|discriminate].
      intro H. injection H as <-. now split.
Qed.

Lemma unbroken_discipline (t : list event) :
  forall p q,
    unbroken p t = Some q ->
    discipline code_guard (holds_lock p) t = Some (holds_lock q).
Proof.
  induction t as [|e t IH]; intros p q; simpl.
  - intro H. now injection H as <-.
  - destruct (section_step p e) as [p'|] eqn:E; [|discriminate].
    destruct (section_step_guard p e p' E) as [G L]. rewrite G, L.
    apply IH.
Qed.

(** Away from the conveyor the discipline of the code is all there is
    to keep. *)
Lemma discipline_unbroken (t : list event) :
  forall held held',
    forallb (fun e => negb (on_conveyor e)) t = true ->
    discipline code_guard held t = Some held' ->
    unbroken (if held then Inside else Outside) t =
      Some (if held' then Inside else Outside).
Proof.
  induction t as [|e t IH]; intros held held'; simpl.
  - intros _ H. now injection H as <-.
  - intro F. apply andb_prop in F as [Fe Ft].
    destruct (code_guard held e) eqn:G; [|discriminate]. intro H.
    assert (S : section_step (if held then Inside else Outside) e =
                Some (if lock_after held e then Inside else Outside)).
    { destruct e as [c o| | | | | | | |old new]; simpl in *;
        try (now destruct held).
      - destruct c; try discriminate; now destruct held.
      - destruct held; simpl in *; now rewrite G. }
    rewrite S. now apply IH.
Qed.

Section OffConveyor.

Context {D : Type}.
Variable drv : Driver D.

#[local] Abbreviation M := (@M D).
#[local] Abbreviation off_conveyor := (@off_conveyor D).

Lemma neutral_off_conveyor (t : list event) :
  forallb neutral t = true ->
  forallb (fun e => negb (on_conveyor e)) t = true.
Proof.
  induction t as [|e t IH]; [reflexivity|]. simpl. intro H.
  apply andb_prop in H as [He Ht]. rewrite (IH Ht), andb_true_r.
  destruct e as [c o| | | | | | | |old new]; try reflexivity;
    try discriminate.
  destruct c; try reflexivity; discriminate.
Qed.

Lemma off_conveyor_quiet {A} (m : M A) : quiet m -> off_conveyor m.
Proof.
  intros Q w. destruct (Q w) as (_ & t & T & N). exists t.
  split; [exact T|now apply neutral_off_conveyor].
Qed.

Lemma off_conveyor_bind {A B} (m : M A) (k : A -> M B) :
  off_conveyor m -> (forall a, off_conveyor (k a)) ->
  off_conveyor (bind m k).
Proof.
  intros Hm Hk w. destruct (Hm w) as (t1 & T1 & N1). unfold bind.
  destruct (m w) as [[a|e|] w1]; cbn [snd] in *;
    [|now exists t1|now exists t1].
  destruct (Hk a w1) as (t2 & T2 & N2). exists (t1 ++ t2).
  rewrite T2, T1, app_assoc, forallb_app, N1, N2. now split.
Qed.

Lemma off_conveyor_try_finally {A} (m : M A) (f : M unit) :
  off_conveyor m -> off_conveyor f -> off_conveyor (try_finally m f).
Proof.
  intros Hm Hf w. destruct (Hm w) as (t1 & T1 & N1). unfold try_finally.
  destruct (m w) as [[a|e|] w1]; cbn [snd] in *; [| |now exists t1];
    destruct (Hf w1) as (t2 & T2 & N2);
    destruct (f w1) as [[[]|e'|] w2]; cbn [snd] in *;
    exists (t1 ++ t2);
    rewrite T2, T1, app_assoc, forallb_app, N1, N2; now split.
Qed.

Lemma off_conveyor_emit (e : event) :
  on_conveyor e = false -> off_conveyor (emit e).
Proof.
  intros H w. exists [e]. split; [reflexivity|]. simpl. now rewrite H.
Qed.

Lemma off_conveyor_update (f : Robot -> Robot) : off_conveyor (update f).
Proof. intro w. exists []. simpl. now rewrite app_nil_r. Qed.

Lemma off_conveyor_assign_stack_count n :
  off_conveyor (assign_stack_count n).
Proof.
  apply off_conveyor_bind; [apply off_conveyor_quiet, quiet_self|intros r].
  apply off_conveyor_bind; [apply off_conveyor_update|intros _].
  now apply off_conveyor_emit.
Qed.

Lemma off_conveyor_with_belt_lock {A} (body : M A) :
  off_conveyor body -> off_conveyor (with_belt_lock body).
Proof.
  intro Hb. apply off_conveyor_bind.
  - apply off_conveyor_bind;
      [apply off_conveyor_quiet, quiet_self|intros r].
    destruct (belt_lock r); [apply off_conveyor_quiet, quiet_diverge|].
    apply off_conveyor_bind; [apply off_conveyor_update|intros _].
    now apply off_conveyor_emit.
  - intros _. apply off_conveyor_try_finally; [exact Hb|].
    apply off_conveyor_bind; [apply off_conveyor_update|intros _].
    now apply off_conveyor_emit.
Qed.

Lemma off_conveyor_set_up_piece fuel piece_count :
  off_conveyor (set_up_piece drv fuel piece_count).
Proof.
  unfold set_up_piece.
  apply off_conveyor_bind; [apply off_conveyor_quiet, quiet_self|intros r].
  apply off_conveyor_bind; [apply off_conveyor_quiet, quiet_log|intros _].
  apply off_conveyor_bind; [apply off_conveyor_quiet, quiet_log|intros _].
  apply off_conveyor_bind; [apply off_conveyor_update|intros _].
  apply off_conveyor_bind;
    [apply off_conveyor_quiet, quiet_move_to_pos|intros _].
  apply off_conveyor_bind; [apply off_conveyor_quiet|intros _].
  { apply quiet_slow_arm_control.
    apply quiet_bind; [apply quiet_move_to_pos|intros _].
    apply quiet_bind; [apply quiet_control_gripper|intros _].
    apply quiet_move_to_pos. }
  apply off_conveyor_bind;
    [apply off_conveyor_quiet, quiet_move_to_home|intros _].
  apply off_conveyor_bind;
    [apply off_conveyor_quiet, quiet_self|intros r'].
  apply off_conveyor_bind; [apply off_conveyor_quiet|intros _].
  { destruct (board_calibrated r');
      [apply quiet_ret|apply quiet_calibrate_board]. }
  apply off_conveyor_bind; [|intros _].
  { apply off_conveyor_with_belt_lock. unfold place_piece.
    apply off_conveyor_bind; [apply off_conveyor_quiet, quiet_log|intros _].
    apply off_conveyor_bind;
      [apply off_conveyor_quiet, quiet_self|intros r''].
    apply off_conveyor_bind;
      [apply off_conveyor_quiet, quiet_move_to_pos|intros _].
    apply off_conveyor_bind;
      [apply off_conveyor_quiet, quiet_self|intros r3].
    apply off_conveyor_bind;
      [apply off_conveyor_assign_stack_count|intros _].
    apply off_conveyor_bind;
      [apply off_conveyor_quiet, quiet_control_gripper|intros _].
    apply off_conveyor_quiet, quiet_move_to_home. }
  unfold advance_when_full.
  apply off_conveyor_bind;
    [apply off_conveyor_quiet, quiet_self|intros r4].
  destruct (_ && _); [|apply off_conveyor_quiet, quiet_ret].
  apply off_conveyor_bind; [apply off_conveyor_quiet, quiet_log|intros _].
  apply off_conveyor_bind;
    [apply off_conveyor_assign_stack_count|intros _].
  now apply off_conveyor_emit.
Qed.

Lemma off_conveyor_set_up_loop fuel inner piece_count :
  off_conveyor (set_up_loop drv fuel inner piece_count).
Proof.
  induction fuel as [|fuel IH]; simpl;
    [apply off_conveyor_quiet, quiet_diverge|].
  apply off_conveyor_bind; [apply off_conveyor_quiet, quiet_self|intros r].
  destruct (current_piece_count r =? piece_count);
    [apply off_conveyor_quiet, quiet_ret|].
  apply off_conveyor_bind;
    [apply off_conveyor_set_up_piece|intros _; exact IH].
Qed.

Lemma off_conveyor_set_up_game fuel piece_count :
  off_conveyor (set_up_game drv fuel piece_count).
Proof.
  unfold set_up_game.
  apply off_conveyor_bind; [apply off_conveyor_quiet, quiet_self|intros r].
  apply off_conveyor_bind;
    [apply off_conveyor_quiet|intros _; apply off_conveyor_set_up_loop].
  destruct (magazine_ready r); [apply quiet_ret|].
  apply quiet_bind; [apply quiet_move_to_pos|intros _].
  apply quiet_bind; [apply quiet_move_to_pos|intros _].
  apply quiet_bind; [apply quiet_log|intros _].
  apply quiet_bind; [apply quiet_log|intros _].
  apply quiet_bind; [apply quiet_input|intros _].
  apply quiet_bind; [apply quiet_move_to_home|intros _].
  apply quiet_update. intro r0. reflexivity.
Qed.

Lemma off_conveyor_grab_piece fuel : off_conveyor (grab_piece drv fuel).
Proof.
  unfold grab_piece.
  apply off_conveyor_bind; [apply off_conveyor_quiet, quiet_self|intros r].
  destruct (current_piece_count r =? 0);
    [apply off_conveyor_quiet, quiet_ret|].
  apply off_conveyor_bind; [|intros _].
  { apply off_conveyor_with_belt_lock. unfold take_piece.
    apply off_conveyor_bind;
      [apply off_conveyor_quiet, quiet_self|intros r1].
    apply off_conveyor_bind;
      [apply off_conveyor_quiet, quiet_move_to_pos|intros _].
    apply off_conveyor_bind;
      [apply off_conveyor_quiet, quiet_control_gripper|intros _].
    apply off_conveyor_bind;
      [apply off_conveyor_quiet, quiet_move_to_home|intros _].
    apply off_conveyor_bind;
      [apply off_conveyor_quiet, quiet_self|intros r2].
    apply off_conveyor_bind;
      [apply off_conveyor_assign_stack_count|intros _].
    apply off_conveyor_bind;
      [apply off_conveyor_quiet, quiet_self|intros r3].
    apply off_conveyor_update. }
  unfold advance_when_empty.
  apply off_conveyor_bind;
    [apply off_conveyor_quiet, quiet_self|intros r4].
  destruct (_ && _); [|apply off_conveyor_quiet, quiet_ret].
  apply off_conveyor_bind;
    [apply off_conveyor_assign_stack_count|intros _].
  now apply off_conveyor_emit.
Qed.

Lemma off_conveyor_run_operations fuel os :
  off_conveyor (run_operations drv fuel os).
Proof.
  induction os as [|o os IH]; simpl;
    [apply off_conveyor_quiet, quiet_ret|].
  apply off_conveyor_bind; [|intros _; exact IH].
  destruct o;
    [apply off_conveyor_set_up_game|apply off_conveyor_grab_piece].
Qed.

End OffConveyor.

Section BeltThreads.

Context {D : Type}.
Variable drv : Driver D.

(** The retry loop on a conveyor call, begun in phase [p]. *)
Lemma retry_loop_phases (c : capability) (p q_ok q_raise : phase) :
  (forall v, section_step p (Invoke c (Ret v)) = Some q_ok) ->
  section_step p (Invoke c (Exc RosTimeoutError)) = Some p ->
  (forall e, e <> RosTimeoutError ->
             section_step p (Invoke c (Exc e)) = Some q_raise) ->
  forall fuel name (w : World D),
    exists r w' t,
      retry_loop drv fuel name (method c) w = (r, w') /\
      robot w' = robot w /\
      trace w' = trace w ++ t /\
      forallb (fun e => negb (is_lock_event e)) t = true /\
      unbroken p t =
        Some match r with
             | Ok _ => q_ok
             | Raise _ => q_raise
             | Diverge => p
             end.
Proof.
  intros Hret Hto Hexc. induction fuel as [|fuel IH]; intros name w.
  - exists Diverge, w, []. rewrite app_nil_r. repeat split.
  - cbn [retry_loop]. unfold try_except, call. cbn [act_body method].
    unfold outside. destruct (drv_call drv c (driver w)) as [[v|e] d].
    + eexists _, _, [Invoke c (Ret v)]. split; [reflexivity|].
      cbn [robot trace]. repeat split. cbn [unbroken].
      now rewrite Hret.
    + destruct e as [| | |what].
      * eexists _, _, [Invoke c (Exc TypeError);
                       Log critical CodingError].
        unfold bind, log, emit, raise. cbn [robot driver trace].
        split; [reflexivity|]. rewrite <- app_assoc.
        repeat split. cbn [unbroken].
        rewrite (Hexc TypeError) by discriminate. reflexivity.
      * unfold bind at 1, log at 1, emit at 1. cbn [robot driver trace].
        match goal with
        | |- context [retry_loop drv fuel name (method c) ?w1] =>
            destruct (IH name w1) as (r & w' & t & E & R & T & F & U)
        end.
        rewrite E. cbn [robot trace] in R, T.
        exists r, w',
          (Invoke c (Exc RosTimeoutError) ::
           Log warning
             (RetryingAction
                match name with None => three_dot | Some n => n end) ::
           t).
        split; [reflexivity|].
        split; [exact R|]. split; [now rewrite T, <- !app_assoc|].
        split; [exact F|]. cbn [unbroken]. rewrite Hto. exact U.
      * eexists _, _, [Invoke c (Exc IndexError)]. unfold raise.
        split; [reflexivity|]. cbn [robot trace]. repeat split.
        cbn [unbroken]. rewrite (Hexc IndexError) by discriminate.
        reflexivity.
      * eexists _, _, [Invoke c (Exc (OtherError what))]. unfold raise.
        split; [reflexivity|]. cbn [robot trace]. repeat split.
        cbn [unbroken]. rewrite (Hexc (OtherError what)) by discriminate.
        reflexivity.
Qed.

(** A belt thread is one holding of the lock: it takes the lock first,
    never lets go of it before the block is left, and between the start
    of the conveyor and the attempt to stop it nothing but the wait and
    log lines happens. *)
Lemma move_pieces_on_belt_phases fuel direction (w : World D) :
  belt_lock (robot w) = false ->
  exists r w' t q,
    move_pieces_on_belt drv fuel direction w = (r, w') /\
    trace w' =
      trace w ++ Acquire :: t ++
      match r with Diverge => [] | _ => [Release] end /\
    forallb (fun e => negb (is_lock_event e)) t = true /\
    unbroken Inside t = Some q /\
    (r <> Diverge -> q = Inside \/ q = Finished).
Proof.
  intro L. unfold move_pieces_on_belt, with_belt_lock, acquire.
  unfold bind at 1. unfold bind at 1, self at 1. rewrite L.
  unfold bind at 1, update at 1, emit at 1. cbn [robot driver trace].
  unfold try_finally.
  unfold bind at 1, log at 1, emit at 1. cbn [robot driver trace].
  unfold bind at 1, log at 1, emit at 1. cbn [robot driver trace].
  unfold bind at 1, self at 1. cbn [robot].
  unfold execute_robot_action at 1.
  match goal with
  | |- context [bind (retry_loop drv fuel ?n (method ?c)) _ ?w1] =>
      destruct (retry_loop_phases c Inside Running Inside
                  ltac:(reflexivity) ltac:(reflexivity)
                  ltac:(reflexivity) fuel n w1)
        as (r1 & w2 & t1 & E1 & R1 & T1 & F1 & U1)
  end.
  unfold bind at 1. rewrite E1. cbn [robot trace] in R1, T1.
  destruct r1 as [v1|e1|].
  - unfold bind at 1, sleep at 1, emit at 1. cbn [robot driver trace].
    unfold bind at 1, self at 1. cbn [robot].
    unfold execute_robot_action at 1.
    match goal with
    | |- context [bind (retry_loop drv fuel ?n (method ?c)) _ ?w1] =>
        destruct (retry_loop_phases c Settling Finished Finished
                    ltac:(reflexivity) ltac:(reflexivity)
                    ltac:(intros [| | |?] H;
                          [reflexivity|now contradiction H
                          |reflexivity|reflexivity])
                    fuel n w1)
          as (r2 & w3 & t2 & E2 & R2 & T2 & F2 & U2)
    end.
    unfold bind at 1. rewrite E2. cbn [robot trace] in R2, T2.
    destruct r2 as [v2|e2|].
    + unfold log, emit, release, bind, update. cbn [robot driver trace].
      eexists _, _,
        ([Log info BeltLockedByThread; Log info (ConveyorMoving "left")]
         ++ t1 ++ [Sleep] ++ t2 ++ [Log info BeltLockRemoved]),
        Finished.
      split; [reflexivity|]. cbn [trace]. split.
      { rewrite T2, T1. cbn [app].
        repeat (rewrite <- ?app_assoc; cbn [app]). reflexivity. }
      split.
      { repeat (rewrite ?forallb_app;
                cbn [app forallb is_lock_event negb andb]).
        rewrite F1, F2. reflexivity. }
      split; [|now right].
      cbn [app unbroken section_step]. rewrite unbroken_app, U1.
      cbn [app unbroken section_step]. rewrite unbroken_app, U2.
      reflexivity.
    + unfold release, bind, update, emit. cbn [robot driver trace].
      eexists _, _,
        ([Log info BeltLockedByThread; Log info (ConveyorMoving "left")]
         ++ t1 ++ [Sleep] ++ t2),
        Finished.
      split; [reflexivity|]. cbn [trace]. split.
      { rewrite T2, T1. cbn [app].
        repeat (rewrite <- ?app_assoc; cbn [app]). reflexivity. }
      split.
      { repeat (rewrite ?forallb_app;
                cbn [app forallb is_lock_event negb andb]).
        rewrite F1, F2. reflexivity. }
      split; [|now right].
      cbn [app unbroken section_step]. rewrite unbroken_app, U1.
      cbn [app unbroken section_step]. exact U2.
    + eexists _, _,
        ([Log info BeltLockedByThread; Log info (ConveyorMoving "left")]
         ++ t1 ++ [Sleep] ++ t2),
        Settling.
      split; [reflexivity|]. split.
      { rewrite T2, T1. cbn [app].
        repeat (rewrite <- ?app_assoc; cbn [app]).
        now rewrite app_nil_r. }
      split.
      { repeat (rewrite ?forallb_app;
                cbn [app forallb is_lock_event negb andb]).
        rewrite F1, F2. reflexivity. }
      split; [|intro C; now contradiction C].
      cbn [app unbroken section_step]. rewrite unbroken_app, U1.
      cbn [app unbroken section_step]. exact U2.
  - unfold release, bind, update, emit. cbn [robot driver trace].
    eexists _, _,
      ([Log info BeltLockedByThread; Log info (ConveyorMoving "left")]
       ++ t1),
      Inside.
    split; [reflexivity|]. cbn [trace]. split.
    { rewrite T1. cbn [app].
      repeat (rewrite <- ?app_assoc; cbn [app]). reflexivity. }
    split; [exact F1|]. split; [exact U1|now left].
  - eexists _, _,
      ([Log info BeltLockedByThread; Log info (ConveyorMoving "left")]
       ++ t1),
      Inside.
    split; [reflexivity|]. split.
    { rewrite T1. cbn [app].
      repeat (rewrite <- ?app_assoc; cbn [app]).
      now rewrite app_nil_r. }
    split; [exact F1|]. split; [exact U1|intro C; now contradiction C].
Qed.

End BeltThreads.

(** Whoever is inside a critical section holds the lock. *)
Lemma inside_is_holder (s : schedule) :
  forall (h h' : option nat) (b : nat -> phase),
    (forall k, holds_lock (b k) = true <-> h = Some k) ->
    holder h s = Some h' ->
    (forall k, unbroken (b k) (thread_events k s) <> None) ->
    forall k q,
      unbroken (b k) (thread_events k s) = Some q ->
      (holds_lock q = true <-> h' = Some k).
Proof.
  induction s as [|[j e] s IH]; intros h h' b Hb Hh Hu k q Hq.
  - simpl in Hh, Hq. injection Hh as <-. injection Hq as <-. apply Hb.
  - simpl in Hh.
    destruct (lock_step h j e) as [h1|] eqn:Hs; [|discriminate].
    assert (Hj := Hu j). rewrite thread_events_cons, Nat.eqb_refl in Hj.
    cbn [unbroken] in Hj.
    destruct (section_step (b j) e) as [pj|] eqn:Sj;
      [|now contradiction Hj].
    destruct (section_step_guard (b j) e pj Sj) as [G La].
    apply (IH h1 h' (fun i => if Nat.eqb i j then pj else b i)) with (k := k).
    + intro i.
      assert (A := lock_step_agrees h (fun i => holds_lock (b i)) j e h1
                     Hb Hs G i).
      cbv beta in A. rewrite La in A.
      now destruct (Nat.eqb i j).
    + exact Hh.
    + intro i. specialize (Hu i). rewrite thread_events_cons in Hu.
      cbv beta. destruct (Nat.eqb_spec i j) as [E|E]; [|exact Hu].
      rewrite E in Hu |- *. cbn [unbroken] in Hu. now rewrite Sj in Hu.
    + rewrite thread_events_cons in Hq. cbv beta.
      destruct (Nat.eqb_spec k j) as [E|E]; [|exact Hq].
      rewrite E in Hq |- *. cbn [unbroken] in Hq. now rewrite Sj in Hq.
Qed.

(** C4, as the specification has it, fails: a load of three pieces on
    the simulated driver that always succeeds assigns to the staged
    count (the reset to 0 after the second piece) with the lock not
    held. *)
Lemma belt_lock_held_for_every_mutation_counterexample :
  discipline spec_guard false
    (trace (snd (set_up_game Fake.driver 4 3 (Fake.session Fake.healthy))))
  = None.
Proof. vm_compute. reflexivity. Qed.

(** C4, amended: whatever the driver does, a thread that starts without
    the lock, be it the foreground thread in a session of loads and
    grabs or a belt thread, holds the lock at every conveyor call, at
    the settle wait between them and whenever it counts a placed or
    taken piece, resets the staged count (2 to 0, 0 to 2) only with the
    lock not held, and has released the lock when it ends.  The holding
    is unbroken: the conveyor is started inside a block, the wait
    follows the start and the stop the wait, and the lock is not
    released between the start of the conveyor and the attempt to stop
    it.  A belt thread is a single holding: taking the lock is the
    first thing it does, releasing it the last, with every conveyor
    call and the wait in between.  So, in any order the lock allows the
    events of such threads to happen, a thread that runs the conveyor
    or counts a piece is at that moment the holder of the lock, and so
    is a thread that is anywhere inside a block, between the start of
    the conveyor and its stop included: no two threads are there at the
    same time. *)
Theorem belt_lock_held_for_conveyor_and_piece_counting
  {D} (drv : Driver D) (fuel : nat) (body : thread_body) (w : World D) :
  belt_lock (robot w) = false ->
  (exists t held p,
     trace (snd (run_thread drv fuel body w)) = trace w ++ t /\
     discipline code_guard false t = Some held /\
     (fst (run_thread drv fuel body w) <> Diverge -> held = false) /\
     unbroken Outside t = Some p /\
     holds_lock p = held) /\
  (forall direction,
     body = BeltThread direction ->
     exists t,
       trace (snd (run_thread drv fuel body w)) =
         trace w ++ Acquire :: t ++
         match fst (run_thread drv fuel body w) with
         | Diverge => []
         | _ => [Release]
         end /\
       forallb (fun e => negb (is_lock_event e)) t = true) /\
  (forall (s1 s2 : schedule) (i : nat) (e : event),
     holder None (s1 ++ (i, e) :: s2) <> None ->
     (forall k, discipline code_guard false
                  (thread_events k (s1 ++ (i, e) :: s2)) <> None) ->
     touches_belt e = true ->
     holder None s1 = Some (Some i)) /\
  (forall (s : schedule) (k : nat) (q : phase),
     holder None s <> None ->
     (forall j, unbroken Outside (thread_events j s) <> None) ->
     unbroken Outside (thread_events k s) = Some q ->
     q <> Outside ->
     holder None s = Some (Some k)).
Proof.
  intro L. split; [|split; [|split]].
  - destruct body as [os|direction].
    + destruct (tidy_run_thread drv w fuel (Foreground os) w)
        as [(t & T & H) E].
      { split; [|exact L]. exists []. rewrite app_nil_r, L. now split. }
      destruct (off_conveyor_run_operations drv fuel os w) as (t' & T' & F).
      cbn [run_thread] in *. rewrite T in T'. apply app_inv_head in T'.
      subst t'.
      exists t, (belt_lock (robot (snd (run_operations drv fuel os w)))),
        (if belt_lock (robot (snd (run_operations drv fuel os w)))
         then Inside else Outside).
      split; [exact T|]. split; [exact H|]. split; [exact E|].
      split; [exact (discipline_unbroken t false _ F H)|].
      destruct (belt_lock (robot (snd (run_operations drv fuel os w))));
        reflexivity.
    + destruct (move_pieces_on_belt_phases drv fuel direction w L)
        as (r & w' & t & q & E & T & F & U & Q).
      cbn [run_thread]. rewrite E. cbn [fst snd].
      assert (P : exists p,
                 unbroken Outside
                   (Acquire :: t ++
                    match r with Diverge => [] | _ => [Release] end)
                   = Some p /\
                 (r <> Diverge -> p = Outside)).
      { cbn [unbroken section_step]. rewrite unbroken_app, U.
        destruct r as [a|e|].
        - destruct Q as [-> | ->]; [discriminate| |];
            (exists Outside; now split).
        - destruct Q as [-> | ->]; [discriminate| |];
            (exists Outside; now split).
        - exists q. split; [reflexivity|]. intro C. now contradiction C. }
      destruct P as (p & P & PO).
      exists (Acquire :: t ++ match r with Diverge => [] | _ => [Release] end),
        (holds_lock p), p.
      split; [exact T|].
      split; [exact (unbroken_discipline _ Outside p P)|].
      split; [|now split].
      intro C. now rewrite (PO C).
  - intros direction ->.
    destruct (move_pieces_on_belt_phases drv fuel direction w L)
      as (r & w' & t & q & E & T & F & _).
    cbn [run_thread]. rewrite E. cbn [fst snd]. now exists t.
  - intros s1 s2 i e Hh Hd Ht.
    apply (belt_event_by_holder s1 None (fun _ => false) i e s2);
      try assumption.
    intro k. split; discriminate.
  - intros s k q Hh Hu Hq Hn.
    destruct (holder None s) as [h'|] eqn:Eh; [|now contradiction Hh].
    f_equal.
    apply (inside_is_holder s None h' (fun _ => Outside)
             ltac:(intro; split; discriminate) Eh Hu k q Hq).
    now destruct q.
Qed.

(** A belt thread on the simulator: lock, run, wait, stop, unlock. *)
Lemma belt_lock_held_for_conveyor_and_piece_counting_witness :
  belt_events
    (trace (snd (run_thread Simulator.driver 1 (BeltThread BACKWARD)
                   Simulator.session))) =
    [Acquire;
     Invoke (run_conveyor (VInt 1) 25 BACKWARD) (Ret VNone);
     Sleep;
     Invoke (stop_conveyor (VInt 1)) (Ret VNone);
     Release] /\
  exists t held p,
    trace (snd (run_thread Simulator.driver 1 (BeltThread BACKWARD)
                  Simulator.session)) = [] ++ t /\
    discipline code_guard false t = Some held /\
    (fst (run_thread Simulator.driver 1 (BeltThread BACKWARD)
            Simulator.session) <> Diverge -> held = false) /\
    unbroken Outside t = Some p /\
    holds_lock p = held.
Proof.
  split; [reflexivity|].
  apply (belt_lock_held_for_conveyor_and_piece_counting
           Simulator.driver 1 (BeltThread BACKWARD) Simulator.session).
  reflexivity.
Defined.

(** * Further properties of the controller *)

(** ** What a run leaves alone *)

Section Frame.

Context {D : Type}.
Variable drv : Driver D.

#[local] Abbreviation M := (@M D).

(** A relation on the object that every step of a run is to keep. *)
Variable R : Robot -> Robot -> Prop.
Hypothesis R_refl : forall r, R r r.
Hypothesis R_trans : forall r1 r2 r3, R r1 r2 -> R r2 r3 -> R r1 r3.

#[local] Abbreviation after := (@after D R).
#[local] Abbreviation framed := (@framed D R).

Lemma after_refl w : after w w.
Proof. split; [apply R_refl|]. exists []. now rewrite app_nil_r. Qed.

Lemma after_trans w1 w2 w3 : after w1 w2 -> after w2 w3 -> after w1 w3.
Proof.
  intros [R1 [t1 T1]] [R2 [t2 T2]]. split; [eapply R_trans; eassumption|].
  exists (t1 ++ t2). now rewrite T2, T1, app_assoc.
Qed.

Lemma framed_still {A} (m : M A) :
  (forall w, snd (m w) = w) -> framed m.
Proof. intros H w. rewrite H. apply after_refl. Qed.

Lemma framed_bind {A B} (m : M A) (k : A -> M B) :
  framed m -> (forall a, framed (k a)) -> framed (bind m k).
Proof.
  intros Hm Hk w. unfold bind. specialize (Hm w).
  destruct (m w) as [[a|e|] w1]; simpl in *; try assumption.
  eapply after_trans; [eassumption|apply Hk].
Qed.

Lemma framed_try_except {A} (m : M A) (h : exn -> M A) :
  framed m -> (forall e, framed (h e)) -> framed (try_except m h).
Proof.
  intros Hm Hh w. unfold try_except. specialize (Hm w).
  destruct (m w) as [[a|e|] w1]; simpl in *; try assumption.
  eapply after_trans; [eassumption|apply Hh].
Qed.

Lemma framed_try_finally {A} (m : M A) (f : M unit) :
  framed m -> framed f -> framed (try_finally m f).
Proof.
  intros Hm Hf w. unfold try_finally. specialize (Hm w).
  destruct (m w) as [[a|e|] w1]; simpl in *; try assumption;
    specialize (Hf w1); destruct (f w1) as [[[]|e'|] w2]; simpl in *;
    eapply after_trans; eassumption.
Qed.

Lemma framed_emit e : framed (emit e).
Proof. intro w. split; [apply R_refl|]. now exists [e]. Qed.

Lemma framed_outside {A} (f : D -> outcome A * D) (ev : outcome A -> event) :
  framed (outside f ev).
Proof.
  intro w. unfold outside. destruct (f (driver w)) as [o d].
  assert (Q : after w {| robot := robot w; driver := d;
                         trace := trace w ++ [ev o] |})
    by (split; [apply R_refl|now exists [ev o]]).
  destruct o; exact Q.
Qed.

Lemma framed_update (f : Robot -> Robot) :
  (forall r, R r (f r)) -> framed (update f).
Proof.
  intros Hf w. split; [apply Hf|]. exists []. simpl. now rewrite app_nil_r.
Qed.

Lemma framed_retry_loop fuel name a : framed (retry_loop drv fuel name a).
Proof.
  induction fuel as [|fuel IH]; simpl; [now apply framed_still|].
  apply framed_try_except.
  - unfold call. destruct (act_body a);
      [apply framed_outside|now apply framed_still].
  - intros []; try (now apply framed_still).
    + apply framed_bind; [apply framed_emit|intro; now apply framed_still].
    + apply framed_bind; [apply framed_emit|intro; exact IH].
Qed.

Lemma framed_move_to_pos fuel pos : framed (move_to_pos drv fuel pos).
Proof.
  apply framed_bind; [apply framed_retry_loop|intro; apply framed_emit].
Qed.

Lemma framed_move_to_home fuel : framed (move_to_home drv fuel).
Proof.
  apply framed_bind; [apply framed_move_to_pos|intro; apply framed_emit].
Qed.

Lemma framed_tool_state_loop fuel inner st :
  framed (tool_state_loop drv fuel inner st).
Proof.
  revert st. induction fuel as [|fuel IH]; intro st; simpl;
    [now apply framed_still|].
  destruct (st =? 0); [now apply framed_still|].
  apply framed_bind; [apply framed_emit|intros _].
  apply framed_bind; [apply framed_retry_loop|intros _].
  apply framed_bind; [apply framed_outside|intro; apply IH].
Qed.

Lemma framed_control_gripper fuel act : framed (control_gripper drv fuel act).
Proof.
  apply framed_bind.
  - apply framed_try_except.
    + apply framed_bind; [apply framed_outside|].
      intro; apply framed_tool_state_loop.
    + intros []; try (now apply framed_still). apply framed_emit.
  - intros _. destruct act;
      (apply framed_bind; [apply framed_retry_loop|
                           intro; now apply framed_still]).
Qed.

Lemma framed_slow_arm_control {A} fuel slow (body : M A) :
  framed body -> framed (slow_arm_control drv fuel slow body).
Proof.
  intro Hb. apply framed_bind; [apply framed_retry_loop|intros _].
  apply framed_try_finally; [exact Hb|].
  apply framed_bind; [apply framed_retry_loop|intro; now apply framed_still].
Qed.

Lemma framed_calibrate_rows fuel rows : framed (calibrate_rows drv fuel rows).
Proof.
  induction rows as [|row rows IH]; simpl; [now apply framed_still|].
  apply framed_bind; [apply framed_move_to_pos|intros _].
  apply framed_bind; [|intros _; exact IH].
  apply framed_slow_arm_control.
  apply framed_bind; [apply framed_move_to_pos|intros _].
  apply framed_bind; [apply framed_emit|intros _].
  apply framed_bind; [apply framed_outside|intros _].
  apply framed_move_to_pos.
Qed.

Lemma framed_subscript {A} (t : list A) index : framed (subscript t index).
Proof. unfold subscript. destruct (tuple_get t index); now apply framed_still. Qed.

Lemma framed_drop_piece_to_board fuel index :
  framed (drop_piece_to_board drv fuel index).
Proof.
  unfold drop_piece_to_board.
  apply framed_bind; [apply framed_subscript|intros row].
  apply framed_bind; [apply framed_move_to_pos|intros _].
  apply framed_bind; [apply framed_subscript|intros row'].
  apply framed_bind; [apply framed_move_to_pos|intros _].
  apply framed_bind; [apply framed_control_gripper|intros _].
  apply framed_bind; [apply framed_subscript|intros row''].
  apply framed_bind; [apply framed_move_to_pos|intros _].
  apply framed_move_to_home.
Qed.

(** The assignments the operations make. *)
Hypothesis R_belt_lock : forall b r, R r (set_belt_lock b r).
Hypothesis R_piece_count : forall n r, R r (set_current_piece_count n r).
Hypothesis R_stack_count : forall n r, R r (set_current_stack_count n r).
Hypothesis R_calibrated : forall r, R r (set_board_calibrated true r).
Hypothesis R_magazine : forall r, R r (set_magazine_ready true r).

Lemma framed_assign_stack_count n : framed (assign_stack_count n).
Proof.
  apply framed_bind; [now apply framed_still|intros r].
  apply framed_bind; [now apply framed_update|intro; apply framed_emit].
Qed.

Lemma framed_with_belt_lock {A} (body : M A) :
  framed body -> framed (with_belt_lock body).
Proof.
  intro Hb. apply framed_bind.
  - apply framed_bind; [now apply framed_still|intros r].
    destruct (belt_lock r); [now apply framed_still|].
    apply framed_bind; [now apply framed_update|intro; apply framed_emit].
  - intros _. apply framed_try_finally; [exact Hb|].
    apply framed_bind; [now apply framed_update|intro; apply framed_emit].
Qed.

Lemma framed_calibrate_board fuel : framed (calibrate_board drv fuel).
Proof.
  apply framed_bind; [apply framed_calibrate_rows|intros _].
  apply framed_bind; [apply framed_move_to_home|intros _].
  now apply framed_update.
Qed.

Lemma framed_set_up_piece fuel piece_count :
  framed (set_up_piece drv fuel piece_count).
Proof.
  unfold set_up_piece.
  apply framed_bind; [now apply framed_still|intros r].
  apply framed_bind; [apply framed_emit|intros _].
  apply framed_bind; [apply framed_emit|intros _].
  apply framed_bind; [now apply framed_update|intros _].
  apply framed_bind; [apply framed_move_to_pos|intros _].
  apply framed_bind; [|intros _].
  { apply framed_slow_arm_control.
    apply framed_bind; [apply framed_move_to_pos|intros _].
    apply framed_bind; [apply framed_control_gripper|intros _].
    apply framed_move_to_pos. }
  apply framed_bind; [apply framed_move_to_home|intros _].
  apply framed_bind; [now apply framed_still|intros r'].
  apply framed_bind; [|intros _].
  { destruct (board_calibrated r');
      [now apply framed_still|apply framed_calibrate_board]. }
  apply framed_bind; [|intros _].
  { apply framed_with_belt_lock. unfold place_piece.
    apply framed_bind; [apply framed_emit|intros _].
    apply framed_bind; [now apply framed_still|intros r''].
    apply framed_bind; [apply framed_move_to_pos|intros _].
    apply framed_bind; [now apply framed_still|intros r3].
    apply framed_bind; [apply framed_assign_stack_count|intros _].
    apply framed_bind; [apply framed_control_gripper|intros _].
    apply framed_move_to_home. }
  unfold advance_when_full.
  apply framed_bind; [now apply framed_still|intros r4].
  destruct (_ && _); [|now apply framed_still].
  apply framed_bind; [apply framed_emit|intros _].
  apply framed_bind; [apply framed_assign_stack_count|intros _].
  apply framed_emit.
Qed.

Lemma framed_set_up_loop fuel inner piece_count :
  framed (set_up_loop drv fuel inner piece_count).
Proof.
  induction fuel as [|fuel IH]; simpl; [now apply framed_still|].
  apply framed_bind; [now apply framed_still|intros r].
  destruct (current_piece_count r =? piece_count);
    [now apply framed_still|].
  apply framed_bind; [apply framed_set_up_piece|intros _; exact IH].
Qed.

Lemma framed_set_up_game fuel piece_count :
  framed (set_up_game drv fuel piece_count).
Proof.
  unfold set_up_game.
  apply framed_bind; [now apply framed_still|intros r].
  apply framed_bind; [|intros _; apply framed_set_up_loop].
  destruct (magazine_ready r); [now apply framed_still|].
  apply framed_bind; [apply framed_move_to_pos|intros _].
  apply framed_bind; [apply framed_move_to_pos|intros _].
  apply framed_bind; [apply framed_emit|intros _].
  apply framed_bind; [apply framed_emit|intros _].
  apply framed_bind; [apply framed_outside|intros _].
  apply framed_bind; [apply framed_move_to_home|intros _].
  now apply framed_update.
Qed.

Lemma framed_grab_piece fuel : framed (grab_piece drv fuel).
Proof.
  unfold grab_piece.
  apply framed_bind; [now apply framed_still|intros r].
  destruct (current_piece_count r =? 0); [now apply framed_still|].
  apply framed_bind; [|intros _].
  { apply framed_with_belt_lock. unfold take_piece.
    apply framed_bind; [now apply framed_still|intros r1].
    apply framed_bind; [apply framed_move_to_pos|intros _].
    apply framed_bind; [apply framed_control_gripper|intros _].
    apply framed_bind; [apply framed_move_to_home|intros _].
    apply framed_bind; [now apply framed_still|intros r2].
    apply framed_bind; [apply framed_assign_stack_count|intros _].
    apply framed_bind; [now apply framed_still|intros r3].
    now apply framed_update. }
  unfold advance_when_empty.
  apply framed_bind; [now apply framed_still|intros r4].
  destruct (_ && _); [|now apply framed_still].
  apply framed_bind; [apply framed_assign_stack_count|intros _].
  apply framed_emit.
Qed.

Lemma framed_move_pieces_on_belt fuel direction :
  framed (move_pieces_on_belt drv fuel direction).
Proof.
  unfold move_pieces_on_belt. apply framed_with_belt_lock.
  apply framed_bind; [apply framed_emit|intros _].
  apply framed_bind; [apply framed_emit|intros _].
  apply framed_bind; [now apply framed_still|intros r].
  apply framed_bind; [apply framed_retry_loop|intros _].
  apply framed_bind; [apply framed_emit|intros _].
  apply framed_bind; [now apply framed_still|intros r'].
  apply framed_bind; [apply framed_retry_loop|intros _].
  apply framed_emit.
Qed.

Lemma framed_run_operations fuel os : framed (run_operations drv fuel os).
Proof.
  induction os as [|o os IH]; simpl; [now apply framed_still|].
  apply framed_bind; [|intros _; exact IH].
  destruct o; [apply framed_set_up_game|apply framed_grab_piece].
Qed.

Lemma framed_run_thread fuel b : framed (run_thread drv fuel b).
Proof.
  destruct b; [apply framed_run_operations|apply framed_move_pieces_on_belt].
Qed.

End Frame.

(** ** Dropping a piece *)

Lemma tuple_get_out_of_range {A} (t : list A) index :
  index < - Z.of_nat (List.length t) \/ Z.of_nat (List.length t) <= index ->
  tuple_get t index = None.
Proof.
  intro H. unfold tuple_get.
  destruct (Z.ltb_spec index 0);
    destruct (Z.leb_spec 0 (index + Z.of_nat (List.length t)));
    destruct (Z.leb_spec 0 index);
    destruct (Z.ltb_spec (index + Z.of_nat (List.length t))
                (Z.of_nat (List.length t)));
    destruct (Z.ltb_spec index (Z.of_nat (List.length t)));
    simpl; try reflexivity; lia.
Qed.

(** X1 ([drop_piece_to_board], lane out of range): a lane index below
    minus the number of lanes or not below the number of lanes raises
    [IndexError] at the first subscript; no driver call is made and
    nothing is changed. *)
Theorem drop_piece_to_board_out_of_range
  {D} (drv : Driver D) (fuel : nat) (index : Z) (w : World D) :
  index < - Z.of_nat (List.length board_pos) \/
  Z.of_nat (List.length board_pos) <= index ->
  drop_piece_to_board drv fuel index w = (Raise IndexError, w).
Proof.
  intro H. unfold drop_piece_to_board, bind at 1, subscript.
  now rewrite (tuple_get_out_of_range board_pos index H).
Qed.

Lemma drop_piece_to_board_out_of_range_witness :
  drop_piece_to_board Simulator.driver 3 1 Simulator.session =
    (Raise IndexError, Simulator.session).
Proof.
  apply (drop_piece_to_board_out_of_range Simulator.driver 3 1
           Simulator.session).
  right. simpl. lia.
Defined.

Lemma quiet_subscript {D A} (t : list A) index :
  quiet (@subscript D A t index).
Proof.
  unfold subscript. destruct (tuple_get t index);
    intro w; apply quiet_after_refl.
Qed.

Lemma quiet_drop_piece_to_board {D} (drv : Driver D) fuel index :
  quiet (drop_piece_to_board drv fuel index).
Proof.
  unfold drop_piece_to_board.
  apply quiet_bind; [apply quiet_subscript|intros row].
  apply quiet_bind; [apply quiet_move_to_pos|intros _].
  apply quiet_bind; [apply quiet_subscript|intros row'].
  apply quiet_bind; [apply quiet_move_to_pos|intros _].
  apply quiet_bind; [apply quiet_control_gripper|intros _].
  apply quiet_bind; [apply quiet_subscript|intros row''].
  apply quiet_bind; [apply quiet_move_to_pos|intros _].
  apply quiet_move_to_home.
Qed.

(** X2 ([drop_piece_to_board], frame): whatever the lane and whatever
    the driver does, a drop leaves every field of the object as it was
    and adds to the trace only arm and gripper calls, status reads and
    log lines: it takes no lock, starts no thread, runs no conveyor and
    counts nothing. *)
Theorem drop_piece_to_board_leaves_object_and_belt_alone
  {D} (drv : Driver D) (fuel : nat) (index : Z) (w : World D) :
  robot (snd (drop_piece_to_board drv fuel index w)) = robot w /\
  exists t,
    trace (snd (drop_piece_to_board drv fuel index w)) = trace w ++ t /\
    forallb neutral t = true.
Proof.
  split.
  - symmetry.
    apply (framed_drop_piece_to_board drv eq (@eq_refl Robot)
             (@eq_trans Robot) fuel index w).
  - apply (quiet_drop_piece_to_board drv fuel index w).
Qed.

Section Healthy.

Context {D : Type}.
Variable drv : Driver D.
Hypothesis healthy : fault_free drv.

Lemma control_gripper_returns fuel act w :
  exists final v d,
    (final = Ret 0 \/ final = Exc IndexError) /\
    control_gripper drv (S fuel) act w =
      (Ok tt,
       {| robot := robot w; driver := d;
          trace := trace w ++ status_settled final ++
                   [Invoke (grip_method act) (Ret v)] |}).
Proof.
  destruct healthy as (_ & Hs & _). specialize (Hs (driver w)).
  destruct (drv_status drv (driver w)) as [final d1] eqn:E1. simpl in Hs.
  destruct (call_returns drv healthy (grip_method act) d1) as (v & d & E2).
  exists final, v, d. split; [exact Hs|].
  unfold control_gripper, bind at 1, try_except, bind at 1,
    read_tool_state at 1, outside at 1. rewrite E1.
  assert (G : forall w1 : World D,
             driver w1 = d1 ->
             (match act with
              | OPEN =>
                  bind (execute_robot_action drv (S fuel)
                          (method release_with_tool)) (fun _ => ret tt)
              | CLOSE =>
                  bind (execute_robot_action drv (S fuel)
                          (method grasp_with_tool)) (fun _ => ret tt)
              end) w1 =
             (Ok tt, {| robot := robot w1; driver := d;
                        trace := trace w1 ++
                                 [Invoke (grip_method act) (Ret v)] |})).
  { intros w1 H1. rewrite <- H1 in E2.
    destruct act; simpl in E2 |- *;
      now rewrite (step_eq _ _ _ _ _
                     (execute_returns drv fuel _ w1 v d E2)). }
  destruct Hs as [-> | ->]; simpl; rewrite G by reflexivity; simpl;
    repeat (rewrite <- ?app_assoc; simpl); reflexivity.
Qed.

Lemma move_to_home_returns fuel w :
  exists v d,
    move_to_home drv (S fuel) w =
      (Ok tt, {| robot := robot w; driver := d;
                 trace := trace w ++
                          [Invoke (move_pose better_home_pos) (Ret v);
                           Log info (MovedToPosition better_home_pos);
                           Log info MovedHome] |}).
Proof.
  destruct (move_to_pos_returns drv healthy fuel better_home_pos w)
    as (v & d & E).
  exists v, d. unfold move_to_home.
  rewrite (step_eq _ _ _ _ _ E). unfold log, emit. simpl.
  now rewrite <- app_assoc.
Qed.

End Healthy.

(** X3 ([drop_piece_to_board], a lane that exists): under a driver that
    never fails the drop returns after, in this order, a move to the
    lane's approach pose, a move to its drop pose, the status check and
    one gripper release, a move back to the approach pose and a move
    home; a negative index counts the lanes from the end. *)
Theorem drop_piece_to_board_sequence
  {D} (drv : Driver D) (fuel : nat) (index : Z) (w : World D)
  (board_row : PoseObject.t * PoseObject.t) :
  fault_free drv ->
  tuple_get board_pos index = Some board_row ->
  exists w' v1 v2 final v3 v4 v5,
    drop_piece_to_board drv (S fuel) index w = (Ok tt, w') /\
    (final = Ret 0 \/ final = Exc IndexError) /\
    trace w' =
      trace w ++
      [Invoke (move_pose (fst board_row)) (Ret v1);
       Log info (MovedToPosition (fst board_row));
       Invoke (move_pose (snd board_row)) (Ret v2);
       Log info (MovedToPosition (snd board_row))] ++
      status_settled final ++
      [Invoke release_with_tool (Ret v3);
       Invoke (move_pose (fst board_row)) (Ret v4);
       Log info (MovedToPosition (fst board_row));
       Invoke (move_pose better_home_pos) (Ret v5);
       Log info (MovedToPosition better_home_pos);
       Log info MovedHome].
Proof.
  intros healthy Hrow. unfold drop_piece_to_board, subscript.
  rewrite Hrow. unfold bind at 1, ret at 1.
  destruct (move_to_pos_returns drv healthy fuel (fst board_row) w)
    as (v1 & d1 & E1).
  rewrite (step_eq _ _ _ _ _ E1). unfold bind at 1, ret at 1.
  match goal with |- context [bind (move_to_pos drv _ ?p) ?k ?w1] =>
    destruct (move_to_pos_returns drv healthy fuel p w1) as (v2 & d2 & E2);
    rewrite (step_eq _ k _ _ _ E2) end.
  match goal with |- context [bind (control_gripper drv _ ?a) ?k ?w1] =>
    destruct (control_gripper_returns drv healthy fuel a w1)
      as (final & v3 & d3 & Hf & E3);
    rewrite (step_eq _ k _ _ _ E3) end.
  unfold bind at 1, ret at 1.
  match goal with |- context [bind (move_to_pos drv _ ?p) ?k ?w1] =>
    destruct (move_to_pos_returns drv healthy fuel p w1) as (v4 & d4 & E4);
    rewrite (step_eq _ k _ _ _ E4) end.
  match goal with |- context [move_to_home drv _ ?w1] =>
    destruct (move_to_home_returns drv healthy fuel w1) as (v5 & d5 & E5);
    rewrite E5 end.
  eexists. exists v1, v2, final, v3, v4, v5.
  split; [reflexivity|]. split; [exact Hf|].
  simpl. repeat (rewrite <- ?app_assoc; simpl). reflexivity.
Qed.

(** Lane -1 on the simulator is the one lane there is. *)
Lemma drop_piece_to_board_sequence_witness :
  exists w' v1 v2 final v3 v4 v5,
    drop_piece_to_board Simulator.driver 1 (-1) Simulator.session
      = (Ok tt, w') /\
    (final = Ret 0 \/ final = Exc IndexError) /\
    trace w' =
      trace Simulator.session ++
      [Invoke (move_pose (fst (hd (index0_pos, index0_pos) board_pos)))
         (Ret v1);
       Log info (MovedToPosition
                   (fst (hd (index0_pos, index0_pos) board_pos)));
       Invoke (move_pose (snd (hd (index0_pos, index0_pos) board_pos)))
         (Ret v2);
       Log info (MovedToPosition
                   (snd (hd (index0_pos, index0_pos) board_pos)))] ++
      status_settled final ++
      [Invoke release_with_tool (Ret v3);
       Invoke (move_pose (fst (hd (index0_pos, index0_pos) board_pos)))
         (Ret v4);
       Log info (MovedToPosition
                   (fst (hd (index0_pos, index0_pos) board_pos)));
       Invoke (move_pose better_home_pos) (Ret v5);
       Log info (MovedToPosition better_home_pos);
       Log info MovedHome].
Proof.
  apply (drop_piece_to_board_sequence Simulator.driver 0 (-1)
           Simulator.session (hd (index0_pos, index0_pos) board_pos)
           simulator_fault_free).
  reflexivity.
Defined.

(** ** Loops without a ceiling *)

(** X4 ([__execute_robot_action], no retry limit): under a driver that
    answers a capability with the transient timeout every time, the
    executor never returns: with fuel for [fuel] turns of its loop it
    has invoked the capability [fuel] times, logged a warning each time,
    and is still retrying; the object is untouched. *)
Theorem execute_robot_action_never_gives_up
  {D} (drv : Driver D) (a : action) (c : capability) (fuel : nat)
  (w : World D) :
  act_body a = Some c ->
  (forall s, fst (drv_call drv c s) = Exc RosTimeoutError) ->
  exists d,
    execute_robot_action drv fuel a w =
      (Diverge,
       {| robot := robot w; driver := d;
          trace := trace w ++ retries (shown_name a) c fuel |}) /\
    invocations (retries (shown_name a) c fuel) = fuel.
Proof.
  intros Hc Ht. unfold execute_robot_action.
  assert (I : invocations (retries (shown_name a) c fuel) = fuel).
  { rewrite <- (app_nil_r (retries _ _ _)), invocations_retries.
    unfold invocations. simpl. lia. }
  revert w. induction fuel as [|fuel IH]; intro w.
  - exists (driver w). split; [|exact I]. simpl. unfold diverge.
    rewrite app_nil_r. now destruct w.
  - simpl. unfold try_except, call. rewrite Hc. unfold outside.
    specialize (Ht (driver w)).
    destruct (drv_call drv c (driver w)) as [o d1]. simpl in Ht. subst o.
    unfold bind at 1, log at 1, emit at 1. simpl.
    fold (shown_name a).
    assert (I' : invocations (retries (shown_name a) c fuel) = fuel).
    { rewrite <- (app_nil_r (retries _ _ _)), invocations_retries.
      unfold invocations. simpl. lia. }
    destruct (IH I' {| robot := robot w; driver := d1;
                       trace := (trace w ++
                                 [Invoke c (Exc RosTimeoutError)]) ++
                                [Log warning
                                   (RetryingAction (shown_name a))] |})
      as (d & E & _).
    exists d. split; [|exact I]. rewrite E. simpl.
    now rewrite <- !app_assoc.
Qed.

Lemma execute_robot_action_never_gives_up_witness :
  exists d,
    execute_robot_action Stubborn.timing_out 5 (method update_tool)
      Simulator.session =
      (Diverge,
       {| robot := robot Simulator.session; driver := d;
          trace := trace Simulator.session ++
                   retries (shown_name (method update_tool)) update_tool 5 |})
    /\
    invocations (retries (shown_name (method update_tool)) update_tool 5)
      = 5%nat.
Proof.
  apply (execute_robot_action_never_gives_up Stubborn.timing_out
           (method update_tool) update_tool 5 Simulator.session).
  - reflexivity.
  - intro s. reflexivity.
Defined.

Lemma execute_raises {D} (drv : Driver D) fuel c (w : World D) e d :
  drv_call drv c (driver w) = (Exc e, d) ->
  e <> RosTimeoutError ->
  execute_robot_action drv (S fuel) (method c) w =
    (Raise e,
     {| robot := robot w; driver := d;
        trace := trace w ++ [Invoke c (Exc e)] ++ reported (Exc e) |}).
Proof.
  intros E Ht.
  apply (retry_loop_script drv (method c) c (Exc e) d eq_refl)
    with (n := 0%nat) (d := driver w);
    [congruence|reflexivity|exact E|lia].
Qed.

Lemma tool_state_loop_never_clears {D} (drv : Driver D) inner :
  (forall s, exists code,
      code <> 0 /\ fst (drv_status drv s) = Ret code) ->
  (forall s, exists v, fst (drv_call drv update_tool s) = Ret v) ->
  forall fuel code (w : World D),
    code <> 0 ->
    exists t w',
      tool_state_loop drv fuel (S inner) code w = (Diverge, w') /\
      trace w' = trace w ++ t /\
      reinitializations t = fuel /\
      forallb (fun e => negb (is_grip e)) t = true.
Proof.
  intros Hs Hu. induction fuel as [|fuel IH]; intros code w Hc.
  - exists [], w. simpl. rewrite app_nil_r. repeat split.
  - simpl. replace (code =? 0) with false
      by (symmetry; now apply Z.eqb_neq).
    unfold bind at 1, log at 1, emit at 1. cbv beta iota.
    set (w1 := {| robot := robot w; driver := driver w;
                  trace := trace w ++ [Log warning GripperRestart] |}).
    destruct (Hu (driver w1)) as [v Hv].
    destruct (drv_call drv update_tool (driver w1)) as [o d2] eqn:E2.
    simpl in Hv. subst o.
    rewrite (step_eq _ _ _ _ _
               (execute_returns drv inner update_tool w1 v d2 E2)).
    unfold bind at 1, read_tool_state at 1, outside at 1. cbv beta iota.
    simpl driver.
    destruct (Hs d2) as (code1 & Hc1 & Hr).
    destruct (drv_status drv d2) as [o d3] eqn:E3. simpl in Hr. subst o.
    match goal with |- context [tool_state_loop drv fuel _ code1 ?w3] =>
      destruct (IH code1 w3 Hc1) as (t & w4 & E4 & Ht & Hn & Hg) end.
    exists (Log warning GripperRestart :: Invoke update_tool (Ret v)
              :: ReadStatus (Ret code1) :: t), w4.
    split; [exact E4|]. simpl in Ht.
    split; [rewrite Ht; rewrite <- !app_assoc; reflexivity|].
    split; [|exact Hg].
    unfold reinitializations in *. simpl. now rewrite Hn.
Qed.

(** X5 ([__control_gripper], no cap on the recovery): under a driver
    whose status slot never reads zero and whose tool reinitialization
    always returns, the controller never gets to the open or close:
    with fuel for [fuel] turns it has reinitialized the tool [fuel]
    times and issued no grip. *)
Theorem control_gripper_never_gives_up
  {D} (drv : Driver D) (fuel : nat) (act : GripperAction) (w : World D) :
  (forall s, exists code,
      code <> 0 /\ fst (drv_status drv s) = Ret code) ->
  (forall s, exists v, fst (drv_call drv update_tool s) = Ret v) ->
  exists t w',
    control_gripper drv fuel act w = (Diverge, w') /\
    trace w' = trace w ++ t /\
    reinitializations t = fuel /\
    forallb (fun e => negb (is_grip e)) t = true.
Proof.
  intros Hs Hu. unfold control_gripper, bind at 1, try_except.
  unfold bind at 1, read_tool_state at 1, outside at 1.
  destruct (Hs (driver w)) as (code & Hc & Hr).
  destruct (drv_status drv (driver w)) as [o d1] eqn:E1.
  simpl in Hr. subst o. cbv beta iota.
  destruct fuel as [|fuel].
  - simpl. exists [ReadStatus (Ret code)]. eexists. repeat split.
  - match goal with |- context [tool_state_loop drv _ _ code ?w1] =>
      destruct (tool_state_loop_never_clears drv fuel Hs Hu (S fuel) code
                  w1 Hc) as (t & w2 & E & Ht & Hn & Hg) end.
    rewrite E. exists (ReadStatus (Ret code) :: t), w2.
    split; [reflexivity|]. simpl in Ht.
    split; [rewrite Ht; now rewrite <- app_assoc|].
    split; [exact Hn|exact Hg].
Qed.

Lemma control_gripper_never_gives_up_witness :
  exists t w',
    control_gripper Stubborn.overheated 4 CLOSE Simulator.session
      = (Diverge, w') /\
    trace w' = trace Simulator.session ++ t /\
    reinitializations t = 4%nat /\
    forallb (fun e => negb (is_grip e)) t = true.
Proof.
  apply (control_gripper_never_gives_up Stubborn.overheated 4 CLOSE
           Simulator.session).
  - intro s. exists 7. split; [discriminate|reflexivity].
  - intro s. now exists VNone.
Defined.

(** ** What the gripper controller does with exceptions *)

(** X6 ([__control_gripper], an [IndexError] out of the recovery): the
    [except IndexError] clause covers the whole status check, so when
    the status reads non-zero and the tool reinitialization itself
    raises [IndexError], the controller takes it for a missing status
    slot: it logs the skip and goes on to the open or close with the
    fault code still standing. *)
Theorem control_gripper_takes_reinitialize_index_error_for_missing_slot
  {D} (drv : Driver D) (fuel : nat) (act : GripperAction) (w : World D)
  (code : Z) (d1 d2 : D) :
  drv_status drv (driver w) = (Ret code, d1) ->
  code <> 0 ->
  drv_call drv update_tool d1 = (Exc IndexError, d2) ->
  control_gripper drv (S fuel) act w =
    bind (execute_robot_action drv (S fuel) (method (grip_method act)))
         (fun _ => ret tt)
      {| robot := robot w; driver := d2;
         trace := trace w ++
                  [ReadStatus (Ret code); Log warning GripperRestart;
                   Invoke update_tool (Exc IndexError);
                   Log info SkippingStatus] |}.
Proof.
  intros Hs Hc Hu.
  unfold control_gripper, bind at 1, try_except.
  unfold bind at 1, read_tool_state at 1, outside at 1. rewrite Hs.
  cbv beta iota. simpl tool_state_loop.
  replace (code =? 0) with false by (symmetry; now apply Z.eqb_neq).
  unfold bind at 1, log at 1, emit at 1. cbv beta iota.
  match goal with |- context [bind (execute_robot_action drv _ ?m) ?k ?w1] =>
    assert (E : execute_robot_action drv (S fuel) m w1 =
                (Raise IndexError,
                 {| robot := robot w1; driver := d2;
                    trace := trace w1 ++
                             [Invoke update_tool (Exc IndexError)] ++
                             reported (Exc IndexError) |}))
      by (apply execute_raises; [exact Hu|discriminate]);
    unfold bind at 1; rewrite E end.
  simpl. destruct act; simpl;
    repeat (rewrite <- ?app_assoc; simpl); reflexivity.
Qed.

Lemma control_gripper_takes_reinitialize_index_error_for_missing_slot_witness :
  let d0 := {| Fake.faults := [IndexError]; Fake.answer := VNone;
               Fake.statuses := [Ret 3]; Fake.idle_status := Ret 3;
               Fake.max_velocity := 100;
               Fake.conveyor_running := false |} in
  trace (snd (control_gripper Fake.driver 1 OPEN (Fake.session d0))) =
    [ReadStatus (Ret 3); Log warning GripperRestart;
     Invoke update_tool (Exc IndexError); Log info SkippingStatus;
     Invoke release_with_tool (Ret VNone)].
Proof.
  intro d0.
  rewrite (control_gripper_takes_reinitialize_index_error_for_missing_slot
             Fake.driver 0 OPEN (Fake.session d0) 3
             {| Fake.faults := [IndexError]; Fake.answer := VNone;
                Fake.statuses := []; Fake.idle_status := Ret 3;
                Fake.max_velocity := 100;
                Fake.conveyor_running := false |}
             {| Fake.faults := []; Fake.answer := VNone;
                Fake.statuses := []; Fake.idle_status := Ret 3;
                Fake.max_velocity := 100;
                Fake.conveyor_running := false |});
    [reflexivity|reflexivity|discriminate|reflexivity].
Defined.

(** X7 ([__control_gripper], a failing status read): when reading the
    status slot raises anything but [IndexError], that exception
    propagates at once and no open or close is issued. *)
Theorem control_gripper_status_failure_propagates
  {D} (drv : Driver D) (fuel : nat) (act : GripperAction) (w : World D)
  (e : exn) (d1 : D) :
  drv_status drv (driver w) = (Exc e, d1) ->
  e <> IndexError ->
  control_gripper drv fuel act w =
    (Raise e,
     {| robot := robot w; driver := d1;
        trace := trace w ++ [ReadStatus (Exc e)] |}).
Proof.
  intros Hs He.
  unfold control_gripper, bind at 1, try_except.
  unfold bind at 1, read_tool_state at 1, outside at 1. rewrite Hs.
  destruct e; try reflexivity. congruence.
Qed.

Lemma control_gripper_status_failure_propagates_witness :
  let d0 := {| Fake.faults := []; Fake.answer := VNone;
               Fake.statuses := [Exc (OtherError "ConnectionError")];
               Fake.idle_status := Ret 0; Fake.max_velocity := 100;
               Fake.conveyor_running := false |} in
  control_gripper Fake.driver 2 CLOSE (Fake.session d0) =
    (Raise (OtherError "ConnectionError"),
     {| robot := fresh (VInt 1); driver := Fake.healthy;
        trace := [ReadStatus (Exc (OtherError "ConnectionError"))] |}).
Proof.
  intro d0.
  apply (control_gripper_status_failure_propagates Fake.driver 2 CLOSE
           (Fake.session d0) (OtherError "ConnectionError") Fake.healthy).
  - reflexivity.
  - discriminate.
Defined.

(** ** What the slow mode does when its own calls fail *)

(** X8 ([__slow_arm_control], failing on the way in): when the call
    that sets the slow velocity raises anything but the transient
    timeout, the body of the [with] block is never run and no call to
    restore the velocity is made. *)
Theorem slow_arm_control_entry_failure_skips_body
  {D} {A} (drv : Driver D) (fuel : nat) (slow_speed : Z) (body : M A)
  (w : World D) (e : exn) (d : D) :
  drv_call drv (set_arm_max_velocity slow_speed) (driver w) = (Exc e, d) ->
  e <> RosTimeoutError ->
  slow_arm_control drv (S fuel) slow_speed body w =
    (Raise e,
     {| robot := robot w; driver := d;
        trace := trace w ++
                 [Invoke (set_arm_max_velocity slow_speed) (Exc e)] ++
                 reported (Exc e) |}).
Proof.
  intros Hin He. unfold slow_arm_control, bind at 1.
  now rewrite (execute_raises drv fuel _ w e d Hin He).
Qed.

Lemma slow_arm_control_entry_failure_skips_body_witness :
  let d0 := {| Fake.faults := [OtherError "NiryoRobotException"];
               Fake.answer := VNone; Fake.statuses := [];
               Fake.idle_status := Ret 0; Fake.max_velocity := 100;
               Fake.conveyor_running := false |} in
  slow_arm_control Fake.driver 1 30
    (move_to_pos Fake.driver 1 mag_pos) (Fake.session d0) =
    (Raise (OtherError "NiryoRobotException"),
     {| robot := fresh (VInt 1); driver := Fake.healthy;
        trace := [Invoke (set_arm_max_velocity 30)
                    (Exc (OtherError "NiryoRobotException"))] |}).
Proof.
  intro d0.
  apply (slow_arm_control_entry_failure_skips_body Fake.driver 0 30
           (move_to_pos Fake.driver 1 mag_pos) (Fake.session d0)
           (OtherError "NiryoRobotException") Fake.healthy).
  - reflexivity.
  - discriminate.
Defined.

(** X9 ([__slow_arm_control], failing on the way out): when the call
    that restores the velocity raises anything but the transient
    timeout, that exception is what comes out of the scope, whether the
    body had returned or raised; the arm is left at the slow
    velocity. *)
Theorem slow_arm_control_restore_failure_replaces_outcome
  {D} {A} (drv : Driver D) (fuel : nat) (slow_speed : Z) (body : M A)
  (w w2 : World D) (v1 : value) (d1 d3 : D) (r : result A) (e : exn) :
  drv_call drv (set_arm_max_velocity slow_speed) (driver w) = (Ret v1, d1) ->
  body {| robot := robot w; driver := d1;
          trace := trace w ++
                   [Invoke (set_arm_max_velocity slow_speed) (Ret v1)] |}
    = (r, w2) ->
  r <> Diverge ->
  drv_call drv (set_arm_max_velocity 100) (driver w2) = (Exc e, d3) ->
  e <> RosTimeoutError ->
  slow_arm_control drv (S fuel) slow_speed body w =
    (Raise e,
     {| robot := robot w2; driver := d3;
        trace := trace w2 ++
                 [Invoke (set_arm_max_velocity 100) (Exc e)] ++
                 reported (Exc e) |}).
Proof.
  intros Hin Hbody Hr Hout He. unfold slow_arm_control.
  rewrite (step_eq _ _ _ _ _
             (execute_returns drv fuel _ w v1 d1 Hin)).
  unfold try_finally. rewrite Hbody.
  destruct r; [| |congruence]; unfold bind;
    now rewrite (execute_raises drv fuel _ w2 e d3 Hout He).
Qed.

Lemma slow_arm_control_restore_failure_replaces_outcome_witness :
  let d0 := {| Fake.faults := []; Fake.answer := VNone;
               Fake.statuses := []; Fake.idle_status := Ret 0;
               Fake.max_velocity := 100;
               Fake.conveyor_running := false |} in
  let spoil : M unit :=
    fun w => (Ok tt,
              {| robot := robot w;
                 driver := {| Fake.faults := [OtherError "lost"];
                              Fake.answer := VNone; Fake.statuses := [];
                              Fake.idle_status := Ret 0;
                              Fake.max_velocity :=
                                Fake.max_velocity (driver w);
                              Fake.conveyor_running := false |};
                 trace := trace w |}) in
  fst (slow_arm_control Fake.driver 1 30 spoil (Fake.session d0)) =
    Raise (OtherError "lost") /\
  Fake.max_velocity
    (driver (snd (slow_arm_control Fake.driver 1 30 spoil
                    (Fake.session d0)))) = 30.
Proof.
  intros d0 spoil.
  rewrite (slow_arm_control_restore_failure_replaces_outcome
             Fake.driver 0 30 spoil (Fake.session d0)
             (snd (spoil {| robot := fresh (VInt 1);
                            driver := Fake.effect (set_arm_max_velocity 30) d0;
                            trace := [Invoke (set_arm_max_velocity 30)
                                        (Ret VNone)] |}))
             VNone (Fake.effect (set_arm_max_velocity 30) d0)
             {| Fake.faults := []; Fake.answer := VNone;
                Fake.statuses := []; Fake.idle_status := Ret 0;
                Fake.max_velocity := 30;
                Fake.conveyor_running := false |}
             (Ok tt) (OtherError "lost"));
    [split; reflexivity|reflexivity|reflexivity|discriminate|reflexivity
    |discriminate].
Defined.

(** ** The belt thread *)

(** X10 ([__move_pieces_on_belt], a run that works): with the lock free
    and a conveyor that starts and stops, the thread takes the lock,
    runs the conveyor at speed 25 in the direction it was given, waits,
    stops it and releases the lock, leaving the object as it found it;
    the log line says "left" whatever the direction. *)
Theorem move_pieces_on_belt_sequence
  {D} (drv : Driver D) (fuel : nat) (direction : ConveyorDirection)
  (w : World D) (v1 v2 : value) (d1 d2 : D) :
  belt_lock (robot w) = false ->
  drv_call drv (run_conveyor (conveyor_id (robot w)) 25 direction)
    (driver w) = (Ret v1, d1) ->
  drv_call drv (stop_conveyor (conveyor_id (robot w))) d1 = (Ret v2, d2) ->
  move_pieces_on_belt drv (S fuel) direction w =
    (Ok tt,
     {| robot := robot w; driver := d2;
        trace := trace w ++
                 [Acquire; Log info BeltLockedByThread;
                  Log info (ConveyorMoving "left");
                  Invoke (run_conveyor (conveyor_id (robot w)) 25 direction)
                    (Ret v1);
                  Sleep;
                  Invoke (stop_conveyor (conveyor_id (robot w))) (Ret v2);
                  Log info BeltLockRemoved; Release] |}).
Proof.
  intros L Hrun Hstop. unfold move_pieces_on_belt.
  match goal with |- with_belt_lock ?body w = _ =>
    assert (E : body {| robot := set_belt_lock true (robot w);
                        driver := driver w;
                        trace := trace w ++ [Acquire] |} =
                (Ok tt,
                 {| robot := set_belt_lock true (robot w); driver := d2;
                    trace := trace w ++
                      [Acquire; Log info BeltLockedByThread;
                       Log info (ConveyorMoving "left");
                       Invoke (run_conveyor (conveyor_id (robot w)) 25
                                 direction) (Ret v1);
                       Sleep;
                       Invoke (stop_conveyor (conveyor_id (robot w)))
                         (Ret v2);
                       Log info BeltLockRemoved] |})) end.
  { unfold bind at 1, log at 1, emit at 1, bind at 1, log at 1, emit at 1,
      bind at 1, self at 1. cbv beta iota. simpl robot. simpl conveyor_id.
    match goal with |- context [bind (execute_robot_action drv _ ?m) ?k ?w1] =>
      rewrite (step_eq _ k w1 _ _
                 (execute_returns drv fuel _ w1 v1 d1 Hrun)) end.
    unfold bind at 1, sleep at 1, emit at 1, bind at 1, self at 1.
    cbv beta iota. simpl robot. simpl conveyor_id.
    match goal with |- context [bind (execute_robot_action drv _ ?m) ?k ?w1] =>
      rewrite (step_eq _ k w1 _ _
                 (execute_returns drv fuel _ w1 v2 d2 Hstop)) end.
    unfold log, emit. simpl. repeat (rewrite <- ?app_assoc; simpl).
    reflexivity. }
  rewrite (with_belt_lock_returns _ _ _ _ L E). simpl.
  repeat (rewrite <- ?app_assoc; simpl).
  destruct w as [[id lock c s cal mag] d t]. simpl in L |- *.
  subst lock. reflexivity.
Qed.

Lemma move_pieces_on_belt_sequence_witness :
  move_pieces_on_belt Fake.driver 1 FORWARD (Fake.session Fake.healthy) =
    (Ok tt,
     {| robot := fresh (VInt 1); driver := Fake.healthy;
        trace := [Acquire; Log info BeltLockedByThread;
                  Log info (ConveyorMoving "left");
                  Invoke (run_conveyor (VInt 1) 25 FORWARD) (Ret VNone);
                  Sleep;
                  Invoke (stop_conveyor (VInt 1)) (Ret VNone);
                  Log info BeltLockRemoved; Release] |}).
Proof.
  apply (move_pieces_on_belt_sequence Fake.driver 0 FORWARD
           (Fake.session Fake.healthy) VNone VNone
           (Fake.effect (run_conveyor (VInt 1) 25 FORWARD) Fake.healthy)
           Fake.healthy);
    reflexivity.
Defined.

(** X11 ([__move_pieces_on_belt], a stop that fails): when the conveyor
    has started and the call that stops it raises anything but the
    transient timeout, the exception leaves the [with] block: the lock
    is released and the thread ends with the conveyor still running. *)
Theorem move_pieces_on_belt_stop_failure_releases_lock
  {D} (drv : Driver D) (fuel : nat) (direction : ConveyorDirection)
  (w : World D) (v1 : value) (d1 d2 : D) (e : exn) :
  belt_lock (robot w) = false ->
  drv_call drv (run_conveyor (conveyor_id (robot w)) 25 direction)
    (driver w) = (Ret v1, d1) ->
  drv_call drv (stop_conveyor (conveyor_id (robot w))) d1 = (Exc e, d2) ->
  e <> RosTimeoutError ->
  move_pieces_on_belt drv (S fuel) direction w =
    (Raise e,
     {| robot := robot w; driver := d2;
        trace := trace w ++
                 [Acquire; Log info BeltLockedByThread;
                  Log info (ConveyorMoving "left");
                  Invoke (run_conveyor (conveyor_id (robot w)) 25 direction)
                    (Ret v1);
                  Sleep;
                  Invoke (stop_conveyor (conveyor_id (robot w))) (Exc e)] ++
                 reported (Exc e) ++ [Release] |}).
Proof.
  intros L Hrun Hstop He.
  unfold move_pieces_on_belt, with_belt_lock, acquire, bind at 1, bind at 1,
    self at 1.
  rewrite L. unfold bind at 1, update at 1, emit at 1. cbv beta iota.
  unfold try_finally.
  unfold bind at 1, log at 1, emit at 1, bind at 1, log at 1, emit at 1,
    bind at 1, self at 1. cbv beta iota. simpl robot. simpl conveyor_id.
  match goal with |- context [bind (execute_robot_action drv _ ?m) ?k ?w1] =>
    rewrite (step_eq _ k w1 _ _
               (execute_returns drv fuel _ w1 v1 d1 Hrun)) end.
  unfold bind at 1, sleep at 1, emit at 1, bind at 1, self at 1.
  cbv beta iota. simpl robot. simpl conveyor_id.
  match goal with |- context [bind (execute_robot_action drv _ ?m) ?k ?w1] =>
    unfold bind at 1;
    rewrite (execute_raises drv fuel _ w1 e d2 Hstop He) end.
  unfold release, bind, update, emit. simpl.
  repeat (rewrite <- ?app_assoc; simpl).
  destruct w as [[id lock c s cal mag] d t]. simpl in L |- *.
  subst lock. reflexivity.
Qed.

Lemma move_pieces_on_belt_stop_failure_releases_lock_witness :
  let d1 := {| Fake.faults := [OtherError "NiryoRobotException"];
               Fake.answer := VNone; Fake.statuses := [];
               Fake.idle_status := Ret 0; Fake.max_velocity := 100;
               Fake.conveyor_running := true |} in
  let w := Fake.session Fake.healthy in
  let run := move_pieces_on_belt
               {| drv_call := fun c s =>
                    match c with
                    | run_conveyor _ _ _ => (Ret VNone, d1)
                    | _ => Fake.call c s
                    end;
                  drv_status := Fake.status;
                  drv_input := Fake.input |} 1 BACKWARD w in
  fst run = Raise (OtherError "NiryoRobotException") /\
  belt_lock (robot (snd run)) = false /\
  Fake.conveyor_running (driver (snd run)) = true.
Proof.
  intros d1 w run. unfold run.
  rewrite (move_pieces_on_belt_stop_failure_releases_lock
             _ 0 BACKWARD w VNone d1
             {| Fake.faults := []; Fake.answer := VNone;
                Fake.statuses := []; Fake.idle_status := Ret 0;
                Fake.max_velocity := 100;
                Fake.conveyor_running := true |}
             (OtherError "NiryoRobotException"));
    [repeat split|reflexivity|reflexivity|reflexivity|discriminate].
Defined.

(** ** Loads that fail, grabs that find nothing staged *)

(** X12 ([set_up_game], a fetch that fails): the piece is counted at the
    top of the loop turn, before the arm has moved.  When the first
    move of the turn raises anything but the transient timeout, the
    exception leaves [set_up_game] with [__current_piece_count] already
    one higher and the staged count as it was. *)
Theorem failed_load_turn_still_counts_piece
  {D} (drv : Driver D) (fuel : nat) (piece_count : Z) (w : World D)
  (e : exn) (d : D) :
  magazine_ready (robot w) = true ->
  current_piece_count (robot w) <> piece_count ->
  drv_call drv (move_pose mag_pos_bef) (driver w) = (Exc e, d) ->
  e <> RosTimeoutError ->
  set_up_game drv (S fuel) piece_count w =
    (Raise e,
     {| robot := set_current_piece_count
                   (current_piece_count (robot w) + 1) (robot w);
        driver := d;
        trace := trace w ++
                 [Log info (SettingUpPiece (current_piece_count (robot w)));
                  Log info (PlacedOnPosition
                              (current_stack_count (robot w) + 1));
                  Invoke (move_pose mag_pos_bef) (Exc e)] ++
                 reported (Exc e) |}).
Proof.
  intros Hm Hc Hcall He.
  unfold set_up_game, bind at 1, self at 1. rewrite Hm.
  unfold bind at 1, ret at 1. simpl set_up_loop.
  unfold bind at 1, self at 1.
  replace (current_piece_count (robot w) =? piece_count) with false
    by (symmetry; now apply Z.eqb_neq).
  unfold bind at 1, set_up_piece.
  unfold bind at 1, self at 1, bind at 1, log at 1, emit at 1,
    bind at 1, log at 1, emit at 1, bind at 1, update at 1.
  cbv beta iota. simpl robot. simpl driver. simpl trace.
  unfold bind at 1, move_to_pos, bind at 1.
  match goal with |- context [execute_robot_action drv _ ?m ?w1] =>
    rewrite (execute_raises drv fuel _ w1 e d Hcall He) end.
  simpl. repeat (rewrite <- ?app_assoc; simpl). reflexivity.
Qed.

Lemma failed_load_turn_still_counts_piece_witness :
  let d0 := {| Fake.faults := [OtherError "NiryoRobotException"];
               Fake.answer := VNone; Fake.statuses := [];
               Fake.idle_status := Ret 0; Fake.max_velocity := 100;
               Fake.conveyor_running := false |} in
  let w := {| robot := set_magazine_ready true (fresh (VInt 1));
              driver := d0; trace := [] |} in
  fst (set_up_game Fake.driver 1 2 w)
    = Raise (OtherError "NiryoRobotException") /\
  current_piece_count (robot (snd (set_up_game Fake.driver 1 2 w))) = 1 /\
  current_stack_count (robot (snd (set_up_game Fake.driver 1 2 w))) = 0.
Proof.
  intros d0 w.
  rewrite (failed_load_turn_still_counts_piece Fake.driver 0 2 w
             (OtherError "NiryoRobotException") Fake.healthy);
    [repeat split|reflexivity|discriminate|reflexivity|discriminate].
Defined.

(** X13 ([grab_piece], pieces counted but none staged): [grab_piece]
    tests the piece count only.  Under a driver that never fails, with a
    piece counted and the staged count at zero (the state a failed load
    turn leaves), it moves to slot 1, closes the gripper and leaves the
    staged count at -1. *)
Theorem grab_with_nothing_staged_goes_negative
  {D} (drv : Driver D) (fuel : nat) (w : World D) :
  fault_free drv ->
  belt_lock (robot w) = false ->
  current_piece_count (robot w) <> 0 ->
  current_stack_count (robot w) = 0 ->
  exists w' v rest,
    grab_piece drv (S fuel) w = (Ok tt, w') /\
    current_stack_count (robot w') = -1 /\
    current_piece_count (robot w') = current_piece_count (robot w) - 1 /\
    trace w' =
      trace w ++
      [Acquire; Invoke (move_pose index1_pos) (Ret v);
       Log info (MovedToPosition index1_pos)] ++ rest.
Proof.
  intros healthy L C S0.
  destruct (grab_piece_run drv healthy fuel w L C)
    as (w' & v & t & E & F & T & _).
  rewrite S0 in F, T. unfold belt_fields in F. injection F as Fi Fl Fc Fs.
  exists w', v. eexists. split; [exact E|].
  split; [exact Fs|]. split; [exact Fc|]. exact T.
Qed.

Lemma grab_with_nothing_staged_goes_negative_witness :
  let w := {| robot := set_current_piece_count 1 (fresh (VInt 1));
              driver := 0%nat; trace := [] |} in
  exists w' v rest,
    grab_piece Simulator.driver 1 w = (Ok tt, w') /\
    current_stack_count (robot w') = -1 /\
    current_piece_count (robot w') = current_piece_count (robot w) - 1 /\
    trace w' =
      trace w ++
      [Acquire; Invoke (move_pose index1_pos) (Ret v);
       Log info (MovedToPosition index1_pos)] ++ rest.
Proof.
  intro w.
  apply (grab_with_nothing_staged_goes_negative Simulator.driver 0 w
           simulator_fault_free).
  - reflexivity.
  - discriminate.
  - reflexivity.
Defined.

(** ** Accounts of a load and of the grabs after it *)

Lemma load_events_account k :
  forall piece_count c s,
    placements (load_events k piece_count c s) = k /\
    2 * Z.of_nat (belt_advances_to BACKWARD (load_events k piece_count c s))
      + load_stack k piece_count c s = s + Z.of_nat k /\
    belt_advances_to FORWARD (load_events k piece_count c s) = 0%nat.
Proof.
  induction k as [|k IH]; intros piece_count c s.
  - simpl. repeat split. lia.
  - destruct (IH piece_count (c + 1)
                (if full_after_load piece_count c s then 0 else s + 1))
      as (P & A & F).
    cbn [load_events load_stack].
    unfold placements, belt_advances_to in *.
    destruct (full_after_load piece_count c s) eqn:Full.
    + unfold full_after_load in Full. apply andb_prop in Full as [F1 _].
      apply Z.eqb_eq in F1.
      cbn [app filter is_placement is_start_of].
      rewrite Z.eqb_refl.
      replace (0 =? s + 1 + 1) with false by (symmetry; apply Z.eqb_neq; lia).
      cbn [List.length]. rewrite P, F. repeat split. lia.
    + cbn [app filter is_placement is_start_of].
      rewrite Z.eqb_refl. cbn [List.length]. rewrite P, F.
      repeat split. lia.
Qed.

Lemma grab_events_account k :
  forall c s,
    snd (grab_counts k c s) + (c - fst (grab_counts k c s)) =
      s + 2 * Z.of_nat (belt_advances_to FORWARD (grab_events k c s)) /\
    belt_advances_to BACKWARD (grab_events k c s) = 0%nat.
Proof.
  induction k as [|k IH]; intros c s.
  - simpl. split; [lia|reflexivity].
  - cbn [grab_events grab_counts].
    destruct (c =? 0); [apply IH|].
    destruct (IH (c - 1) (if empty_after_grab c s then 2 else s - 1))
      as (A & B).
    unfold belt_advances_to in *.
    destruct (empty_after_grab c s) eqn:Empty.
    + unfold empty_after_grab in Empty. apply andb_prop in Empty as [E1 _].
      apply Z.eqb_eq in E1.
      cbn [app filter is_start_of List.length]. rewrite B.
      split; [lia|reflexivity].
    + cbn [app filter is_start_of List.length]. rewrite B.
      split; [lia|reflexivity].
Qed.

Lemma grab_counts_settled k :
  forall c s,
    settled c s ->
    settled (fst (grab_counts k c s)) (snd (grab_counts k c s)).
Proof.
  induction k as [|k IH]; intros c s H; [exact H|].
  cbn [grab_counts]. destruct (Z.eqb_spec c 0); [now apply IH|].
  apply IH. now apply settled_after_grab.
Qed.

Lemma grab_counts_all k :
  forall c s,
    settled c s -> c = Z.of_nat k -> grab_counts k c s = (0, 0).
Proof.
  induction k as [|k IH]; intros c s H C.
  - simpl. destruct H as [[-> ->] | (q & ? & [[? ?] | [? ?]])];
      [reflexivity|lia|lia].
  - cbn [grab_counts]. destruct (Z.eqb_spec c 0); [lia|].
    apply IH; [now apply settled_after_grab|lia].
Qed.

Lemma settled_in_range c s : settled c s -> 0 <= s <= 2.
Proof. intros [[_ ->] | (q & _ & [[_ ->] | [_ ->]])]; lia. Qed.

Lemma load_events_in_range k :
  forall piece_count c s,
    piece_count = c + Z.of_nat k ->
    s = 0 \/ s = 1 ->
    forallb stack_count_in_range (load_events k piece_count c s) = true.
Proof.
  induction k as [|k IH]; intros piece_count c s Hn Hs; [reflexivity|].
  cbn [load_events]. unfold full_after_load.
  destruct (Z.eqb_spec (c + 1) piece_count) as [E|E]; cbn [negb].
  - assert (K : k = 0%nat) by lia. subst k.
    rewrite andb_false_r. destruct Hs as [-> | ->]; reflexivity.
  - rewrite andb_true_r, !forallb_app.
    destruct Hs as [-> | ->].
    + change (0 + 1 =? 2) with false. cbv iota.
      rewrite IH; [reflexivity|lia|now right].
    + change (1 + 1 =? 2) with true. cbv iota.
      rewrite IH; [reflexivity|lia|now left].
Qed.

Lemma grab_events_in_range k :
  forall c s,
    settled c s ->
    forallb stack_count_in_range (grab_events k c s) = true.
Proof.
  induction k as [|k IH]; intros c s H; [reflexivity|].
  cbn [grab_events]. destruct (Z.eqb_spec c 0); [now apply IH|].
  rewrite !forallb_app. rewrite IH by now apply settled_after_grab.
  destruct H as [[? ?] | (q & Hq & [[-> ->] | [-> ->]])]; [lia| |].
  - replace (empty_after_grab (2 * q + 2) 2) with false by reflexivity.
    reflexivity.
  - unfold empty_after_grab. change (1 - 1 =? 0) with true. cbn [andb].
    destruct (negb (2 * q + 1 - 1 =? 0)); reflexivity.
Qed.

Lemma in_range_belt_events t :
  forallb stack_count_in_range (belt_events t) =
    forallb stack_count_in_range t.
Proof.
  induction t as [|e t IH]; [reflexivity|].
  unfold belt_events in *. simpl.
  destruct e as [c o| | | | | | | |old new];
    try destruct c; simpl; rewrite ?IH; reflexivity.
Qed.

Lemma belt_advances_to_belt_events direction t :
  belt_advances_to direction (belt_events t) = belt_advances_to direction t.
Proof.
  unfold belt_advances_to, belt_events. f_equal.
  induction t as [|e t IH]; [reflexivity|].
  simpl. destruct e as [c o| | | | | | | |old new];
    try destruct c; simpl; rewrite ?IH; reflexivity.
Qed.

Section Accounts.

Context {D : Type}.
Variable drv : Driver D.
Hypothesis healthy : fault_free drv.

Lemma grabs_belt_events fuel k :
  forall w,
    belt_lock (robot w) = false ->
    exists w',
      run_operations drv (S fuel) (repeat Grab k) w = (Ok tt, w') /\
      belt_fields (robot w') =
        (conveyor_id (robot w), false,
         fst (grab_counts k (current_piece_count (robot w))
                (current_stack_count (robot w))),
         snd (grab_counts k (current_piece_count (robot w))
                (current_stack_count (robot w)))) /\
      belt_events (trace w') =
        belt_events (trace w) ++
        grab_events k (current_piece_count (robot w))
          (current_stack_count (robot w)).
Proof.
  induction k as [|k IH]; intros w L.
  - exists w. simpl. split; [reflexivity|].
    unfold belt_fields. rewrite L, app_nil_r. split; reflexivity.
  - cbn [repeat run_operations run_operation grab_events grab_counts].
    destruct (Z.eqb_spec (current_piece_count (robot w)) 0) as [C|C].
    + rewrite (step_eq _ _ _ _ _ (grab_piece_at_zero drv (S fuel) w C)).
      now apply IH.
    + destruct (grab_piece_run drv healthy fuel w L C)
        as (w1 & v & t & E & F & T & N).
      rewrite (step_eq _ _ _ _ _ E).
      unfold belt_fields in F. injection F as Fi Fl Fc Fs.
      destruct (IH w1 Fl) as (w' & E' & F' & T').
      exists w'. split; [exact E'|].
      rewrite F', T', Fi, Fc, Fs. split; [reflexivity|].
      rewrite T, !belt_events_app, (belt_events_neutral t N).
      destruct (empty_after_grab (current_piece_count (robot w))
                  (current_stack_count (robot w)));
        simpl; rewrite <- !app_assoc; reflexivity.
Qed.

End Accounts.

(** X14 ([set_up_game], the account of a load): under a driver that
    never fails, [set_up_game N] from a fresh session returns after
    exactly [N] placements; every piece is then either staged or in a
    pair that a belt thread was started for, backward: twice the number
    of threads started plus the staged count is [N], with no piece
    staged for [N = 0] and one or two otherwise. *)
Theorem set_up_game_accounts_for_every_piece
  {D} (drv : Driver D) (N : Z) (fuel : nat) (w : World D) (id : value) :
  fault_free drv ->
  robot w = fresh id ->
  trace w = [] ->
  0 <= N ->
  (Z.to_nat N < fuel)%nat ->
  exists w',
    set_up_game drv fuel N w = (Ok tt, w') /\
    current_piece_count (robot w') = N /\
    Z.of_nat (placements (trace w')) = N /\
    2 * Z.of_nat (belt_advances_to BACKWARD (trace w'))
      + current_stack_count (robot w') = N /\
    belt_advances_to FORWARD (trace w') = 0%nat /\
    (N = 0 /\ current_stack_count (robot w') = 0 \/
     1 <= N /\ 1 <= current_stack_count (robot w') <= 2).
Proof.
  intros healthy Hw Ht HN Hf.
  destruct (set_up_game_belt_events drv healthy N fuel w)
    as (w' & E & F & T).
  - now rewrite Hw.
  - rewrite Hw. exact HN.
  - rewrite Hw. simpl. now rewrite Z.sub_0_r.
  - rewrite Hw, Ht in *. simpl in F, T. rewrite Z.sub_0_r in F, T.
    unfold belt_fields in F. injection F as Fi Fl Fc Fs.
    destruct (load_events_account (Z.to_nat N) N 0 0) as (P & A & B).
    assert (S : settled N (load_stack (Z.to_nat N) N 0 0)).
    { apply settled_after_load; [lia|lia| |lia].
      exists 0. split; [lia|]. left. lia. }
    exists w'. split; [exact E|]. split; [exact Fc|].
    rewrite <- placements_belt_events,
      <- (belt_advances_to_belt_events BACKWARD (trace w')),
      <- (belt_advances_to_belt_events FORWARD (trace w')), T, Fs, P, B.
    split; [lia|]. split; [lia|]. split; [reflexivity|].
    destruct S as [[? ?] | (q & ? & [[? ?] | [? ?]])]; [left|right|right];
      lia.
Qed.

Lemma set_up_game_accounts_for_every_piece_witness :
  exists w',
    set_up_game Simulator.driver 8 7 Simulator.session = (Ok tt, w') /\
    current_piece_count (robot w') = 7 /\
    Z.of_nat (placements (trace w')) = 7 /\
    2 * Z.of_nat (belt_advances_to BACKWARD (trace w'))
      + current_stack_count (robot w') = 7 /\
    belt_advances_to FORWARD (trace w') = 0%nat /\
    (7 = 0 /\ current_stack_count (robot w') = 0 \/
     1 <= 7 /\ 1 <= current_stack_count (robot w') <= 2).
Proof.
  apply (set_up_game_accounts_for_every_piece Simulator.driver 7 8
           Simulator.session (VInt 1) simulator_fault_free);
    [reflexivity|reflexivity|lia|simpl; lia].
Defined.

(** X15 (one load, then grabs): under a driver that never fails, after
    [set_up_game N] from a fresh session any number of calls of
    [grab_piece] return, and in the whole session every assignment to
    the staged count gives it a value from 0 to 2. *)
Theorem one_load_then_grabs_keep_stack_count_in_range
  {D} (drv : Driver D) (N : Z) (k fuel : nat) (w : World D) (id : value) :
  fault_free drv ->
  robot w = fresh id ->
  trace w = [] ->
  0 <= N ->
  (Z.to_nat N < fuel)%nat ->
  exists w',
    run_operations drv fuel (Load N :: repeat Grab k) w = (Ok tt, w') /\
    forallb stack_count_in_range (trace w') = true /\
    0 <= current_stack_count (robot w') <= 2.
Proof.
  intros healthy Hw Ht HN Hf.
  destruct (set_up_game_belt_events drv healthy N fuel w)
    as (w1 & E1 & F1 & T1).
  - now rewrite Hw.
  - rewrite Hw. exact HN.
  - rewrite Hw. simpl. now rewrite Z.sub_0_r.
  - rewrite Hw, Ht in *. simpl in F1, T1. rewrite Z.sub_0_r in F1, T1.
    unfold belt_fields in F1. injection F1 as Fi Fl Fc Fs.
    assert (S1 : settled N (load_stack (Z.to_nat N) N 0 0)).
    { apply settled_after_load; [lia|lia| |lia].
      exists 0. split; [lia|]. left. lia. }
    destruct fuel as [|fuel]; [lia|].
    destruct (grabs_belt_events drv healthy fuel k w1 Fl)
      as (w' & E & F & T).
    cbn [run_operations run_operation]. rewrite (step_eq _ _ _ _ _ E1).
    exists w'. split; [exact E|].
    rewrite Fc, Fs in F, T. unfold belt_fields in F.
    injection F as Gi Gl Gc Gs.
    split.
    + rewrite <- in_range_belt_events, T, T1, forallb_app.
      rewrite load_events_in_range; [|lia|now left].
      now rewrite grab_events_in_range.
    + rewrite Gs. eapply settled_in_range.
      apply grab_counts_settled. exact S1.
Qed.

Lemma one_load_then_grabs_keep_stack_count_in_range_witness :
  exists w',
    run_operations Simulator.driver 6 (Load 5 :: repeat Grab 9)
      Simulator.session = (Ok tt, w') /\
    forallb stack_count_in_range (trace w') = true /\
    0 <= current_stack_count (robot w') <= 2.
Proof.
  apply (one_load_then_grabs_keep_stack_count_in_range Simulator.driver
           5 9 6 Simulator.session (VInt 1) simulator_fault_free);
    [reflexivity|reflexivity|lia|simpl; lia].
Defined.

(** X16 (the belt comes back): under a driver that never fails, in a
    session of [set_up_game N] followed by [N] calls of [grab_piece]
    as many belt threads are started forward as were started backward:
    every pair moved away from the arm is brought back. *)
Theorem grabs_bring_back_every_pair
  {D} (drv : Driver D) (N : Z) (fuel : nat) (w : World D) (id : value) :
  fault_free drv ->
  robot w = fresh id ->
  trace w = [] ->
  0 <= N ->
  (Z.to_nat N < fuel)%nat ->
  exists w',
    run_operations drv fuel (Load N :: repeat Grab (Z.to_nat N)) w
      = (Ok tt, w') /\
    belt_advances_to FORWARD (trace w') =
      belt_advances_to BACKWARD (trace w').
Proof.
  intros healthy Hw Ht HN Hf.
  destruct (set_up_game_belt_events drv healthy N fuel w)
    as (w1 & E1 & F1 & T1).
  - now rewrite Hw.
  - rewrite Hw. exact HN.
  - rewrite Hw. simpl. now rewrite Z.sub_0_r.
  - rewrite Hw, Ht in *. simpl in F1, T1. rewrite Z.sub_0_r in F1, T1.
    unfold belt_fields in F1. injection F1 as Fi Fl Fc Fs.
    assert (S1 : settled N (load_stack (Z.to_nat N) N 0 0)).
    { apply settled_after_load; [lia|lia| |lia].
      exists 0. split; [lia|]. left. lia. }
    destruct fuel as [|fuel]; [lia|].
    destruct (grabs_belt_events drv healthy fuel (Z.to_nat N) w1 Fl)
      as (w' & E & _ & T).
    cbn [run_operations run_operation]. rewrite (step_eq _ _ _ _ _ E1).
    exists w'. split; [exact E|].
    rewrite Fc, Fs in T.
    rewrite <- (belt_advances_to_belt_events BACKWARD (trace w')),
      <- (belt_advances_to_belt_events FORWARD (trace w')), T, T1.
    unfold belt_advances_to. rewrite !filter_app, !length_app.
    fold (belt_advances_to FORWARD (load_events (Z.to_nat N) N 0 0)).
    fold (belt_advances_to BACKWARD (load_events (Z.to_nat N) N 0 0)).
    fold (belt_advances_to FORWARD
            (grab_events (Z.to_nat N) N (load_stack (Z.to_nat N) N 0 0))).
    fold (belt_advances_to BACKWARD
            (grab_events (Z.to_nat N) N (load_stack (Z.to_nat N) N 0 0))).
    destruct (load_events_account (Z.to_nat N) N 0 0) as (_ & A & B).
    destruct (grab_events_account (Z.to_nat N) N
                (load_stack (Z.to_nat N) N 0 0)) as (A' & B').
    rewrite (grab_counts_all (Z.to_nat N) N _ S1) in A' by lia.
    simpl fst in A'. simpl snd in A'. lia.
Qed.

Lemma grabs_bring_back_every_pair_witness :
  exists w',
    run_operations Simulator.driver 8
      (Load 7 :: repeat Grab (Z.to_nat 7)) Simulator.session = (Ok tt, w') /\
    belt_advances_to FORWARD (trace w') =
      belt_advances_to BACKWARD (trace w').
Proof.
  apply (grabs_bring_back_every_pair Simulator.driver 7 8
           Simulator.session (VInt 1) simulator_fault_free);
    [reflexivity|reflexivity|lia|simpl; lia].
Defined.

(** ** What no operation undoes *)

Lemma steady_refl r : steady r r.
Proof. repeat split; auto. Qed.

Lemma steady_trans r1 r2 r3 : steady r1 r2 -> steady r2 r3 -> steady r1 r3.
Proof. unfold steady. intuition congruence. Qed.

(** X17 (flags and conveyor id): whatever the driver does and however a
    run ends, a session of loads and grabs and a belt thread never
    change the conveyor id, never take back [__magazine_ready] or
    [__board_calibrated] once set, and only add to what has happened. *)
Theorem threads_keep_conveyor_id_and_set_flags
  {D} (drv : Driver D) (fuel : nat) (body : thread_body) (w : World D) :
  steady (robot w) (robot (snd (run_thread drv fuel body w))) /\
  exists t, trace (snd (run_thread drv fuel body w)) = trace w ++ t.
Proof.
  apply (framed_run_thread drv steady steady_refl steady_trans);
    intros; repeat split; auto.
Qed.

(** * The session around the object *)

(** ** Counting on histories *)

Lemma setup_calls_app (a b : list session_event) :
  setup_calls (a ++ b) = setup_calls a ++ setup_calls b.
Proof.
  induction a as [|e a IH]; [reflexivity|].
  destruct e; simpl; now rewrite IH.
Qed.

Lemma teardowns_app (a b : list session_event) :
  teardowns (a ++ b) = (teardowns a + teardowns b)%nat.
Proof.
  unfold teardowns. now rewrite setup_calls_app, filter_app, length_app.
Qed.

Lemma teardowns_core (t : list event) : teardowns (map Core t) = 0%nat.
Proof.
  unfold teardowns. induction t as [|e t IH]; [reflexivity|exact IH].
Qed.

Lemma milestones_app (a b : list session_event) :
  milestones (a ++ b) = milestones a ++ milestones b.
Proof. apply filter_app. Qed.

Lemma milestones_kept (e : session_event) (t : list session_event) :
  is_milestone e = true -> milestones (e :: t) = e :: milestones t.
Proof. intro H. unfold milestones. simpl. now rewrite H. Qed.

Lemma milestones_core (t : list event) : milestones (map Core t) = [].
Proof. induction t as [|e t IH]; [reflexivity|exact IH]. Qed.

(** ** Runs of the session *)

Section SessionRuns.

Context {D : Type}.
Variable sdrv : SessionDriver D.

Lemma lift_run {A} (m : M A) (s : Session D) r w :
  m (view s) = (r, w) ->
  lift m s =
    (r, {| object := robot w; sdriver := driver w;
           strace := strace s ++ map Core (trace w) |}).
Proof.
  intro E. unfold lift. fold (view s). now rewrite E.
Qed.

Lemma sstep_eq {A B} (m : SM A) (k : A -> SM B) (s : Session D) a s1 :
  m s = (Ok a, s1) -> sbind m k s = k a s1.
Proof. intro E. unfold sbind. now rewrite E. Qed.

Lemma sbind_returned {A B} (m : SM A) (k : A -> SM B) (s : Session D) b s2 :
  sbind m k s = (Ok b, s2) ->
  exists a s1, m s = (Ok a, s1) /\ k a s1 = (Ok b, s2).
Proof.
  unfold sbind. destruct (m s) as [[a|e|] s1]; intro E;
    [now exists a, s1|discriminate|discriminate].
Qed.

Lemma stry_except_returned {A} (m : SM A) (h : exn -> SM A)
  (s : Session D) a s1 :
  (forall e s0, exists e' s0', h e s0 = (Raise e', s0')) ->
  stry_except m h s = (Ok a, s1) ->
  m s = (Ok a, s1).
Proof.
  intros H. unfold stry_except. destruct (m s) as [[a0|e|] s0];
    [auto|intro E|auto].
  destruct (H e s0) as (e' & s0' & E'). rewrite E' in E. discriminate.
Qed.

Lemma setup_run (c : setup_call) (s : Session D) :
  setup sdrv c s =
    (match fst (drv_setup sdrv c (sdriver s)) with
     | Ret v => Ok v
     | Exc e => Raise e
     end,
     {| object := object s; sdriver := snd (drv_setup sdrv c (sdriver s));
        strace := strace s ++
                  [Setup c (fst (drv_setup sdrv c (sdriver s)))] |}).
Proof.
  unfold setup. destruct (drv_setup sdrv c (sdriver s)) as [[v|e] d];
    reflexivity.
Qed.

Lemma end_robot_run (s : Session D) :
  end_robot sdrv s =
    (match fst (drv_setup sdrv robot_end (sdriver s)) with
     | Ret _ => Ok tt
     | Exc e => Raise e
     end,
     {| object := object s;
        sdriver := snd (drv_setup sdrv robot_end (sdriver s));
        strace := strace s ++
                  [Setup robot_end
                     (fst (drv_setup sdrv robot_end (sdriver s)))] |}).
Proof.
  unfold end_robot, sbind. rewrite setup_run.
  destruct (fst (drv_setup sdrv robot_end (sdriver s))); reflexivity.
Qed.

(** *** What never calls [end] *)

Lemma unended_still {A} (r : result A) : unended (fun s : Session D => (r, s)).
Proof. intro s. exists []. now rewrite app_nil_r. Qed.

Lemma unended_bind {A B} (m : SM A) (k : A -> SM B) :
  @unended D A m -> (forall a, unended (k a)) -> unended (sbind m k).
Proof.
  intros Hm Hk s. destruct (Hm s) as (t1 & T1 & N1). unfold sbind.
  destruct (m s) as [[a|e|] s1]; simpl in T1;
    [|now exists t1|now exists t1].
  destruct (Hk a s1) as (t2 & T2 & N2). exists (t1 ++ t2).
  rewrite T2, T1, app_assoc, teardowns_app, N1, N2. now split.
Qed.

Lemma unended_try_except {A} (m : SM A) (h : exn -> SM A) :
  @unended D A m -> (forall e, unended (h e)) -> unended (stry_except m h).
Proof.
  intros Hm Hh s. destruct (Hm s) as (t1 & T1 & N1). unfold stry_except.
  destruct (m s) as [[a|e|] s1]; simpl in T1;
    [now exists t1| |now exists t1].
  destruct (Hh e s1) as (t2 & T2 & N2). exists (t1 ++ t2).
  rewrite T2, T1, app_assoc, teardowns_app, N1, N2. now split.
Qed.

Lemma unended_semit (e : session_event) :
  teardowns [e] = 0%nat -> @unended D unit (semit e).
Proof. intros H s. now exists [e]. Qed.

Lemma unended_supdate (f : Robot -> Robot) : @unended D unit (supdate f).
Proof. intro s. exists []. simpl. now rewrite app_nil_r. Qed.

Lemma unended_lift {A} (m : M A) : @unended D A (lift m).
Proof.
  intro s. destruct (m (view s)) as [r w] eqn:E.
  rewrite (lift_run m s r w E). exists (map Core (trace w)).
  split; [reflexivity|apply teardowns_core].
Qed.

Lemma unended_setup (c : setup_call) :
  is_end c = false -> unended (setup sdrv c).
Proof.
  intros H s. rewrite setup_run. simpl.
  exists [Setup c (fst (drv_setup sdrv c (sdriver s)))].
  split; [reflexivity|]. unfold teardowns. simpl. now rewrite H.
Qed.

Lemma unended_session_execute (fuel : nat) (c : setup_call) :
  is_end c = false -> unended (session_execute sdrv fuel c).
Proof.
  intro H. induction fuel as [|fuel IH]; [apply unended_still|].
  simpl. apply unended_try_except; [now apply unended_setup|].
  intros [| | |what].
  - apply unended_bind; [now apply unended_semit|intros _].
    apply unended_still.
  - apply unended_bind; [now apply unended_semit|intros _]. exact IH.
  - apply unended_still.
  - apply unended_still.
Qed.

Lemma unended_test_loop (inner : nat) :
  forall fuel original_piece,
    unended (test_loop sdrv fuel inner original_piece).
Proof.
  induction fuel as [|fuel IH]; intro original_piece;
    [apply unended_still|].
  simpl. destruct (original_piece =? 0); [apply unended_still|].
  apply unended_bind; [apply unended_lift|intros _].
  apply unended_bind; [apply unended_lift|intros _].
  apply IH.
Qed.

Lemma unended_bring_up (fuel : nat) : unended (bring_up sdrv fuel).
Proof.
  unfold bring_up, slog.
  apply unended_bind; [now apply unended_session_execute|intros _].
  apply unended_bind; [now apply unended_semit|intros _].
  apply unended_bind; [apply unended_lift|intros _].
  apply unended_bind;
    [now apply unended_session_execute|intros current_tool_id].
  apply unended_bind.
  { destruct (existsb (value_eqb current_tool_id) (gripper_ids sdrv));
      [apply unended_still|now apply unended_semit]. }
  intros _.
  apply unended_bind; [apply unended_lift|intros _].
  apply unended_bind; [now apply unended_semit|intros _].
  apply unended_bind; [now apply unended_session_execute|intros id].
  apply unended_bind; [apply unended_supdate|intros _].
  apply unended_bind; [now apply unended_semit|intros _].
  apply unended_lift.
Qed.

Lemma unended_test_body (fuel : nat) (piece : Z) :
  unended (test_body sdrv fuel piece).
Proof.
  unfold test_body.
  apply unended_bind; [apply unended_lift|intros _].
  apply unended_test_loop.
Qed.

Lemma connect_run (robot_ip : string) (s : Session D) :
  connect sdrv robot_ip s =
    (match fst (drv_setup sdrv (NiryoRobot robot_ip) (sdriver s)) with
     | Ret _ => Ok tt
     | Exc e => Raise e
     end,
     {| object := object s;
        sdriver := snd (drv_setup sdrv (NiryoRobot robot_ip) (sdriver s));
        strace :=
          strace s ++
          Setup (NiryoRobot robot_ip)
            (fst (drv_setup sdrv (NiryoRobot robot_ip) (sdriver s))) ::
          match fst (drv_setup sdrv (NiryoRobot robot_ip) (sdriver s)) with
          | Ret _ => []
          | Exc _ => [SessionLog on_critical ConnectionFailed]
          end |}).
Proof.
  unfold connect, stry_except, sbind. rewrite setup_run.
  destruct (fst (drv_setup sdrv (NiryoRobot robot_ip) (sdriver s)));
    [reflexivity|].
  unfold slog, semit, sraise. simpl. now rewrite <- app_assoc.
Qed.

(** How often [__init__] has called [end] when it is left. *)
Lemma init_teardowns (fuel : nat) (robot_ip : string) (s : Session D) :
  exists r s' t,
    init sdrv fuel robot_ip s = (r, s') /\
    strace s' = strace s ++ t /\
    teardowns t =
      match fst (drv_setup sdrv (NiryoRobot robot_ip) (sdriver s)), r with
      | Ret _, Raise _ => 1%nat
      | _, _ => 0%nat
      end /\
    (forall e,
        fst (drv_setup sdrv (NiryoRobot robot_ip) (sdriver s)) = Exc e ->
        r = Raise e).
Proof.
  unfold init. unfold sbind at 1. rewrite connect_run.
  destruct (drv_setup sdrv (NiryoRobot robot_ip) (sdriver s))
    as [[v|e] d]; cbn [fst snd].
  - match goal with
    | |- context [sbind _ _ ?s0] => set (s1 := s0)
    end.
    destruct (unended_bring_up fuel s1) as (t & T & N).
    unfold sbind, stry_except.
    destruct (bring_up sdrv fuel s1) as [[[]|e|] s2]; cbn [snd] in T.
    + eexists _, _, (_ :: t). split; [reflexivity|]. cbn [strace].
      rewrite T. subst s1. cbn [strace]. rewrite <- app_assoc.
      split; [reflexivity|]. split; [exact N|discriminate].
    + rewrite end_robot_run.
      destruct (drv_setup sdrv robot_end (sdriver s2)) as [[v'|e'] d'];
        cbn [fst snd];
        (eexists _, _, (_ :: t ++ [_]); split; [reflexivity|];
         cbn [strace]; rewrite T; subst s1; cbn [strace];
         rewrite <- !app_assoc; split; [reflexivity|];
         split; [|discriminate];
         change (teardowns (Setup (NiryoRobot robot_ip) (Ret v) :: t ++ [Setup robot_end ?o]))
           with (teardowns (t ++ [Setup robot_end o]));
         rewrite teardowns_app, N; reflexivity).
    + eexists _, _, (_ :: t). split; [reflexivity|].
      rewrite T. subst s1. cbn [strace]. rewrite <- app_assoc.
      split; [reflexivity|]. split; [exact N|discriminate].
  - eexists _, _, _. split; [reflexivity|]. cbn [strace].
    split; [reflexivity|]. split; [reflexivity|]. intros e0 H.
    now injection H as ->.
Qed.

(** *** What a run that returned has done *)

Lemma lift_returned {A} (m : M A) (s : Session D) a s1 :
  lift m s = (Ok a, s1) ->
  exists w,
    m (view s) = (Ok a, w) /\
    s1 = {| object := robot w; sdriver := driver w;
            strace := strace s ++ map Core (trace w) |}.
Proof.
  destruct (m (view s)) as [r w] eqn:E. rewrite (lift_run m s r w E).
  intro H. injection H as -> <-. now exists w.
Qed.

Lemma session_execute_returned (c : setup_call) :
  forall fuel (s : Session D) v s1,
    session_execute sdrv fuel c s = (Ok v, s1) ->
    object s1 = object s /\
    exists t, strace s1 = strace s ++ t /\ milestones t = [Setup c (Ret v)].
Proof.
  induction fuel as [|fuel IH]; intros s v s1; [discriminate|].
  simpl. unfold stry_except. rewrite setup_run.
  destruct (drv_setup sdrv c (sdriver s)) as [[v0|e] d]; cbn [fst snd].
  - intro H. injection H as <- <-. split; [reflexivity|].
    now exists [Setup c (Ret v0)].
  - destruct e as [| | |what]; unfold sbind, semit, sraise;
      try discriminate.
    intro H. apply IH in H as (O & t & T & M). cbn [object strace] in *.
    split; [exact O|].
    exists ([Setup c (Exc RosTimeoutError);
             Core (Log warning
                     (RetryingAction
                        (match setup_call_name c with
                         | None => three_dot
                         | Some n => n
                         end)))] ++ t).
    rewrite T, <- !app_assoc. split; [reflexivity|].
    rewrite milestones_app. exact M.
Qed.

Lemma end_robot_then_raise (e : exn) (s : Session D) :
  exists e' s',
    sbind (end_robot sdrv) (fun _ => @sraise D unit e) s = (Raise e', s').
Proof.
  unfold sbind. rewrite end_robot_run.
  destruct (fst (drv_setup sdrv robot_end (sdriver s)));
    eexists _, _; reflexivity.
Qed.

Lemma init_returned (fuel : nat) (robot_ip : string) (s s' : Session D) :
  init sdrv fuel robot_ip s = (Ok tt, s') ->
  exists t v0 v1 current_tool_id id,
    strace s' = strace s ++ t /\
    milestones t = init_milestones sdrv robot_ip v0 v1 current_tool_id id /\
    teardowns t = 0%nat /\
    object s' = fresh id.
Proof.
  intro E. unfold init in E.
  apply sbind_returned in E as ([] & s1 & E1 & E).
  rewrite connect_run in E1.
  destruct (drv_setup sdrv (NiryoRobot robot_ip) (sdriver s))
    as [[v0|e] d0]; cbn [fst snd] in E1; [|discriminate].
  injection E1 as <-.
  apply sbind_returned in E as ([] & s2 & E2 & E).
  apply stry_except_returned in E2; [|apply end_robot_then_raise].
  unfold supdate in E. injection E as <-. cbn [object strace].
  match type of E2 with
  | bring_up _ _ ?s0 = _ =>
      destruct (unended_bring_up fuel s0) as (tb & Tb & Nb)
  end.
  rewrite E2 in Tb. cbn [snd strace] in Tb.
  unfold bring_up in E2.
  apply sbind_returned in E2 as (v1 & s3 & E3 & E2).
  apply session_execute_returned in E3 as (O3 & t3 & T3 & M3).
  apply sbind_returned in E2 as ([] & s4 & E4 & E2).
  unfold slog, semit in E4. injection E4 as <-.
  apply sbind_returned in E2 as (u5 & s5 & E5 & E2).
  apply lift_returned in E5 as (w5 & _ & ->).
  apply sbind_returned in E2 as (tool & s6 & E6 & E2).
  apply session_execute_returned in E6 as (O6 & t6 & T6 & M6).
  apply sbind_returned in E2 as ([] & s7 & E7 & E2).
  apply sbind_returned in E2 as ([] & s8 & E8 & E2).
  apply lift_returned in E8 as (w8 & _ & ->).
  apply sbind_returned in E2 as ([] & s9 & E9 & E2).
  unfold slog, semit in E9. injection E9 as <-.
  apply sbind_returned in E2 as (id & s10 & E10 & E2).
  apply session_execute_returned in E10 as (O10 & t10 & T10 & M10).
  apply sbind_returned in E2 as ([] & s11 & E11 & E2).
  unfold supdate in E11. injection E11 as <-.
  apply sbind_returned in E2 as ([] & s12 & E12 & E2).
  unfold slog, semit in E12. injection E12 as <-.
  apply lift_returned in E2 as (w13 & E13 & ->).
  cbn [object sdriver strace] in *.
  assert (Q := quiet_move_to_home (core_driver sdrv) fuel
                 (view {| object := set_conveyor_id id (object s10);
                          sdriver := sdriver s10;
                          strace := strace s10 ++
                                    [SessionLog on_info ConveyorReady] |})).
  rewrite E13 in Q. destruct Q as (F & _).
  unfold same_belt, belt_fields in F. injection F as Fi _ _ _.
  cbn in Fi.
  assert (T7 : exists t7,
             strace s7 = strace s6 ++ t7 /\
             milestones t7 =
               if existsb (value_eqb tool) (gripper_ids sdrv)
               then [] else [SessionLog on_error GripperNotDetected]).
  { destruct (existsb (value_eqb tool) (gripper_ids sdrv)).
    - injection E7 as <-. exists []. now rewrite app_nil_r.
    - unfold slog, semit in E7. injection E7 as <-. now eexists. }
  destruct T7 as (t7 & T7 & M7).
  assert (T : exists t,
             strace s10 ++ SessionLog on_info ConveyorReady ::
               map Core (trace w13) = strace s ++ t /\
             milestones t =
               init_milestones sdrv robot_ip v0 v1 tool id).
  { eexists. split.
    - rewrite T10. cbn [strace]. rewrite T7, T6. cbn [strace]. rewrite T3.
      cbn [strace]. rewrite <- !app_assoc. reflexivity.
    - cbn [app].
      repeat (rewrite milestones_app ||
              rewrite milestones_kept by reflexivity).
      rewrite !milestones_core, M3, M6, M7, M10.
      unfold init_milestones.
      destruct (existsb (value_eqb tool) (gripper_ids sdrv)); reflexivity. }
  destruct T as (t & T & M).
  exists t, v0, v1, tool, id.
  split; [|split; [exact M|split]].
  - rewrite <- T, <- app_assoc. reflexivity.
  - rewrite <- app_assoc in Tb. cbn [app] in Tb.
    rewrite <- app_assoc in Tb. cbn [app] in Tb.
    rewrite T in Tb. apply app_inv_head in Tb. rewrite Tb.
    exact Nb.
  - now rewrite Fi.
Qed.

(** *** What returns *)

Lemma sreturns_bind {A B} (m : SM A) (k : A -> SM B) :
  @sreturns D A m -> (forall a, sreturns (k a)) -> sreturns (sbind m k).
Proof.
  intros Hm Hk s. destruct (Hm s) as (a & s1 & E1).
  destruct (Hk a s1) as (b & s2 & E2). exists b, s2.
  now rewrite (sstep_eq m k s a s1 E1).
Qed.

Lemma sreturns_try_except {A} (m : SM A) (h : exn -> SM A) :
  @sreturns D A m -> sreturns (stry_except m h).
Proof.
  intros Hm s. destruct (Hm s) as (a & s1 & E1). exists a, s1.
  unfold stry_except. now rewrite E1.
Qed.

Lemma sreturns_semit (e : session_event) : @sreturns D unit (semit e).
Proof. intro s. now eexists _, _. Qed.

Lemma sreturns_supdate (f : Robot -> Robot) : @sreturns D unit (supdate f).
Proof. intro s. now eexists _, _. Qed.

Lemma sreturns_lift {A} (m : M A) : calm m -> @sreturns D A (lift m).
Proof.
  intros Hm s. destruct (Hm (view s)) as (a & w & E & _).
  rewrite (lift_run m s _ w E). now eexists _, _.
Qed.

Section ArmHealthy.

Hypothesis arm : fault_free (confirming (core_driver sdrv)).
Hypothesis base : setup_returns sdrv.

Lemma setup_returned (c : setup_call) (s : Session D) :
  exists v,
    setup sdrv c s =
      (Ok v, {| object := object s;
                sdriver := snd (drv_setup sdrv c (sdriver s));
                strace := strace s ++ [Setup c (Ret v)] |}).
Proof.
  destruct (base c (sdriver s)) as [v Hv]. exists v.
  rewrite setup_run, Hv. reflexivity.
Qed.

Lemma sreturns_session_execute (fuel : nat) (c : setup_call) :
  sreturns (session_execute sdrv (S fuel) c).
Proof.
  intro s. destruct (setup_returned c s) as [v E].
  simpl. unfold stry_except. rewrite E. now eexists _, _.
Qed.

Lemma sreturns_bring_up (fuel : nat) : sreturns (bring_up sdrv (S fuel)).
Proof.
  unfold bring_up, slog.
  apply sreturns_bind; [apply sreturns_session_execute|intros _].
  apply sreturns_bind; [apply sreturns_semit|intros _].
  apply sreturns_bind.
  { apply sreturns_lift.
    exact (calm_execute (confirming (core_driver sdrv)) arm fuel
             update_tool eq_refl). }
  intros _.
  apply sreturns_bind;
    [apply sreturns_session_execute|intros current_tool_id].
  apply sreturns_bind.
  { destruct (existsb (value_eqb current_tool_id) (gripper_ids sdrv));
      [intro s; now eexists _, _|apply sreturns_semit]. }
  intros _.
  apply sreturns_bind.
  { apply sreturns_lift.
    exact (calm_control_gripper (confirming (core_driver sdrv)) arm
             fuel OPEN). }
  intros _.
  apply sreturns_bind; [apply sreturns_semit|intros _].
  apply sreturns_bind; [apply sreturns_session_execute|intros id].
  apply sreturns_bind; [apply sreturns_supdate|intros _].
  apply sreturns_bind; [apply sreturns_semit|intros _].
  apply sreturns_lift.
  exact (calm_move_to_home (confirming (core_driver sdrv)) arm fuel).
Qed.

Lemma init_returns (fuel : nat) (robot_ip : string) (s : Session D) :
  exists s', init sdrv (S fuel) robot_ip s = (Ok tt, s').
Proof.
  unfold init. unfold sbind at 1. rewrite connect_run.
  destruct (base (NiryoRobot robot_ip) (sdriver s)) as [v0 H0].
  rewrite H0.
  match goal with
  | |- context [sbind _ _ ?s0] =>
      destruct (sreturns_bring_up fuel s0) as ([] & s2 & E2)
  end.
  unfold sbind, stry_except. rewrite E2. now eexists.
Qed.

End ArmHealthy.

End SessionRuns.

(** ** [__init__] *)

(** X18 ([__init__], no robot at the address): when the connection
    raises, whatever it raises and the transient timeout included,
    [__init__] logs the failure and raises the same exception; the
    connection is not tried again, nothing else is called, [end]
    included, and no field of the object is set. *)
Theorem init_connection_failure_is_final
  {D} (sdrv : SessionDriver D) (fuel : nat) (robot_ip : string)
  (s : Session D) (e : exn) (d : D) :
  drv_setup sdrv (NiryoRobot robot_ip) (sdriver s) = (Exc e, d) ->
  init sdrv fuel robot_ip s =
    (Raise e,
     {| object := object s; sdriver := d;
        strace := strace s ++
                  [Setup (NiryoRobot robot_ip) (Exc e);
                   SessionLog on_critical ConnectionFailed] |}).
Proof.
  intro H. unfold init. unfold sbind at 1.
  rewrite connect_run, H. reflexivity.
Qed.

Lemma init_connection_failure_is_final_witness :
  init Unreachable.driver 3 "169.254.200.200"
    (SimulatorSession.start (fresh VNone)) =
    (Raise RosTimeoutError,
     {| object := fresh VNone; sdriver := 1%nat;
        strace := [Setup (NiryoRobot "169.254.200.200")
                     (Exc RosTimeoutError);
                   SessionLog on_critical ConnectionFailed] |}).
Proof.
  apply (init_connection_failure_is_final Unreachable.driver 3
           "169.254.200.200" (SimulatorSession.start (fresh VNone))
           RosTimeoutError 1%nat).
  reflexivity.
Defined.

(** X19 ([__init__], a failure after the connection): when the
    connection returned and [__init__] raises, it has called [end]
    exactly once, as the last thing it did; what it raises is what [end]
    raised, when [end] raised. *)
Theorem init_failure_after_connection_ends_robot
  {D} (sdrv : SessionDriver D) (fuel : nat) (robot_ip : string)
  (s s' : Session D) (v : value) (d : D) (e : exn) :
  drv_setup sdrv (NiryoRobot robot_ip) (sdriver s) = (Ret v, d) ->
  init sdrv fuel robot_ip s = (Raise e, s') ->
  exists t o,
    strace s' = strace s ++ t ++ [Setup robot_end o] /\
    teardowns t = 0%nat /\
    (o = Exc e \/ exists v', o = Ret v').
Proof.
  intros H E. unfold init in E. unfold sbind at 1 in E.
  rewrite connect_run, H in E. cbn [fst snd] in E.
  match type of E with
  | context [sbind _ _ ?s0] =>
      destruct (unended_bring_up sdrv fuel s0) as (t & T & N);
      unfold sbind, stry_except in E;
      destruct (bring_up sdrv fuel s0) as [[[]|e0|] s2]
  end; cbn [snd strace] in T; [discriminate| |discriminate].
  rewrite end_robot_run in E.
  exists (Setup (NiryoRobot robot_ip) (Ret v) :: t),
    (fst (drv_setup sdrv robot_end (sdriver s2))).
  destruct (drv_setup sdrv robot_end (sdriver s2)) as [[v'|e'] d'];
    cbn [fst snd] in E |- *; injection E as <- <-; cbn [strace];
    rewrite T, <- !app_assoc;
    (split; [reflexivity|]; split; [exact N|]).
  - right. now exists v'.
  - now left.
Qed.

Lemma init_failure_after_connection_ends_robot_witness :
  exists t o,
    strace (snd (init FakeSession.driver 3 "169.254.200.200"
                   (FakeSession.start (FakeSession.failing IndexError)))) =
      [] ++ t ++ [Setup robot_end o] /\
    teardowns t = 0%nat /\
    (o = Exc IndexError \/ exists v', o = Ret v').
Proof.
  apply (init_failure_after_connection_ends_robot FakeSession.driver 3
           "169.254.200.200"
           (FakeSession.start (FakeSession.failing IndexError))
           (snd (init FakeSession.driver 3 "169.254.200.200"
                   (FakeSession.start (FakeSession.failing IndexError))))
           VNone (FakeSession.failing IndexError) IndexError).
  - reflexivity.
  - vm_compute. reflexivity.
Defined.

(** X20 ([__init__], a construction that returned): whatever the fields
    held before and however many timeouts were retried, when [__init__]
    returns, the connection, the calibration, the read of the tool id
    and the conveyor setup have each returned once, in this order;
    a tool that is no gripper only adds an error line; [end] was not
    called; and the object starts with the lock free, both counts at
    zero, both flags unset and the conveyor id that was handed out. *)
Theorem init_returns_fresh_object
  {D} (sdrv : SessionDriver D) (fuel : nat) (robot_ip : string)
  (s s' : Session D) :
  init sdrv fuel robot_ip s = (Ok tt, s') ->
  exists t v0 v1 current_tool_id id,
    strace s' = strace s ++ t /\
    milestones t = init_milestones sdrv robot_ip v0 v1 current_tool_id id /\
    teardowns t = 0%nat /\
    object s' = fresh id.
Proof. apply init_returned. Qed.

Lemma init_returns_fresh_object_witness :
  exists t v0 v1 current_tool_id id,
    strace (snd (init SimulatorSession.driver 1 "127.0.0.1"
                   (SimulatorSession.start (fresh VNone)))) = [] ++ t /\
    milestones t =
      init_milestones SimulatorSession.driver "127.0.0.1" v0 v1
        current_tool_id id /\
    teardowns t = 0%nat /\
    object (snd (init SimulatorSession.driver 1 "127.0.0.1"
                   (SimulatorSession.start (fresh VNone)))) = fresh id.
Proof.
  apply (init_returns_fresh_object SimulatorSession.driver 1 "127.0.0.1"
           (SimulatorSession.start (fresh VNone))).
  vm_compute. reflexivity.
Defined.

(** ** [__robotTest] *)

(** X21 ([__robotTest], the robot is ended once): whatever the driver
    does, a test run that comes to an end after the connection was made
    has called [end] exactly once, whether it returned or raised and
    whether it failed in [__init__] or later; a run that never connected
    and a run that has not come to an end have not called it. *)
Theorem robot_test_ends_robot_once
  {D} (sdrv : SessionDriver D) (fuel : nat) (ip : string) (piece : Z)
  (s : Session D) :
  exists r s' t,
    robot_test sdrv fuel ip piece s = (r, s') /\
    strace s' = strace s ++ t /\
    teardowns t =
      match fst (drv_setup sdrv (NiryoRobot ip) (sdriver s)), r with
      | Ret _, Ok _ | Ret _, Raise _ => 1%nat
      | _, _ => 0%nat
      end.
Proof.
  unfold robot_test. unfold sbind at 1, stry_except at 1.
  destruct (init_teardowns sdrv fuel ip s)
    as (r0 & s1 & t1 & E1 & T1 & N1 & C1).
  rewrite E1. destruct r0 as [[]|e|].
  - assert (U : unended
                  (stry_except (test_body sdrv fuel piece)
                     (fun e =>
                        if is_keyboard_interrupt e
                        then
                          sbind (slog on_info EndedWithKeyboardInterrupt)
                            (fun _ =>
                               sbind (semit (ExitStatus 130))
                                 (fun _ => @sraise D unit SystemExit))
                        else sraise e))).
    { apply unended_try_except; [apply unended_test_body|intro e].
      destruct (is_keyboard_interrupt e); [|apply unended_still].
      apply unended_bind; [now apply unended_semit|intros _].
      apply unended_bind; [now apply unended_semit|intros _].
      apply unended_still. }
    destruct (U s1) as (t2 & T2 & N2). unfold stry_finally.
    assert (C : exists v0,
               fst (drv_setup sdrv (NiryoRobot ip) (sdriver s)) = Ret v0).
    { destruct (fst (drv_setup sdrv (NiryoRobot ip) (sdriver s)))
        as [v0|e0]; [now exists v0|].
      specialize (C1 e0 eq_refl). discriminate. }
    destruct C as [v0 C]. rewrite C in N1 |- *.
    match goal with
    | |- context [stry_except ?m ?h s1] =>
        destruct (stry_except m h s1) as [[[]|e|] s2]
    end; cbn [snd] in T2.
    + rewrite end_robot_run.
      destruct (fst (drv_setup sdrv robot_end (sdriver s2)));
        (eexists _, _, (t1 ++ t2 ++ [_]); split; [reflexivity|];
         cbn [strace]; rewrite T2, T1, <- !app_assoc;
         split; [reflexivity|];
         rewrite !teardowns_app, N1, N2; reflexivity).
    + rewrite end_robot_run.
      destruct (fst (drv_setup sdrv robot_end (sdriver s2)));
        (eexists _, _, (t1 ++ t2 ++ [_]); split; [reflexivity|];
         cbn [strace]; rewrite T2, T1, <- !app_assoc;
         split; [reflexivity|];
         rewrite !teardowns_app, N1, N2; reflexivity).
    + eexists _, _, (t1 ++ t2). split; [reflexivity|].
      rewrite T2, T1, <- !app_assoc. split; [reflexivity|].
      now rewrite teardowns_app, N1, N2.
  - unfold sbind, slog, semit, sraise. cbn [object sdriver strace].
    eexists _, _, (t1 ++ [_]). split; [reflexivity|]. cbn [strace].
    rewrite T1, <- app_assoc. split; [reflexivity|].
    rewrite teardowns_app, N1.
    destruct (fst (drv_setup sdrv (NiryoRobot ip) (sdriver s)));
      reflexivity.
  - eexists _, _, t1. split; [reflexivity|]. split; [exact T1|].
    rewrite N1.
    destruct (fst (drv_setup sdrv (NiryoRobot ip) (sdriver s)));
      reflexivity.
Qed.

(** ** Test runs *)

Lemma confirming_fault_free {D} (drv : Driver D) :
  fault_free drv -> fault_free (confirming drv).
Proof.
  intros (Hc & Hs & _). split; [exact Hc|]. split; [exact Hs|].
  intro s. reflexivity.
Qed.

Lemma calm_subscript {D A} (t : list A) (index : Z) (a : A) :
  tuple_get t index = Some a -> calm (@subscript D A t index).
Proof. intro H. unfold subscript. rewrite H. apply calm_ret. Qed.

Lemma calm_drop_piece_to_board {D} (drv : Driver D) (fuel : nat)
  (index : Z) (board_row : PoseObject.t * PoseObject.t) :
  fault_free drv ->
  tuple_get board_pos index = Some board_row ->
  calm (drop_piece_to_board drv (S fuel) index).
Proof.
  intros healthy H. unfold drop_piece_to_board.
  apply calm_bind; [now apply (calm_subscript _ _ board_row)|intros row].
  apply calm_bind; [now apply calm_move_to_pos|intros _].
  apply calm_bind; [now apply (calm_subscript _ _ board_row)|intros row'].
  apply calm_bind; [now apply calm_move_to_pos|intros _].
  apply calm_bind; [now apply calm_control_gripper|intros _].
  apply calm_bind; [now apply (calm_subscript _ _ board_row)|intros row''].
  apply calm_bind; [now apply calm_move_to_pos|intros _].
  now apply calm_move_to_home.
Qed.

Section TestRuns.

Context {D : Type}.
Variable sdrv : SessionDriver D.
Hypothesis base : setup_returns sdrv.

(** *** The operator interrupts at the first prompt *)

Section Interrupt.

Hypothesis arm : fault_free (confirming (core_driver sdrv)).
Hypothesis ctrl_c :
  forall d, fst (drv_input (core_driver sdrv) d) = Exc KeyboardInterrupt.

Lemma set_up_game_interrupted (fuel : nat) (piece_count : Z) (w : World D) :
  magazine_ready (robot w) = false ->
  exists w',
    set_up_game (core_driver sdrv) (S fuel) piece_count w =
      (Raise KeyboardInterrupt, w') /\
    robot w' = robot w.
Proof.
  intro H. unfold set_up_game. unfold bind at 1, self at 1. rewrite H.
  destruct (move_to_pos_returns (confirming (core_driver sdrv)) arm fuel
              mag_pos_bef w) as (v1 & d1 & E1).
  change (move_to_pos (confirming (core_driver sdrv)))
    with (move_to_pos (core_driver sdrv)) in E1.
  unfold bind at 1. unfold bind at 1. rewrite E1.
  match goal with
  | |- context [bind (move_to_pos _ _ mag_pos) _ ?w0] =>
      destruct (move_to_pos_returns (confirming (core_driver sdrv)) arm
                  fuel mag_pos w0) as (v2 & d2 & E2)
  end.
  change (move_to_pos (confirming (core_driver sdrv)))
    with (move_to_pos (core_driver sdrv)) in E2.
  unfold bind at 1. rewrite E2.
  unfold bind, log, emit, input, outside. cbn [robot driver trace].
  specialize (ctrl_c d2).
  destruct (drv_input (core_driver sdrv) d2) as [o d3].
  cbn [fst] in ctrl_c. subst o. eexists. split; reflexivity.
Qed.

End Interrupt.

(** *** A driver that never fails *)

Section Simulation.

Hypothesis healthy : fault_free (core_driver sdrv).

Lemma test_loop_empties (inner : nat) :
  forall k fuel (s : Session D),
    belt_lock (object s) = false ->
    settled (current_piece_count (object s))
      (current_stack_count (object s)) ->
    current_piece_count (object s) = Z.of_nat k ->
    (k < fuel)%nat ->
    exists s',
      test_loop sdrv fuel (S inner) (Z.of_nat k) s = (Ok tt, s') /\
      belt_fields (object s') = (conveyor_id (object s), false, 0, 0).
Proof.
  induction k as [|k IH]; intros fuel s L HS C Hf;
    (destruct fuel as [|fuel]; [lia|]).
  - exists s. split; [reflexivity|]. unfold belt_fields. rewrite L, C.
    destruct HS as [[_ ->] | (q & ? & [[? ?] | [? ?]])]; [reflexivity| |];
      lia.
  - cbn [test_loop].
    replace (Z.of_nat (S k) =? 0) with false
      by (symmetry; apply Z.eqb_neq; lia).
    destruct (grab_piece_run (core_driver sdrv) healthy inner (view s) L)
      as (w1 & v & t & E1 & F1 & _); [cbn; lia|].
    cbn [view robot] in F1.
    rewrite (sstep_eq _ _ _ _ _ (lift_run _ s _ w1 E1)).
    match goal with
    | |- context [sbind _ _ ?s0] => set (s1 := s0)
    end.
    destruct (calm_drop_piece_to_board (core_driver sdrv) inner 0 _
                healthy eq_refl (view s1)) as ([] & w2 & E2 & F2 & _).
    rewrite (sstep_eq _ _ _ _ _ (lift_run _ s1 _ w2 E2)).
    unfold same_belt in F2. cbn [view robot s1 object] in F2.
    rewrite F1 in F2. unfold belt_fields in F2.
    injection F2 as Fi Fl Fc Fs.
    replace (Z.of_nat (S k) - 1) with (Z.of_nat k) by lia.
    match goal with
    | |- context [test_loop _ _ _ _ ?s0] =>
        destruct (IH fuel s0) as (s' & E & F)
    end; cbn [object].
    + exact Fl.
    + rewrite Fc, Fs. apply settled_after_grab; [exact HS|lia].
    + lia.
    + lia.
    + exists s'. split; [exact E|]. cbn [object] in F. now rewrite F, Fi.
Qed.

End Simulation.

End TestRuns.

Lemma simulator_setup_returns : setup_returns SimulatorSession.driver.
Proof. intros c d. destruct c; eexists; reflexivity. Qed.

Lemma simulator_session_fault_free :
  session_fault_free SimulatorSession.driver.
Proof. split; [exact simulator_fault_free|exact simulator_setup_returns]. Qed.

(** X22 ([__robotTest], ctrl-C at the first prompt): with an arm that
    works and an operator who answers the magazine prompt with ctrl-C,
    the test run, whatever the piece count, goes through [__init__],
    logs the interrupt, fixes the exit status at 130 and then still
    calls [end] before [SystemExit] leaves it; no piece was counted. *)
Theorem ctrl_c_at_magazine_prompt_exits_130
  {D} (sdrv : SessionDriver D) (fuel : nat) (ip : string) (piece : Z)
  (s : Session D) :
  fault_free (confirming (core_driver sdrv)) ->
  setup_returns sdrv ->
  (forall d, fst (drv_input (core_driver sdrv) d) = Exc KeyboardInterrupt) ->
  exists s' t v0 v1 current_tool_id id v,
    robot_test sdrv (S fuel) ip piece s = (Raise SystemExit, s') /\
    strace s' = strace s ++ t /\
    milestones t =
      init_milestones sdrv ip v0 v1 current_tool_id id ++
      [SessionLog on_info EndedWithKeyboardInterrupt;
       ExitStatus 130;
       Setup robot_end (Ret v)] /\
    object s' = fresh id.
Proof.
  intros arm base ctrl_c.
  destruct (init_returns sdrv arm base fuel ip s) as (s1 & E1).
  destruct (init_returned sdrv (S fuel) ip s s1 E1)
    as (t1 & v0 & v1 & tool & id & T1 & M1 & _ & O1).
  destruct (set_up_game_interrupted sdrv arm ctrl_c fuel piece (view s1))
    as (w2 & E2 & R2).
  { cbn. now rewrite O1. }
  cbn [view robot] in R2.
  unfold robot_test. unfold sbind at 1, stry_except at 1. rewrite E1.
  unfold stry_finally, stry_except, test_body. unfold sbind at 1.
  rewrite (lift_run _ s1 _ w2 E2).
  cbn [is_keyboard_interrupt KeyboardInterrupt String.eqb Ascii.eqb
       Bool.eqb].
  unfold sbind, slog, semit, sraise. cbn [object sdriver strace].
  rewrite end_robot_run. cbn [object sdriver strace].
  destruct (base robot_end (driver w2)) as [v Hv]. rewrite Hv.
  eexists _, _, v0, v1, tool, id, v. split; [reflexivity|].
  cbn [object strace]. split; [|split].
  - rewrite T1, <- !app_assoc. reflexivity.
  - rewrite !milestones_app, milestones_core, M1. reflexivity.
  - now rewrite R2, O1.
Qed.

Lemma ctrl_c_at_magazine_prompt_exits_130_witness :
  exists s' t v0 v1 current_tool_id id v,
    robot_test Interrupted.driver 3 "127.0.0.1" 21
      (SimulatorSession.start (fresh VNone)) = (Raise SystemExit, s') /\
    strace s' = [] ++ t /\
    milestones t =
      init_milestones Interrupted.driver "127.0.0.1" v0 v1
        current_tool_id id ++
      [SessionLog on_info EndedWithKeyboardInterrupt;
       ExitStatus 130;
       Setup robot_end (Ret v)] /\
    object s' = fresh id.
Proof.
  apply (ctrl_c_at_magazine_prompt_exits_130 Interrupted.driver 2
           "127.0.0.1" 21 (SimulatorSession.start (fresh VNone))).
  - exact simulator_fault_free.
  - exact simulator_setup_returns.
  - intro d. reflexivity.
Defined.

(** X23 ([__robotTest], a run that works): under a driver that never
    fails, with a piece count that is not negative and fuel above it,
    the test run returns: every piece loaded has been grabbed and
    dropped, both counts are back at zero with the lock free, and the
    call of [end], the only one, is the last thing that happened. *)
Theorem robot_test_returns_with_empty_belt
  {D} (sdrv : SessionDriver D) (fuel : nat) (ip : string) (piece : Z)
  (s : Session D) :
  session_fault_free sdrv ->
  0 <= piece ->
  (Z.to_nat piece < fuel)%nat ->
  exists s' t id v,
    robot_test sdrv fuel ip piece s = (Ok tt, s') /\
    belt_fields (object s') = (id, false, 0, 0) /\
    strace s' = strace s ++ t ++ [Setup robot_end (Ret v)] /\
    teardowns t = 0%nat.
Proof.
  intros (healthy & base) Hp Hf. destruct fuel as [|fuel]; [lia|].
  assert (arm := confirming_fault_free _ healthy).
  destruct (init_returns sdrv arm base fuel ip s) as (s1 & E1).
  destruct (init_returned sdrv (S fuel) ip s s1 E1)
    as (t1 & v0 & v1 & tool & id & T1 & _ & N1 & O1).
  assert (EB : exists s3,
             test_body sdrv (S fuel) piece s1 = (Ok tt, s3) /\
             belt_fields (object s3) = (id, false, 0, 0)).
  { destruct (set_up_game_belt_events (core_driver sdrv) healthy piece
                (S fuel) (view s1)) as (w2 & E2 & F2 & _);
      cbn [view robot]; rewrite ?O1;
      cbn [fresh belt_lock current_piece_count];
      [reflexivity|exact Hp|rewrite Z.sub_0_r; exact Hf|].
    cbn [view robot] in F2. rewrite O1 in F2.
    cbn [fresh conveyor_id current_piece_count current_stack_count] in F2.
    rewrite Z.sub_0_r in F2.
    unfold belt_fields in F2. injection F2 as Fi Fl Fc Fs.
    unfold test_body. rewrite (sstep_eq _ _ _ _ _ (lift_run _ s1 _ w2 E2)).
    match goal with
    | |- context [test_loop _ _ _ _ ?s0] =>
        destruct (test_loop_empties sdrv healthy fuel (Z.to_nat piece)
                    (S fuel) s0) as (s3 & E3 & F3)
    end; cbn [object].
    - exact Fl.
    - rewrite Fc, Fs. apply settled_after_load; [lia|lia| |lia].
      exists 0. split; [lia|]. left. lia.
    - rewrite Fc. lia.
    - exact Hf.
    - rewrite (Z2Nat.id piece Hp) in E3. exists s3.
      split; [exact E3|]. cbn [object] in F3. now rewrite F3, Fi. }
  destruct EB as (s3 & EB & F3).
  destruct (unended_test_body sdrv (S fuel) piece s1) as (t2 & T2 & N2).
  rewrite EB in T2. cbn [snd] in T2.
  destruct (base robot_end (sdriver s3)) as [v Hv].
  unfold robot_test. unfold sbind at 1, stry_except at 1. rewrite E1.
  unfold stry_finally, stry_except. rewrite EB, end_robot_run, Hv.
  exists {| object := object s3;
            sdriver := snd (drv_setup sdrv robot_end (sdriver s3));
            strace := strace s3 ++ [Setup robot_end (Ret v)] |},
    (t1 ++ t2), id, v.
  split; [reflexivity|]. cbn [object strace].
  split; [exact F3|]. split.
  - rewrite T2, T1, <- !app_assoc. reflexivity.
  - now rewrite teardowns_app, N1, N2.
Qed.

Lemma robot_test_returns_with_empty_belt_witness :
  exists s' t id v,
    robot_test SimulatorSession.driver 4 "127.0.0.1" 3
      (SimulatorSession.start (fresh VNone)) = (Ok tt, s') /\
    belt_fields (object s') = (id, false, 0, 0) /\
    strace s' = [] ++ t ++ [Setup robot_end (Ret v)] /\
    teardowns t = 0%nat.
Proof.
  apply (robot_test_returns_with_empty_belt SimulatorSession.driver 4
           "127.0.0.1" 3 (SimulatorSession.start (fresh VNone))).
  - exact simulator_session_fault_free.
  - lia.
  - simpl. lia.
Defined.

(** X24 ([__robotTest], a negative piece count): under a driver that
    never fails, a test run asked for a negative number of pieces never
    comes to an end, however long it is given: the loop of
    [set_up_game] keeps loading. *)
Theorem robot_test_negative_piece_count_never_ends
  {D} (sdrv : SessionDriver D) (ip : string) (piece : Z) (s : Session D) :
  session_fault_free sdrv ->
  piece < 0 ->
  forall fuel, fst (robot_test sdrv fuel ip piece s) = Diverge.
Proof.
  intros (healthy & base) Hp [|fuel].
  - unfold robot_test, init. unfold sbind at 1, stry_except at 1.
    unfold sbind at 1. rewrite connect_run.
    destruct (base (NiryoRobot ip) (sdriver s)) as [v0 H0]. rewrite H0.
    reflexivity.
  - assert (arm := confirming_fault_free _ healthy).
    destruct (init_returns sdrv arm base fuel ip s) as (s1 & E1).
    destruct (init_returned sdrv (S fuel) ip s s1 E1)
      as (t1 & v0 & v1 & tool & id & T1 & _ & N1 & O1).
    unfold robot_test. unfold sbind at 1, stry_except at 1. rewrite E1.
    unfold stry_finally, stry_except, test_body. unfold sbind at 1.
    destruct (set_up_game_enters_loop (core_driver sdrv) healthy fuel
                piece (view s1)) as (w1 & (F1 & _) & EL).
    unfold same_belt, belt_fields in F1. injection F1 as Fi Fl Fc Fs.
    cbn [view robot] in Fl, Fc. rewrite O1 in Fl, Fc.
    assert (Dv := set_up_loop_diverges (core_driver sdrv) healthy piece
                    (S fuel) (S fuel) w1 Fl).
    rewrite Fc in Dv. specialize (Dv Hp). rewrite <- EL in Dv.
    destruct (set_up_game (core_driver sdrv) (S fuel) piece (view s1))
      as [r w2] eqn:E2.
    cbn [fst] in Dv. subst r.
    rewrite (lift_run _ s1 _ w2 E2). reflexivity.
Qed.

Lemma robot_test_negative_piece_count_never_ends_witness :
  fst (robot_test SimulatorSession.driver 5 "127.0.0.1" (-1)
         (SimulatorSession.start (fresh VNone))) = Diverge.
Proof.
  apply (robot_test_negative_piece_count_never_ends
           SimulatorSession.driver "127.0.0.1" (-1)
           (SimulatorSession.start (fresh VNone))).
  - exact simulator_session_fault_free.
  - lia.
Defined.

(** * Calibration, prompts and flags *)

(** ** [__calibrate_board] *)

Section Calibration.

Context {D : Type}.
Variable drv : Driver D.

Section Returning.

Hypothesis healthy : fault_free drv.

Lemma calibrate_rows_run (fuel : nat) :
  forall rows (w : World D),
    exists vs d,
      List.length vs = List.length rows /\
      calibrate_rows drv (S fuel) rows w =
        (Ok tt, {| robot := robot w; driver := d;
                   trace := trace w ++ lanes_calibration rows vs |}).
Proof.
  induction rows as [|board_row rows IH]; intro w.
  - exists [], (driver w). split; [reflexivity|]. simpl.
    rewrite app_nil_r. now destruct w.
  - cbn [calibrate_rows].
    destruct (move_to_pos_returns drv healthy fuel (fst board_row) w)
      as (v1 & d1 & E1).
    rewrite (step_eq _ _ _ _ _ E1).
    unfold slow_arm_control. unfold bind at 1.
    match goal with
    | |- context [bind (execute_robot_action drv _ (method ?c)) ?k ?w1] =>
        destruct (call_returns drv healthy c (driver w1)) as (v2 & d2 & E2);
        rewrite (step_eq _ (fun x => k x) _ _ _
                   (execute_returns drv fuel c w1 v2 d2 E2))
    end.
    cbv beta. unfold try_finally.
    match goal with
    | |- context [bind (move_to_pos drv _ ?p) ?k ?w1] =>
        destruct (move_to_pos_returns drv healthy fuel p w1)
          as (v3 & d3 & E3);
        rewrite (step_eq _ k _ _ _ E3)
    end.
    unfold bind at 1, log at 1, emit at 1. cbn [robot driver trace].
    destruct healthy as (_ & _ & Hi). specialize (Hi d3).
    unfold bind at 1, input at 1, outside at 1. cbn [robot driver trace].
    destruct (drv_input drv d3) as [o d4]. cbn [fst] in Hi. subst o.
    match goal with
    | |- context [move_to_pos drv _ ?p ?w1] =>
        destruct (move_to_pos_returns drv healthy fuel p w1)
          as (v4 & d5 & E4);
        rewrite E4
    end.
    match goal with
    | |- context [bind (execute_robot_action drv _ (method ?c)) ?k ?w1] =>
        destruct (call_returns drv healthy c (driver w1)) as (v5 & d6 & E5);
        rewrite (step_eq _ (fun x => k x) _ _ _
                   (execute_returns drv fuel c w1 v5 d6 E5))
    end.
    unfold ret at 1. cbn [robot driver trace].
    match goal with
    | |- context [calibrate_rows drv _ rows ?w1] =>
        destruct (IH w1) as (vs & d & L & E)
    end.
    rewrite E. cbn [robot driver trace].
    exists ((v1, v2, v3, v4, v5) :: vs), d.
    split; [simpl; now rewrite L|].
    cbn [lanes_calibration lane_calibration].
    repeat (rewrite <- ?app_assoc; cbn [app]). reflexivity.
Qed.

Lemma calibrate_board_run (fuel : nat) (w : World D) :
  exists vs v d,
    List.length vs = List.length board_pos /\
    calibrate_board drv (S fuel) w =
      (Ok tt,
       {| robot := set_board_calibrated true (robot w); driver := d;
          trace := trace w ++ lanes_calibration board_pos vs ++
                   [Invoke (move_pose better_home_pos) (Ret v);
                    Log info (MovedToPosition better_home_pos);
                    Log info MovedHome] |}).
Proof.
  destruct (calibrate_rows_run fuel board_pos w) as (vs & d1 & L & E1).
  unfold calibrate_board. rewrite (step_eq _ _ _ _ _ E1).
  match goal with
  | |- context [bind (move_to_home drv _) ?k ?w1] =>
      destruct (move_to_home_returns drv healthy fuel w1) as (v & d & E2);
      rewrite (step_eq _ k _ _ _ E2)
  end.
  exists vs, v, d. split; [exact L|].
  unfold update. cbn [robot driver trace]. now rewrite <- app_assoc.
Qed.

End Returning.

Section Interrupted.

Variable e : exn.
Hypothesis arm : fault_free (confirming drv).
Hypothesis stop : forall d, fst (drv_input drv d) = Exc e.

Lemma calibrate_rows_interrupted (fuel : nat)
  (board_row : PoseObject.t * PoseObject.t)
  (rows : list (PoseObject.t * PoseObject.t)) (w : World D) :
  exists v1 v2 v3 v5 d,
    calibrate_rows drv (S fuel) (board_row :: rows) w =
      (Raise e,
       {| robot := robot w; driver := d;
          trace := trace w ++ lane_interrupted board_row v1 v2 v3 v5 |}).
Proof.
  cbn [calibrate_rows].
  destruct (move_to_pos_returns (confirming drv) arm fuel (fst board_row) w)
    as (v1 & d1 & E1).
  change (move_to_pos (confirming drv)) with (move_to_pos drv) in E1.
  rewrite (step_eq _ _ _ _ _ E1).
  unfold slow_arm_control. unfold bind at 1.
  match goal with
  | |- context [bind (execute_robot_action drv _ (method ?c)) ?k ?w1] =>
      destruct (call_returns (confirming drv) arm c (driver w1))
        as (v2 & d2 & E2);
      rewrite (step_eq _ (fun x => k x) _ _ _
                 (execute_returns drv fuel c w1 v2 d2 E2))
  end.
  cbv beta. unfold try_finally.
  match goal with
  | |- context [bind (move_to_pos drv _ ?p) ?k ?w1] =>
      destruct (move_to_pos_returns (confirming drv) arm fuel p w1)
        as (v3 & d3 & E3);
      change (move_to_pos (confirming drv)) with (move_to_pos drv) in E3;
      rewrite (step_eq _ k _ _ _ E3)
  end.
  unfold bind at 1, log at 1, emit at 1. cbn [robot driver trace].
  specialize (stop d3).
  unfold bind at 1, input at 1, outside at 1. cbn [robot driver trace].
  destruct (drv_input drv d3) as [o d4]. cbn [fst] in stop. subst o.
  match goal with
  | |- context [bind (execute_robot_action drv _ (method ?c)) ?k ?w1] =>
      destruct (call_returns (confirming drv) arm c (driver w1))
        as (v5 & d6 & E5);
      rewrite (step_eq _ (fun x => k x) _ _ _
                 (execute_returns drv fuel c w1 v5 d6 E5))
  end.
  unfold ret. cbn [robot driver trace].
  exists v1, v2, v3, v5, d6. unfold lane_interrupted.
  repeat (rewrite <- ?app_assoc; cbn [app]). reflexivity.
Qed.

End Interrupted.

End Calibration.

(** X25 ([__calibrate_board], a calibration that works): under a driver
    that never fails the board is calibrated lane by lane, each lane by
    a move to its approach pose, the velocity set to 30, a move to its
    drop pose, one prompt, a move back and the velocity set to 100;
    then the arm goes home and [__board_calibrated] is set; nothing
    else of the object is changed. *)
Theorem calibrate_board_sequence
  {D} (drv : Driver D) (fuel : nat) (w : World D) :
  fault_free drv ->
  exists vs v d,
    List.length vs = List.length board_pos /\
    calibrate_board drv (S fuel) w =
      (Ok tt,
       {| robot := set_board_calibrated true (robot w); driver := d;
          trace := trace w ++ lanes_calibration board_pos vs ++
                   [Invoke (move_pose better_home_pos) (Ret v);
                    Log info (MovedToPosition better_home_pos);
                    Log info MovedHome] |}).
Proof. intro healthy. now apply calibrate_board_run. Qed.

Lemma calibrate_board_sequence_witness :
  exists vs v d,
    List.length vs = List.length board_pos /\
    calibrate_board Simulator.driver 1 Simulator.session =
      (Ok tt,
       {| robot := set_board_calibrated true (fresh (VInt 1)); driver := d;
          trace := [] ++ lanes_calibration board_pos vs ++
                   [Invoke (move_pose better_home_pos) (Ret v);
                    Log info (MovedToPosition better_home_pos);
                    Log info MovedHome] |}).
Proof.
  apply (calibrate_board_sequence Simulator.driver 0 Simulator.session).
  exact simulator_fault_free.
Defined.

(** X26 ([__calibrate_board], an interrupted calibration): when the
    prompt of the first lane raises, with an arm that works, the
    velocity is set back to 100 before the exception leaves
    [__calibrate_board]; the arm is left over the board at the drop
    pose, no further lane is visited and [__board_calibrated] stays as
    it was. *)
Theorem calibrate_board_interrupted_restores_velocity
  {D} (drv : Driver D) (fuel : nat) (w : World D) (e : exn) :
  fault_free (confirming drv) ->
  (forall d, fst (drv_input drv d) = Exc e) ->
  exists v1 v2 v3 v5 d,
    calibrate_board drv (S fuel) w =
      (Raise e,
       {| robot := robot w; driver := d;
          trace := trace w ++
                   lane_interrupted (hd (index0_pos, index0_pos) board_pos)
                     v1 v2 v3 v5 |}).
Proof.
  intros arm stop.
  destruct (calibrate_rows_interrupted drv e arm stop fuel
              (hd (index0_pos, index0_pos) board_pos) (tl board_pos) w)
    as (v1 & v2 & v3 & v5 & d & E).
  exists v1, v2, v3, v5, d. unfold calibrate_board.
  change board_pos
    with (hd (index0_pos, index0_pos) board_pos :: tl board_pos) at 1.
  unfold bind at 1. now rewrite E.
Qed.

Lemma calibrate_board_interrupted_restores_velocity_witness :
  exists v1 v2 v3 v5 d,
    calibrate_board (core_driver Interrupted.driver) 1 Simulator.session =
      (Raise KeyboardInterrupt,
       {| robot := fresh (VInt 1); driver := d;
          trace := [] ++
                   lane_interrupted (hd (index0_pos, index0_pos) board_pos)
                     v1 v2 v3 v5 |}).
Proof.
  apply (calibrate_board_interrupted_restores_velocity
           (core_driver Interrupted.driver) 0 Simulator.session
           KeyboardInterrupt).
  - exact simulator_fault_free.
  - intro d. reflexivity.
Defined.

(** ** What is asked of the operator *)

Lemma prompts_app (a b : list event) :
  prompts (a ++ b) = (prompts a + prompts b)%nat.
Proof. unfold prompts. now rewrite filter_app, length_app. Qed.

Section Prompts.

Context {D : Type}.
Variable drv : Driver D.

#[local] Abbreviation M := (@M D).
#[local] Abbreviation unasked := (@unasked D).
#[local] Abbreviation unprompted := (@unprompted D).

Lemma unasked_refl (w : World D) : ready (robot w) -> unasked w w.
Proof. intro H. split; [exact H|]. exists []. now rewrite app_nil_r. Qed.

Lemma unasked_trans (w1 w2 w3 : World D) :
  unasked w1 w2 -> unasked w2 w3 -> unasked w1 w3.
Proof.
  intros (_ & t1 & T1 & N1) (H & t2 & T2 & N2). split; [exact H|].
  exists (t1 ++ t2). rewrite T2, T1, app_assoc, prompts_app, N1, N2.
  now split.
Qed.

Lemma unprompted_still {A} (m : M A) :
  (forall w, snd (m w) = w) -> unprompted m.
Proof. intros H w Hw. rewrite H. now apply unasked_refl. Qed.

Lemma unprompted_bind {A B} (m : M A) (k : A -> M B) :
  unprompted m -> (forall a, unprompted (k a)) -> unprompted (bind m k).
Proof.
  intros Hm Hk w Hw. unfold bind. specialize (Hm w Hw).
  destruct (m w) as [[a|e|] w1]; cbn [snd] in *; try assumption.
  eapply unasked_trans; [eassumption|]. apply Hk. apply Hm.
Qed.

Lemma unprompted_self {B} (k : Robot -> M B) :
  (forall r, ready r -> unprompted (k r)) -> unprompted (bind self k).
Proof. intros Hk w Hw. unfold bind, self. now apply Hk. Qed.

Lemma unprompted_try_except {A} (m : M A) (h : exn -> M A) :
  unprompted m -> (forall e, unprompted (h e)) ->
  unprompted (try_except m h).
Proof.
  intros Hm Hh w Hw. unfold try_except. specialize (Hm w Hw).
  destruct (m w) as [[a|e|] w1]; cbn [snd] in *; try assumption.
  eapply unasked_trans; [eassumption|]. apply Hh. apply Hm.
Qed.

Lemma unprompted_try_finally {A} (m : M A) (f : M unit) :
  unprompted m -> unprompted f -> unprompted (try_finally m f).
Proof.
  intros Hm Hf w Hw. unfold try_finally. specialize (Hm w Hw).
  destruct (m w) as [[a|e|] w1]; cbn [snd] in *; try assumption;
    specialize (Hf w1 (proj1 Hm)); destruct (f w1) as [[[]|e'|] w2];
    cbn [snd] in *; eapply unasked_trans; eassumption.
Qed.

Lemma unprompted_emit (e : event) :
  is_prompt e = false -> unprompted (emit e).
Proof.
  intros H w Hw. split; [exact Hw|]. exists [e]. split; [reflexivity|].
  unfold prompts. simpl. now rewrite H.
Qed.

Lemma unprompted_update (f : Robot -> Robot) :
  (forall r, ready r -> ready (f r)) -> unprompted (update f).
Proof.
  intros H w Hw. split; [now apply H|]. exists []. simpl.
  now rewrite app_nil_r.
Qed.

Lemma unprompted_outside {A} (f : D -> outcome A * D)
  (ev : outcome A -> event) :
  (forall o, is_prompt (ev o) = false) -> unprompted (outside f ev).
Proof.
  intros H w Hw. unfold outside. destruct (f (driver w)) as [o d].
  assert (G : unasked w {| robot := robot w; driver := d;
                           trace := trace w ++ [ev o] |}).
  { split; [exact Hw|]. exists [ev o]. split; [reflexivity|].
    unfold prompts. simpl. now rewrite H. }
  now destruct o.
Qed.

Lemma unprompted_retry_loop fuel name a :
  unprompted (retry_loop drv fuel name a).
Proof.
  induction fuel as [|fuel IH]; simpl; [now apply unprompted_still|].
  apply unprompted_try_except.
  - unfold call. destruct (act_body a);
      [now apply unprompted_outside|now apply unprompted_still].
  - intros []; try (now apply unprompted_still).
    + apply unprompted_bind;
        [now apply unprompted_emit|intro; now apply unprompted_still].
    + apply unprompted_bind; [now apply unprompted_emit|intro; exact IH].
Qed.

Lemma unprompted_move_to_pos fuel pos : unprompted (move_to_pos drv fuel pos).
Proof.
  apply unprompted_bind;
    [apply unprompted_retry_loop|intro; now apply unprompted_emit].
Qed.

Lemma unprompted_move_to_home fuel : unprompted (move_to_home drv fuel).
Proof.
  apply unprompted_bind;
    [apply unprompted_move_to_pos|intro; now apply unprompted_emit].
Qed.

Lemma unprompted_tool_state_loop fuel inner st :
  unprompted (tool_state_loop drv fuel inner st).
Proof.
  revert st. induction fuel as [|fuel IH]; intro st; simpl;
    [now apply unprompted_still|].
  destruct (st =? 0); [now apply unprompted_still|].
  apply unprompted_bind; [now apply unprompted_emit|intros _].
  apply unprompted_bind; [apply unprompted_retry_loop|intros _].
  apply unprompted_bind; [now apply unprompted_outside|intro; apply IH].
Qed.

Lemma unprompted_control_gripper fuel act :
  unprompted (control_gripper drv fuel act).
Proof.
  apply unprompted_bind.
  - apply unprompted_try_except.
    + apply unprompted_bind; [now apply unprompted_outside|].
      intro; apply unprompted_tool_state_loop.
    + intros []; try (now apply unprompted_still).
      now apply unprompted_emit.
  - intros _. destruct act;
      (apply unprompted_bind; [apply unprompted_retry_loop|
                               intro; now apply unprompted_still]).
Qed.

Lemma unprompted_slow_arm_control {A} fuel slow (body : M A) :
  unprompted body -> unprompted (slow_arm_control drv fuel slow body).
Proof.
  intro Hb. apply unprompted_bind; [apply unprompted_retry_loop|intros _].
  apply unprompted_try_finally; [exact Hb|].
  apply unprompted_bind;
    [apply unprompted_retry_loop|intro; now apply unprompted_still].
Qed.

Lemma unprompted_assign_stack_count n : unprompted (assign_stack_count n).
Proof.
  apply unprompted_bind; [now apply unprompted_still|intros r].
  apply unprompted_bind;
    [now apply unprompted_update|intro; now apply unprompted_emit].
Qed.

Lemma unprompted_with_belt_lock {A} (body : M A) :
  unprompted body -> unprompted (with_belt_lock body).
Proof.
  intro Hb. apply unprompted_bind.
  - apply unprompted_bind; [now apply unprompted_still|intros r].
    destruct (belt_lock r); [now apply unprompted_still|].
    apply unprompted_bind;
      [now apply unprompted_update|intro; now apply unprompted_emit].
  - intros _. apply unprompted_try_finally; [exact Hb|].
    apply unprompted_bind;
      [now apply unprompted_update|intro; now apply unprompted_emit].
Qed.

Lemma unprompted_set_up_piece fuel piece_count :
  unprompted (set_up_piece drv fuel piece_count).
Proof.
  unfold set_up_piece.
  apply unprompted_bind; [now apply unprompted_still|intros r].
  apply unprompted_bind; [now apply unprompted_emit|intros _].
  apply unprompted_bind; [now apply unprompted_emit|intros _].
  apply unprompted_bind; [now apply unprompted_update|intros _].
  apply unprompted_bind; [apply unprompted_move_to_pos|intros _].
  apply unprompted_bind; [|intros _].
  { apply unprompted_slow_arm_control.
    apply unprompted_bind; [apply unprompted_move_to_pos|intros _].
    apply unprompted_bind; [apply unprompted_control_gripper|intros _].
    apply unprompted_move_to_pos. }
  apply unprompted_bind; [apply unprompted_move_to_home|intros _].
  apply unprompted_self. intros r' (_ & Hc). rewrite Hc.
  apply unprompted_bind; [now apply unprompted_still|intros _].
  apply unprompted_bind; [|intros _].
  { apply unprompted_with_belt_lock. unfold place_piece.
    apply unprompted_bind; [now apply unprompted_emit|intros _].
    apply unprompted_bind; [now apply unprompted_still|intros r''].
    apply unprompted_bind; [apply unprompted_move_to_pos|intros _].
    apply unprompted_bind; [now apply unprompted_still|intros r3].
    apply unprompted_bind; [apply unprompted_assign_stack_count|intros _].
    apply unprompted_bind; [apply unprompted_control_gripper|intros _].
    apply unprompted_move_to_home. }
  unfold advance_when_full.
  apply unprompted_bind; [now apply unprompted_still|intros r4].
  destruct (_ && _); [|now apply unprompted_still].
  apply unprompted_bind; [now apply unprompted_emit|intros _].
  apply unprompted_bind; [apply unprompted_assign_stack_count|intros _].
  now apply unprompted_emit.
Qed.

Lemma unprompted_set_up_loop fuel inner piece_count :
  unprompted (set_up_loop drv fuel inner piece_count).
Proof.
  induction fuel as [|fuel IH]; simpl; [now apply unprompted_still|].
  apply unprompted_bind; [now apply unprompted_still|intros r].
  destruct (current_piece_count r =? piece_count);
    [now apply unprompted_still|].
  apply unprompted_bind; [apply unprompted_set_up_piece|intros _; exact IH].
Qed.

Lemma unprompted_set_up_game fuel piece_count :
  unprompted (set_up_game drv fuel piece_count).
Proof.
  unfold set_up_game.
  apply unprompted_self. intros r (Hm & _). rewrite Hm.
  apply unprompted_bind;
    [now apply unprompted_still|intros _; apply unprompted_set_up_loop].
Qed.

Lemma unprompted_grab_piece fuel : unprompted (grab_piece drv fuel).
Proof.
  unfold grab_piece.
  apply unprompted_bind; [now apply unprompted_still|intros r].
  destruct (current_piece_count r =? 0); [now apply unprompted_still|].
  apply unprompted_bind; [|intros _].
  { apply unprompted_with_belt_lock. unfold take_piece.
    apply unprompted_bind; [now apply unprompted_still|intros r1].
    apply unprompted_bind; [apply unprompted_move_to_pos|intros _].
    apply unprompted_bind; [apply unprompted_control_gripper|intros _].
    apply unprompted_bind; [apply unprompted_move_to_home|intros _].
    apply unprompted_bind; [now apply unprompted_still|intros r2].
    apply unprompted_bind; [apply unprompted_assign_stack_count|intros _].
    apply unprompted_bind; [now apply unprompted_still|intros r3].
    now apply unprompted_update. }
  unfold advance_when_empty.
  apply unprompted_bind; [now apply unprompted_still|intros r4].
  destruct (_ && _); [|now apply unprompted_still].
  apply unprompted_bind; [apply unprompted_assign_stack_count|intros _].
  now apply unprompted_emit.
Qed.

Lemma unprompted_drop_piece_to_board fuel index :
  unprompted (drop_piece_to_board drv fuel index).
Proof.
  assert (S : forall A (t : list A), unprompted (subscript t index)).
  { intros A t. unfold subscript.
    destruct (tuple_get t index); now apply unprompted_still. }
  unfold drop_piece_to_board.
  apply unprompted_bind; [apply S|intros row].
  apply unprompted_bind; [apply unprompted_move_to_pos|intros _].
  apply unprompted_bind; [apply S|intros row'].
  apply unprompted_bind; [apply unprompted_move_to_pos|intros _].
  apply unprompted_bind; [apply unprompted_control_gripper|intros _].
  apply unprompted_bind; [apply S|intros row''].
  apply unprompted_bind; [apply unprompted_move_to_pos|intros _].
  apply unprompted_move_to_home.
Qed.

Lemma unprompted_move_pieces_on_belt fuel direction :
  unprompted (move_pieces_on_belt drv fuel direction).
Proof.
  unfold move_pieces_on_belt. apply unprompted_with_belt_lock.
  apply unprompted_bind; [now apply unprompted_emit|intros _].
  apply unprompted_bind; [now apply unprompted_emit|intros _].
  apply unprompted_bind; [now apply unprompted_still|intros r].
  apply unprompted_bind; [apply unprompted_retry_loop|intros _].
  apply unprompted_bind; [now apply unprompted_emit|intros _].
  apply unprompted_bind; [now apply unprompted_still|intros r'].
  apply unprompted_bind; [apply unprompted_retry_loop|intros _].
  now apply unprompted_emit.
Qed.

Lemma unprompted_run_operations fuel os :
  unprompted (run_operations drv fuel os).
Proof.
  induction os as [|o os IH]; simpl; [now apply unprompted_still|].
  apply unprompted_bind; [|intros _; exact IH].
  destruct o; [apply unprompted_set_up_game|apply unprompted_grab_piece].
Qed.

Lemma unprompted_run_thread fuel b : unprompted (run_thread drv fuel b).
Proof.
  destruct b;
    [apply unprompted_run_operations|apply unprompted_move_pieces_on_belt].
Qed.

End Prompts.

(** ** What a load that returned has set *)

Lemma bind_returned {D A B} (m : @M D A) (k : A -> @M D B)
  (w : World D) b w2 :
  bind m k w = (Ok b, w2) ->
  exists a w1, m w = (Ok a, w1) /\ k a w1 = (Ok b, w2).
Proof.
  unfold bind. destruct (m w) as [[a|e|] w1]; intro E;
    [now exists a, w1|discriminate|discriminate].
Qed.

Lemma framed_run {D A} (R : Robot -> Robot -> Prop) (m : @M D A)
  (w : World D) r w1 :
  framed R m -> m w = (r, w1) -> R (robot w) (robot w1).
Proof. intros H E. specialize (H w). rewrite E in H. apply H. Qed.

Section Flags.

Context {D : Type}.
Variable drv : Driver D.

Lemma steady_assignments :
  (forall b r, steady r (set_belt_lock b r)) /\
  (forall n r, steady r (set_current_piece_count n r)) /\
  (forall n r, steady r (set_current_stack_count n r)) /\
  (forall r, steady r (set_board_calibrated true r)) /\
  (forall r, steady r (set_magazine_ready true r)).
Proof. repeat split; auto. Qed.

Lemma steady_set_up_loop fuel inner piece_count (w w' : World D) r :
  set_up_loop drv fuel inner piece_count w = (r, w') ->
  steady (robot w) (robot w').
Proof.
  destruct steady_assignments as (H1 & H2 & H3 & H4 & H5).
  apply framed_run.
  now apply (framed_set_up_loop drv steady steady_refl steady_trans).
Qed.

Lemma calibrate_board_returned fuel (w w' : World D) :
  calibrate_board drv fuel w = (Ok tt, w') ->
  board_calibrated (robot w') = true.
Proof.
  unfold calibrate_board. intro E.
  apply bind_returned in E as ([] & w1 & _ & E).
  apply bind_returned in E as ([] & w2 & _ & E).
  unfold update in E. now injection E as <-.
Qed.

Lemma set_up_piece_returned fuel piece_count (w w' : World D) :
  set_up_piece drv fuel piece_count w = (Ok tt, w') ->
  board_calibrated (robot w') = true.
Proof.
  unfold set_up_piece. intro E.
  apply bind_returned in E as (r & w1 & _ & E).
  apply bind_returned in E as ([] & w2 & _ & E).
  apply bind_returned in E as ([] & w3 & _ & E).
  apply bind_returned in E as ([] & w4 & _ & E).
  apply bind_returned in E as ([] & w5 & _ & E).
  apply bind_returned in E as ([] & w6 & _ & E).
  apply bind_returned in E as ([] & w7 & _ & E).
  apply bind_returned in E as (r' & w8 & E8 & E).
  unfold self in E8. injection E8 as <- <-.
  apply bind_returned in E as ([] & w9 & E9 & E).
  assert (C : board_calibrated (robot w9) = true).
  { destruct (board_calibrated (robot w7)) eqn:C7.
    - unfold ret in E9. injection E9 as <-. exact C7.
    - now apply (calibrate_board_returned fuel w7). }
  destruct steady_assignments as (H1 & H2 & H3 & H4 & H5).
  assert (F : framed steady
                (bind (with_belt_lock (place_piece drv fuel))
                   (fun _ => advance_when_full piece_count))).
  { apply (framed_bind steady steady_trans); [|intros _].
    - apply (framed_with_belt_lock steady steady_refl steady_trans H1).
      unfold place_piece.
      apply (framed_bind steady steady_trans);
        [apply (framed_emit steady steady_refl)|intros _].
      apply (framed_bind steady steady_trans);
        [now apply (framed_still steady steady_refl)|intros r''].
      apply (framed_bind steady steady_trans);
        [apply (framed_move_to_pos drv steady steady_refl steady_trans)
        |intros _].
      apply (framed_bind steady steady_trans);
        [now apply (framed_still steady steady_refl)|intros r3].
      apply (framed_bind steady steady_trans);
        [apply (framed_assign_stack_count steady steady_refl steady_trans
                  H3)|intros _].
      apply (framed_bind steady steady_trans);
        [apply (framed_control_gripper drv steady steady_refl steady_trans)
        |intros _].
      apply (framed_move_to_home drv steady steady_refl steady_trans).
    - unfold advance_when_full.
      apply (framed_bind steady steady_trans);
        [now apply (framed_still steady steady_refl)|intros r4].
      destruct (_ && _); [|now apply (framed_still steady steady_refl)].
      apply (framed_bind steady steady_trans);
        [apply (framed_emit steady steady_refl)|intros _].
      apply (framed_bind steady steady_trans);
        [apply (framed_assign_stack_count steady steady_refl steady_trans
                  H3)|intros _].
      apply (framed_emit steady steady_refl). }
  apply (framed_run steady _ w9 _ w' F E). exact C.
Qed.

Lemma set_up_game_returned fuel piece_count (w w' : World D) :
  set_up_game drv fuel piece_count w = (Ok tt, w') ->
  magazine_ready (robot w') = true /\
  (current_piece_count (robot w) <> piece_count ->
   board_calibrated (robot w') = true).
Proof.
  unfold set_up_game. intro E.
  apply bind_returned in E as (r & w0 & E0 & E).
  unfold self in E0. injection E0 as <- <-.
  apply bind_returned in E as ([] & w1 & E1 & E).
  assert (A : magazine_ready (robot w1) = true /\
              current_piece_count (robot w1) =
                current_piece_count (robot w)).
  { destruct (magazine_ready (robot w)) eqn:Hm.
    - injection E1 as <-. now split.
    - apply bind_returned in E1 as ([] & u1 & F1 & E1).
      apply (framed_run eq) in F1;
        [|apply (framed_move_to_pos drv eq (@eq_refl _) (@eq_trans _))].
      apply bind_returned in E1 as ([] & u2 & F2 & E1).
      apply (framed_run eq) in F2;
        [|apply (framed_move_to_pos drv eq (@eq_refl _) (@eq_trans _))].
      apply bind_returned in E1 as ([] & u3 & F3 & E1).
      apply (framed_run eq) in F3;
        [|apply (framed_emit eq (@eq_refl _))].
      apply bind_returned in E1 as ([] & u4 & F4 & E1).
      apply (framed_run eq) in F4;
        [|apply (framed_emit eq (@eq_refl _))].
      apply bind_returned in E1 as ([] & u5 & F5 & E1).
      apply (framed_run eq) in F5;
        [|apply (framed_outside eq (@eq_refl _))].
      apply bind_returned in E1 as ([] & u6 & F6 & E1).
      apply (framed_run eq) in F6;
        [|apply (framed_move_to_home drv eq (@eq_refl _) (@eq_trans _))].
      unfold update in E1. injection E1 as <-. cbn [robot].
      split; [reflexivity|]. cbn. congruence. }
  destruct A as (Am & Ac).
  pose proof (steady_set_up_loop _ _ _ _ _ _ E) as (_ & Sm & _).
  split; [now apply Sm|].
  intro C. destruct fuel as [|fuel]; [discriminate|].
  cbn [set_up_loop] in E.
  apply bind_returned in E as (r & w2 & E2 & E).
  unfold self in E2. injection E2 as <- <-.
  rewrite Ac in E.
  replace (current_piece_count (robot w) =? piece_count) with false in E
    by (symmetry; now apply Z.eqb_neq).
  apply bind_returned in E as ([] & w3 & E3 & E).
  apply set_up_piece_returned in E3.
  pose proof (steady_set_up_loop _ _ _ _ _ _ E) as (_ & _ & Sc).
  now apply Sc.
Qed.

End Flags.

(** X27 ([set_up_game], what a load that returned has set): whatever
    the driver did, when [set_up_game] returns the magazine is marked
    ready, and when it had a piece to place the board is marked
    calibrated. *)
Theorem returned_load_has_set_the_flags
  {D} (drv : Driver D) (fuel : nat) (piece_count : Z) (w w' : World D) :
  set_up_game drv fuel piece_count w = (Ok tt, w') ->
  magazine_ready (robot w') = true /\
  (current_piece_count (robot w) <> piece_count ->
   board_calibrated (robot w') = true).
Proof. apply set_up_game_returned. Qed.

Lemma returned_load_has_set_the_flags_witness :
  magazine_ready
    (robot (snd (set_up_game Simulator.driver 2 1 Simulator.session)))
    = true /\
  (current_piece_count (robot Simulator.session) <> 1 ->
   board_calibrated
     (robot (snd (set_up_game Simulator.driver 2 1 Simulator.session)))
     = true).
Proof.
  apply (returned_load_has_set_the_flags Simulator.driver 2 1
           Simulator.session).
  vm_compute. reflexivity.
Defined.

(** X28 (no second prompt): once the magazine is marked ready and the
    board calibrated, whatever the driver does and however the run
    ends, no load, grab, drop or belt thread asks anything of the
    operator again, and both marks stay. *)
Theorem ready_object_is_not_prompted_again
  {D} (drv : Driver D) (fuel : nat) (body : thread_body) (index : Z)
  (w : World D) :
  ready (robot w) ->
  unasked w (snd (run_thread drv fuel body w)) /\
  unasked w (snd (drop_piece_to_board drv fuel index w)).
Proof.
  intro H. split;
    [now apply unprompted_run_thread
    |now apply unprompted_drop_piece_to_board].
Qed.

Lemma ready_object_is_not_prompted_again_witness :
  let w := snd (set_up_game Simulator.driver 2 1 Simulator.session) in
  unasked w
    (snd (run_thread Simulator.driver 3 (Foreground [Load 2; Grab]) w)) /\
  unasked w (snd (drop_piece_to_board Simulator.driver 3 0 w)).
Proof.
  apply (ready_object_is_not_prompted_again Simulator.driver 3
           (Foreground [Load 2; Grab]) 0
           (snd (set_up_game Simulator.driver 2 1 Simulator.session))).
  split; reflexivity.
Defined.
